(** * The fan-out engine of gstmultifdsink.c, embedded in Rocq

    A shallow embedding of [src/gst/tcp/gstmultifdsink.c]: the global buffer
    queue and its index-from-limit helpers, the client table, the sync and
    recover policies, the read and write handlers of the I/O loop and the
    producer path.  C integers are [Z] with the conversions of the C code
    written out; the client table is a store of client structures addressed
    by location, shared by the ordered client list and the descriptor hash. *)

From stdpp Require Import base option list gmap.
From Stdlib Require Import ZArith Lia.

Local Open Scope Z_scope.

(** ** Machine integers *)

Module CInt.

(** Conversion to an unsigned type of [w] bits. *)
Definition wrap_unsigned (w x : Z) : Z := x mod 2 ^ w.

(** Conversion to a signed (two's complement) type of [w] bits. *)
Definition wrap_signed (w x : Z) : Z :=
  (x + 2 ^ (w - 1)) mod 2 ^ w - 2 ^ (w - 1).

Definition to_gint : Z → Z := wrap_signed 32.
Definition to_guint : Z → Z := wrap_unsigned 32.
Definition to_gint64 : Z → Z := wrap_signed 64.
Definition to_guint64 : Z → Z := wrap_unsigned 64.

Definition G_MAXINT : Z := 2 ^ 31 - 1.
Definition G_MININT : Z := - 2 ^ 31.

(** [MAX] and [MIN] of glib, on operands already converted to a common
    type. *)
Definition MAX (a b : Z) : Z := if b <? a then a else b.
Definition MIN (a b : Z) : Z := if a <? b then a else b.

End CInt.
Import CInt.

(** ** Data model *)

(** [GST_CLOCK_TIME_NONE], the all-ones [guint64]; the C code also writes
    it [-1] when comparing with a [GstClockTime]. *)
Definition GST_CLOCK_TIME_NONE : Z := 2 ^ 64 - 1.

(** A buffer as the sink sees it: its size ([gsize]), its timestamp
    ([GstClockTime]) and the two flags the sink reads. *)
Record GstBuffer := mkBuffer {
  buf_size : Z;
  buf_timestamp : Z;
  buf_header : bool;
  buf_delta : bool
}.

Global Instance GstBuffer_eq_dec : EqDecision GstBuffer.
Proof. solve_decision. Defined.

Inductive GstTCPUnitType :=
  | GST_TCP_UNIT_TYPE_UNDEFINED
  | GST_TCP_UNIT_TYPE_BUFFERS
  | GST_TCP_UNIT_TYPE_TIME
  | GST_TCP_UNIT_TYPE_BYTES.

Global Instance GstTCPUnitType_eq_dec : EqDecision GstTCPUnitType.
Proof. solve_decision. Defined.

Inductive GstClientStatus :=
  | GST_CLIENT_STATUS_OK
  | GST_CLIENT_STATUS_CLOSED
  | GST_CLIENT_STATUS_REMOVED
  | GST_CLIENT_STATUS_SLOW
  | GST_CLIENT_STATUS_ERROR
  | GST_CLIENT_STATUS_DUPLICATE
  | GST_CLIENT_STATUS_FLUSHING.

Global Instance GstClientStatus_eq_dec : EqDecision GstClientStatus.
Proof. solve_decision. Defined.

Inductive GstSyncMethod :=
  | GST_SYNC_METHOD_LATEST
  | GST_SYNC_METHOD_NEXT_KEYFRAME
  | GST_SYNC_METHOD_LATEST_KEYFRAME
  | GST_SYNC_METHOD_BURST
  | GST_SYNC_METHOD_BURST_KEYFRAME
  | GST_SYNC_METHOD_BURST_WITH_KEYFRAME.

Global Instance GstSyncMethod_eq_dec : EqDecision GstSyncMethod.
Proof. solve_decision. Defined.

Inductive GstRecoverPolicy :=
  | GST_RECOVER_POLICY_NONE
  | GST_RECOVER_POLICY_RESYNC_LATEST
  | GST_RECOVER_POLICY_RESYNC_SOFT_LIMIT
  | GST_RECOVER_POLICY_RESYNC_KEYFRAME.

Global Instance GstRecoverPolicy_eq_dec : EqDecision GstRecoverPolicy.
Proof. solve_decision. Defined.

(** ** The buffer queue: [bufqueue], a GArray with index 0 the newest *)

(** [g_array_index]: reading outside the array is undefined in C and is
    [None] here. *)
Definition g_array_index (q : list GstBuffer) (i : Z) : option GstBuffer :=
  if i <? 0 then None else q !! Z.to_nat i.

(** [bufqueue->len] is a [guint]; the code stores it in a [gint]. *)
Definition queue_len (q : list GstBuffer) : Z := to_gint (Z.of_nat (length q)).

(** *** [get_buffers_max] *)

(** The loop of the [GST_TCP_UNIT_TYPE_TIME] case, from index [i] on
    ([rest] holds the buffers at [i], ..., [len - 1]); [None] when the loop
    ends without returning.  [diff] is a [gint64]. *)
Fixpoint get_buffers_max_time (rest : list GstBuffer) (i first max : Z) : option Z :=
  match rest with
  | [] => None
  | buf :: rest' =>
      if negb (buf_timestamp buf =? GST_CLOCK_TIME_NONE) then
        let first := if first =? GST_CLOCK_TIME_NONE then buf_timestamp buf else first in
        let diff := to_gint64 (first - buf_timestamp buf) in
        if max <? diff then Some (i + 1)
        else get_buffers_max_time rest' (i + 1) first max
      else get_buffers_max_time rest' (i + 1) first max
  end.

(** The loop of the [GST_TCP_UNIT_TYPE_BYTES] case; [acc] is a [gint]. *)
Fixpoint get_buffers_max_bytes (rest : list GstBuffer) (i acc max : Z) : option Z :=
  match rest with
  | [] => None
  | buf :: rest' =>
      let acc := to_gint (acc + buf_size buf) in
      if max <? acc then Some (i + 1)
      else get_buffers_max_bytes rest' (i + 1) acc max
  end.

(** [get_buffers_max (sink, max)]: [max] is a [gint64], the result a
    [gint]. *)
Definition get_buffers_max (unit_type : GstTCPUnitType) (q : list GstBuffer)
    (max : Z) : Z :=
  match unit_type with
  | GST_TCP_UNIT_TYPE_BUFFERS => to_gint max
  | GST_TCP_UNIT_TYPE_TIME =>
      let len := queue_len q in
      default (to_gint (len + 1))
        (get_buffers_max_time (take (Z.to_nat len) q) 0 GST_CLOCK_TIME_NONE max)
  | GST_TCP_UNIT_TYPE_BYTES =>
      let len := queue_len q in
      default (to_gint (len + 1))
        (get_buffers_max_bytes (take (Z.to_nat len) q) 0 0 max)
  | GST_TCP_UNIT_TYPE_UNDEFINED => to_gint max
  end.

(** *** [find_limits] *)

(** The result of [find_limits]: the two out-parameters and the returned
    boolean. *)
Record limits := mkLimits {
  min_idx : Z;
  max_idx : Z;
  satisfied : bool
}.

Global Instance limits_eq_dec : EqDecision limits.
Proof. solve_decision. Defined.

(** The mutable locals of the scanning loop of [find_limits]. *)
Record scan := mkScan {
  sc_i : Z;
  sc_bytes : Z;
  sc_first : Z;
  sc_bytes_min : Z;
  sc_time_min : Z;
  sc_min_idx : Z;
  sc_max_hit : bool
}.

(** The head of one iteration: "if we checked all min limits, update
    result". *)
Definition scan_check_min (s : scan) : Z :=
  if (sc_bytes_min s =? -1) && (sc_time_min s =? -1) && (sc_min_idx s =? -1)
  then MAX (sc_i s - 1) 0
  else sc_min_idx s.

(** The rest of one iteration, for a buffer [buf] at index [sc_i s]:
    account its bytes and timestamp, mark the limits that are reached,
    and increment [i].  [first - time] is a [guint64] and is compared with
    the [gint64] limits as an unsigned value. *)
Definition scan_account (bytes_max time_max : Z) (buf : GstBuffer) (s : scan)
    (min_idx : Z) : scan :=
  let bytes := to_gint (sc_bytes s + buf_size buf) in
  let time := buf_timestamp buf in
  let valid := negb (time =? GST_CLOCK_TIME_NONE) in
  let first :=
    if valid && (sc_first s =? GST_CLOCK_TIME_NONE) then time else sc_first s in
  let span := to_guint64 (first - time) in
  let time_min :=
    if valid && negb (sc_time_min s =? -1)
       && (to_guint64 (sc_time_min s) <=? span)
    then -1 else sc_time_min s in
  let max_hit :=
    if valid && negb (time_max =? -1) && (to_guint64 time_max <=? span)
    then true else sc_max_hit s in
  let bytes_min :=
    if negb (sc_bytes_min s =? -1) && (sc_bytes_min s <=? bytes)
    then -1 else sc_bytes_min s in
  let max_hit :=
    if negb (bytes_max =? -1) && (bytes_max <=? bytes) then true else max_hit in
  {| sc_i := sc_i s + 1; sc_bytes := bytes; sc_first := first;
     sc_bytes_min := bytes_min; sc_time_min := time_min;
     sc_min_idx := min_idx; sc_max_hit := max_hit |}.

(** The [do ... while (i < len)] loop.  [rest] holds the buffers from index
    [sc_i s] to [len - 1]; the loop is entered with [len > 0], so that the
    test at its end is the test [rest' = []] here.  The result is
    [( *min_idx, *max_idx, result)] when the loop is left. *)
Fixpoint find_limits_loop (bytes_max time_max : Z) (rest : list GstBuffer)
    (s : scan) : Z * Z * bool :=
  match rest with
  | [] => (sc_min_idx s, -1, false)
  | buf :: rest' =>
      let min_idx := scan_check_min s in
      if sc_max_hit s then
        (min_idx, sc_i s - 1, negb (min_idx =? -1))
      else
        find_limits_loop bytes_max time_max rest'
          (scan_account bytes_max time_max buf s min_idx)
  end.

(** [find_limits].  [None] is the failure of [g_assert (len > 0)].
    [buffers_max] is a parameter of the C function that its body never
    reads. *)
Definition find_limits (q : list GstBuffer)
    (bytes_min buffers_min time_min bytes_max buffers_max time_max : Z)
    : option limits :=
  let len := queue_len q in
  if negb (0 <? len) then None
  else if negb (buffers_min =? -1) && (len <? buffers_min) then
    Some (mkLimits (len - 1) (len - 1) false)
  else
    let '(min_idx, max_idx, result) :=
      find_limits_loop bytes_max time_max (take (Z.to_nat len) q)
        {| sc_i := 0; sc_bytes := 0; sc_first := GST_CLOCK_TIME_NONE;
           sc_bytes_min := bytes_min; sc_time_min := time_min;
           sc_min_idx := -1; sc_max_hit := false |} in
    let max_idx := if max_idx =? -1 then len - 1 else max_idx in
    let min_idx := if min_idx =? -1 then max_idx else min_idx in
    Some (mkLimits min_idx max_idx result).

(** *** [assign_value] and [count_burst_unit] *)

(** [assign_value]: sets the limit of the given unit among
    [(bytes, buffers, time)], with the casts of the C code, and leaves the
    others; the boolean is the returned value. *)
Definition assign_value (unit : GstTCPUnitType) (value : Z)
    (lims : Z * Z * Z) : bool * (Z * Z * Z) :=
  let '(bytes, buffers, time) := lims in
  match unit with
  | GST_TCP_UNIT_TYPE_BUFFERS => (true, (bytes, to_gint value, time))
  | GST_TCP_UNIT_TYPE_TIME => (true, (bytes, buffers, value))
  | GST_TCP_UNIT_TYPE_BYTES => (true, (to_gint value, buffers, time))
  | GST_TCP_UNIT_TYPE_UNDEFINED => (false, lims)
  end.

(** [count_burst_unit]: the [GstClockTime] limits are passed to the
    [gint64] parameters of [find_limits]. *)
Definition count_burst_unit (q : list GstBuffer)
    (min_unit : GstTCPUnitType) (min_value : Z)
    (max_unit : GstTCPUnitType) (max_value : Z) : option limits :=
  let '(bytes_min, buffers_min, time_min) :=
    snd (assign_value min_unit min_value (-1, -1, GST_CLOCK_TIME_NONE)) in
  let '(bytes_max, buffers_max, time_max) :=
    snd (assign_value max_unit max_value (-1, -1, GST_CLOCK_TIME_NONE)) in
  find_limits q bytes_min buffers_min (to_gint64 time_min)
    bytes_max buffers_max (to_gint64 time_max).

(** *** Sync frames *)

(** Modelled from the spec: [is_sync_frame] is declared outside this file;
    the spec's glossary defines a sync frame as a buffer not marked
    delta. *)
Definition is_sync_frame (buf : GstBuffer) : bool := negb (buf_delta buf).

(** Modelled from the spec: [find_next_syncframe] is declared outside this
    file; the nearest sync frame at an index not below [idx], scanning
    toward older buffers; -1 if there is none. *)
Fixpoint find_next_syncframe_from (rest : list GstBuffer) (i : Z) : Z :=
  match rest with
  | [] => -1
  | buf :: rest' =>
      if is_sync_frame buf then i else find_next_syncframe_from rest' (i + 1)
  end.

Definition find_next_syncframe (q : list GstBuffer) (idx : Z) : Z :=
  if idx <? 0 then -1
  else find_next_syncframe_from (drop (Z.to_nat idx) q) idx.

(** Modelled from the spec: [find_prev_syncframe] is declared outside this
    file; the nearest sync frame at an index not above [idx], scanning
    toward newer buffers; -1 if there is none.  [n] is the number of
    indices left to look at, the next one being [n - 1]. *)
Fixpoint find_prev_syncframe_from (q : list GstBuffer) (n : nat) : Z :=
  match n with
  | O => -1
  | S i =>
      match q !! i with
      | Some buf =>
          if is_sync_frame buf then Z.of_nat i
          else find_prev_syncframe_from q i
      | None => -1
      end
  end.

Definition find_prev_syncframe (q : list GstBuffer) (idx : Z) : Z :=
  if (idx <? 0) || (queue_len q <=? idx) then -1
  else find_prev_syncframe_from q (Z.to_nat (idx + 1)).

(** ** Clients *)

(** Caps, as far as the sink looks into them: an identity for
    [gst_caps_is_equal] and the "streamheader" field of the first
    structure, if it has one. *)
Record GstCaps := mkCaps {
  caps_format : Z;
  caps_streamheader : option (list GstBuffer)
}.

Global Instance GstCaps_eq_dec : EqDecision GstCaps.
Proof. solve_decision. Defined.

(** The per-client state of [GstMultiHandleClient].  [bufpos], [flushcount]
    and [bufoffset] are [gint]; the counters and times are [guint64]; a
    client without caps has [caps = None]. *)
Record GstMultiHandleClient := mkMhClient {
  status : GstClientStatus;
  sync_method : GstSyncMethod;
  bufpos : Z;
  flushcount : Z;
  bufoffset : Z;
  sending : list GstBuffer;
  caps : option GstCaps;
  new_connection : bool;
  discont : bool;
  currently_removing : bool;
  bytes_sent : Z;
  dropped_buffers : Z;
  connect_time : Z;
  disconnect_time : Z;
  last_activity_time : Z;
  first_buffer_ts : Z;
  last_buffer_ts : Z
}.

Definition set_status (v : GstClientStatus) (c : GstMultiHandleClient) : GstMultiHandleClient :=
  mkMhClient v (sync_method c) (bufpos c) (flushcount c) (bufoffset c)
    (sending c) (caps c) (new_connection c) (discont c)
    (currently_removing c) (bytes_sent c) (dropped_buffers c)
    (connect_time c) (disconnect_time c) (last_activity_time c)
    (first_buffer_ts c) (last_buffer_ts c).

Definition set_sync_method (v : GstSyncMethod) (c : GstMultiHandleClient) : GstMultiHandleClient :=
  mkMhClient (status c) v (bufpos c) (flushcount c) (bufoffset c)
    (sending c) (caps c) (new_connection c) (discont c)
    (currently_removing c) (bytes_sent c) (dropped_buffers c)
    (connect_time c) (disconnect_time c) (last_activity_time c)
    (first_buffer_ts c) (last_buffer_ts c).

Definition set_bufpos (v : Z) (c : GstMultiHandleClient) : GstMultiHandleClient :=
  mkMhClient (status c) (sync_method c) v (flushcount c) (bufoffset c)
    (sending c) (caps c) (new_connection c) (discont c)
    (currently_removing c) (bytes_sent c) (dropped_buffers c)
    (connect_time c) (disconnect_time c) (last_activity_time c)
    (first_buffer_ts c) (last_buffer_ts c).

Definition set_flushcount (v : Z) (c : GstMultiHandleClient) : GstMultiHandleClient :=
  mkMhClient (status c) (sync_method c) (bufpos c) v (bufoffset c)
    (sending c) (caps c) (new_connection c) (discont c)
    (currently_removing c) (bytes_sent c) (dropped_buffers c)
    (connect_time c) (disconnect_time c) (last_activity_time c)
    (first_buffer_ts c) (last_buffer_ts c).

Definition set_bufoffset (v : Z) (c : GstMultiHandleClient) : GstMultiHandleClient :=
  mkMhClient (status c) (sync_method c) (bufpos c) (flushcount c) v
    (sending c) (caps c) (new_connection c) (discont c)
    (currently_removing c) (bytes_sent c) (dropped_buffers c)
    (connect_time c) (disconnect_time c) (last_activity_time c)
    (first_buffer_ts c) (last_buffer_ts c).

Definition set_sending (v : list GstBuffer) (c : GstMultiHandleClient) : GstMultiHandleClient :=
  mkMhClient (status c) (sync_method c) (bufpos c) (flushcount c)
    (bufoffset c) v (caps c) (new_connection c) (discont c)
    (currently_removing c) (bytes_sent c) (dropped_buffers c)
    (connect_time c) (disconnect_time c) (last_activity_time c)
    (first_buffer_ts c) (last_buffer_ts c).

Definition set_caps (v : option GstCaps) (c : GstMultiHandleClient) : GstMultiHandleClient :=
  mkMhClient (status c) (sync_method c) (bufpos c) (flushcount c)
    (bufoffset c) (sending c) v (new_connection c) (discont c)
    (currently_removing c) (bytes_sent c) (dropped_buffers c)
    (connect_time c) (disconnect_time c) (last_activity_time c)
    (first_buffer_ts c) (last_buffer_ts c).

Definition set_new_connection (v : bool) (c : GstMultiHandleClient) : GstMultiHandleClient :=
  mkMhClient (status c) (sync_method c) (bufpos c) (flushcount c)
    (bufoffset c) (sending c) (caps c) v (discont c) (currently_removing c)
    (bytes_sent c) (dropped_buffers c) (connect_time c) (disconnect_time c)
    (last_activity_time c) (first_buffer_ts c) (last_buffer_ts c).

Definition set_discont (v : bool) (c : GstMultiHandleClient) : GstMultiHandleClient :=
  mkMhClient (status c) (sync_method c) (bufpos c) (flushcount c)
    (bufoffset c) (sending c) (caps c) (new_connection c) v
    (currently_removing c) (bytes_sent c) (dropped_buffers c)
    (connect_time c) (disconnect_time c) (last_activity_time c)
    (first_buffer_ts c) (last_buffer_ts c).

Definition set_currently_removing (v : bool) (c : GstMultiHandleClient) : GstMultiHandleClient :=
  mkMhClient (status c) (sync_method c) (bufpos c) (flushcount c)
    (bufoffset c) (sending c) (caps c) (new_connection c) (discont c) v
    (bytes_sent c) (dropped_buffers c) (connect_time c) (disconnect_time c)
    (last_activity_time c) (first_buffer_ts c) (last_buffer_ts c).

Definition set_bytes_sent (v : Z) (c : GstMultiHandleClient) : GstMultiHandleClient :=
  mkMhClient (status c) (sync_method c) (bufpos c) (flushcount c)
    (bufoffset c) (sending c) (caps c) (new_connection c) (discont c)
    (currently_removing c) v (dropped_buffers c) (connect_time c)
    (disconnect_time c) (last_activity_time c) (first_buffer_ts c)
    (last_buffer_ts c).

Definition set_dropped_buffers (v : Z) (c : GstMultiHandleClient) : GstMultiHandleClient :=
  mkMhClient (status c) (sync_method c) (bufpos c) (flushcount c)
    (bufoffset c) (sending c) (caps c) (new_connection c) (discont c)
    (currently_removing c) (bytes_sent c) v (connect_time c)
    (disconnect_time c) (last_activity_time c) (first_buffer_ts c)
    (last_buffer_ts c).

Definition set_disconnect_time (v : Z) (c : GstMultiHandleClient) : GstMultiHandleClient :=
  mkMhClient (status c) (sync_method c) (bufpos c) (flushcount c)
    (bufoffset c) (sending c) (caps c) (new_connection c) (discont c)
    (currently_removing c) (bytes_sent c) (dropped_buffers c)
    (connect_time c) v (last_activity_time c) (first_buffer_ts c)
    (last_buffer_ts c).

Definition set_last_activity_time (v : Z) (c : GstMultiHandleClient) : GstMultiHandleClient :=
  mkMhClient (status c) (sync_method c) (bufpos c) (flushcount c)
    (bufoffset c) (sending c) (caps c) (new_connection c) (discont c)
    (currently_removing c) (bytes_sent c) (dropped_buffers c)
    (connect_time c) (disconnect_time c) v (first_buffer_ts c)
    (last_buffer_ts c).

Definition set_first_buffer_ts (v : Z) (c : GstMultiHandleClient) : GstMultiHandleClient :=
  mkMhClient (status c) (sync_method c) (bufpos c) (flushcount c)
    (bufoffset c) (sending c) (caps c) (new_connection c) (discont c)
    (currently_removing c) (bytes_sent c) (dropped_buffers c)
    (connect_time c) (disconnect_time c) (last_activity_time c) v
    (last_buffer_ts c).

Definition set_last_buffer_ts (v : Z) (c : GstMultiHandleClient) : GstMultiHandleClient :=
  mkMhClient (status c) (sync_method c) (bufpos c) (flushcount c)
    (bufoffset c) (sending c) (caps c) (new_connection c) (discont c)
    (currently_removing c) (bytes_sent c) (dropped_buffers c)
    (connect_time c) (disconnect_time c) (last_activity_time c)
    (first_buffer_ts c) v.

(** [GstTCPClient]: the [GstMultiHandleClient] it starts with, the
    descriptor of its [GstPollFD], and the burst parameters ([guint64]
    values). *)
Record GstTCPClient := mkClient {
  mh : GstMultiHandleClient;
  fd : Z;
  is_socket : bool;
  burst_min_unit : GstTCPUnitType;
  burst_min_value : Z;
  burst_max_unit : GstTCPUnitType;
  burst_max_value : Z
}.

Definition set_mh (v : GstMultiHandleClient) (c : GstTCPClient) : GstTCPClient :=
  mkClient v (fd c) (is_socket c) (burst_min_unit c) (burst_min_value c)
    (burst_max_unit c) (burst_max_value c).

Definition set_is_socket (v : bool) (c : GstTCPClient) : GstTCPClient :=
  mkClient (mh c) (fd c) v (burst_min_unit c) (burst_min_value c)
    (burst_max_unit c) (burst_max_value c).

(** Apply [f] to the [GstMultiHandleClient] part of a client. *)
Definition on_mh (f : GstMultiHandleClient → GstMultiHandleClient)
    (c : GstTCPClient) : GstTCPClient :=
  set_mh (f (mh c)) c.

(** Modelled from the spec: [gst_multi_handle_sink_client_init] is
    declared outside this file; a new client is OK, waiting ([bufpos] -1),
    not flushing ([flushcount] -1), a new connection with nothing to send,
    no caps and no buffer seen, connected and last active [now]. *)
Definition gst_multi_handle_sink_client_init (sync : GstSyncMethod) (now : Z)
    : GstMultiHandleClient :=
  {| status := GST_CLIENT_STATUS_OK; sync_method := sync; bufpos := -1;
     flushcount := -1; bufoffset := 0; sending := []; caps := None;
     new_connection := true; discont := false; currently_removing := false;
     bytes_sent := 0; dropped_buffers := 0; connect_time := now;
     disconnect_time := 0; last_activity_time := now;
     first_buffer_ts := GST_CLOCK_TIME_NONE;
     last_buffer_ts := GST_CLOCK_TIME_NONE |}.

(** ** The sink *)

(** A pointer to a client structure. *)
Definition loc := positive.

(** The interest registered for a descriptor of the poll set. *)
Record GstPollFD := mkPollFD {
  want_read : bool;
  want_write : bool
}.

Inductive SockOption := IP_TOS | IPV6_TCLASS.

(** What the sink emits and asks of the system. *)
Inductive Event :=
  | SIGNAL_CLIENT_ADDED (fdn : Z)
  | SIGNAL_CLIENT_REMOVED (fdn : Z) (st : GstClientStatus)
  | SIGNAL_CLIENT_FD_REMOVED (fdn : Z)
  | SetNonBlocking (fdn : Z)
  | SetSockOpt (fdn : Z) (opt : SockOption) (tos : Z)
  | PollRestart.

(** The properties of the sink, which the code below reads only. *)
Record SinkProps := mkProps {
  unit_type : GstTCPUnitType;
  units_max : Z;
  units_soft_max : Z;
  recover_policy : GstRecoverPolicy;
  timeout : Z;
  def_sync_method : GstSyncMethod;
  def_burst_unit : GstTCPUnitType;
  def_burst_value : Z;
  bytes_min : Z;
  buffers_min : Z;
  time_min : Z;
  qos_dscp : Z;
  handle_read : bool;
  resend_streamheader : bool
}.

(** The sink: [GstMultiFdSink] and the [GstMultiHandleSink] it extends.
    [store] holds the client structures, [clients] is the GList of
    pointers to them and [fd_hash] maps a descriptor to the link of its
    client; [trace] records what the sink emits and asks of the system,
    oldest first. *)
Record GstMultiFdSink := mkSink {
  props : SinkProps;
  sink_open : bool;
  bufqueue : list GstBuffer;
  clients : list loc;
  store : gmap loc GstTCPClient;
  fd_hash : gmap Z loc;
  clients_cookie : Z;
  fdset : gmap Z GstPollFD;
  streamheader : list GstBuffer;
  previous_buffer_in_caps : bool;
  pad_caps : GstCaps;
  buffers_queued : Z;
  bytes_to_serve : Z;
  bytes_served : Z;
  trace : list Event
}.

Definition set_bufqueue (v : list GstBuffer) (s : GstMultiFdSink) : GstMultiFdSink :=
  mkSink (props s) (sink_open s) v (clients s) (store s) (fd_hash s)
    (clients_cookie s) (fdset s) (streamheader s)
    (previous_buffer_in_caps s) (pad_caps s) (buffers_queued s)
    (bytes_to_serve s) (bytes_served s) (trace s).

Definition set_clients (v : list loc) (s : GstMultiFdSink) : GstMultiFdSink :=
  mkSink (props s) (sink_open s) (bufqueue s) v (store s) (fd_hash s)
    (clients_cookie s) (fdset s) (streamheader s)
    (previous_buffer_in_caps s) (pad_caps s) (buffers_queued s)
    (bytes_to_serve s) (bytes_served s) (trace s).

Definition set_store (v : gmap loc GstTCPClient) (s : GstMultiFdSink) : GstMultiFdSink :=
  mkSink (props s) (sink_open s) (bufqueue s) (clients s) v (fd_hash s)
    (clients_cookie s) (fdset s) (streamheader s)
    (previous_buffer_in_caps s) (pad_caps s) (buffers_queued s)
    (bytes_to_serve s) (bytes_served s) (trace s).

Definition set_fd_hash (v : gmap Z loc) (s : GstMultiFdSink) : GstMultiFdSink :=
  mkSink (props s) (sink_open s) (bufqueue s) (clients s) (store s) v
    (clients_cookie s) (fdset s) (streamheader s)
    (previous_buffer_in_caps s) (pad_caps s) (buffers_queued s)
    (bytes_to_serve s) (bytes_served s) (trace s).

Definition set_clients_cookie (v : Z) (s : GstMultiFdSink) : GstMultiFdSink :=
  mkSink (props s) (sink_open s) (bufqueue s) (clients s) (store s)
    (fd_hash s) v (fdset s) (streamheader s) (previous_buffer_in_caps s)
    (pad_caps s) (buffers_queued s) (bytes_to_serve s) (bytes_served s)
    (trace s).

Definition set_fdset (v : gmap Z GstPollFD) (s : GstMultiFdSink) : GstMultiFdSink :=
  mkSink (props s) (sink_open s) (bufqueue s) (clients s) (store s)
    (fd_hash s) (clients_cookie s) v (streamheader s)
    (previous_buffer_in_caps s) (pad_caps s) (buffers_queued s)
    (bytes_to_serve s) (bytes_served s) (trace s).

Definition set_streamheader (v : list GstBuffer) (s : GstMultiFdSink) : GstMultiFdSink :=
  mkSink (props s) (sink_open s) (bufqueue s) (clients s) (store s)
    (fd_hash s) (clients_cookie s) (fdset s) v (previous_buffer_in_caps s)
    (pad_caps s) (buffers_queued s) (bytes_to_serve s) (bytes_served s)
    (trace s).

Definition set_previous_buffer_in_caps (v : bool) (s : GstMultiFdSink) : GstMultiFdSink :=
  mkSink (props s) (sink_open s) (bufqueue s) (clients s) (store s)
    (fd_hash s) (clients_cookie s) (fdset s) (streamheader s) v
    (pad_caps s) (buffers_queued s) (bytes_to_serve s) (bytes_served s)
    (trace s).

Definition set_buffers_queued (v : Z) (s : GstMultiFdSink) : GstMultiFdSink :=
  mkSink (props s) (sink_open s) (bufqueue s) (clients s) (store s)
    (fd_hash s) (clients_cookie s) (fdset s) (streamheader s)
    (previous_buffer_in_caps s) (pad_caps s) v (bytes_to_serve s)
    (bytes_served s) (trace s).

Definition set_bytes_to_serve (v : Z) (s : GstMultiFdSink) : GstMultiFdSink :=
  mkSink (props s) (sink_open s) (bufqueue s) (clients s) (store s)
    (fd_hash s) (clients_cookie s) (fdset s) (streamheader s)
    (previous_buffer_in_caps s) (pad_caps s) (buffers_queued s) v
    (bytes_served s) (trace s).

Definition set_bytes_served (v : Z) (s : GstMultiFdSink) : GstMultiFdSink :=
  mkSink (props s) (sink_open s) (bufqueue s) (clients s) (store s)
    (fd_hash s) (clients_cookie s) (fdset s) (streamheader s)
    (previous_buffer_in_caps s) (pad_caps s) (buffers_queued s)
    (bytes_to_serve s) v (trace s).

Definition set_trace (v : list Event) (s : GstMultiFdSink) : GstMultiFdSink :=
  mkSink (props s) (sink_open s) (bufqueue s) (clients s) (store s)
    (fd_hash s) (clients_cookie s) (fdset s) (streamheader s)
    (previous_buffer_in_caps s) (pad_caps s) (buffers_queued s)
    (bytes_to_serve s) (bytes_served s) v.

Definition emit (e : Event) (s : GstMultiFdSink) : GstMultiFdSink :=
  set_trace (trace s ++ [e]) s.

(** Write the client structure at [l]. *)
Definition update_client (l : loc) (c : GstTCPClient) (s : GstMultiFdSink)
    : GstMultiFdSink :=
  set_store (<[l := c]> (store s)) s.

(** *** The poll set *)

Definition gst_poll_add_fd (fdn : Z) (s : GstMultiFdSink) : GstMultiFdSink :=
  set_fdset (<[fdn := mkPollFD false false]> (fdset s)) s.

Definition gst_poll_remove_fd (fdn : Z) (s : GstMultiFdSink) : GstMultiFdSink :=
  set_fdset (delete fdn (fdset s)) s.

Definition gst_poll_fd_ctl_read (fdn : Z) (active : bool) (s : GstMultiFdSink)
    : GstMultiFdSink :=
  set_fdset (alter (λ p, mkPollFD active (want_write p)) fdn (fdset s)) s.

Definition gst_poll_fd_ctl_write (fdn : Z) (active : bool) (s : GstMultiFdSink)
    : GstMultiFdSink :=
  set_fdset (alter (λ p, mkPollFD (want_read p) active) fdn (fdset s)) s.

Definition gst_poll_restart (s : GstMultiFdSink) : GstMultiFdSink :=
  emit PollRestart s.

(** ** The sync policy: [gst_multi_fd_sink_new_client] *)

(** The start chosen from the burst limits when no keyframe decides:
    "we hit the max and it is below the min, use that then". *)
Definition burst_start (lim : limits) : Z :=
  if negb (max_idx lim =? -1) && (max_idx lim <=? min_idx lim)
  then MAX (max_idx lim - 1) 0
  else min_idx lim.

(** [gst_multi_fd_sink_new_client]: the position to start from (-1: not
    yet) and the client, whose [bufpos] and [sync_method] some cases
    change.  [None] is the failed assertion of [find_limits]. *)
Definition gst_multi_fd_sink_new_client (q : list GstBuffer)
    (c : GstTCPClient) : option (Z * GstTCPClient) :=
  match sync_method (mh c) with
  | GST_SYNC_METHOD_LATEST => Some (bufpos (mh c), c)
  | GST_SYNC_METHOD_NEXT_KEYFRAME =>
      let result := find_prev_syncframe q (bufpos (mh c)) in
      if negb (result =? -1) then Some (result, c)
      else Some (result, on_mh (set_bufpos (-1)) c)
  | GST_SYNC_METHOD_LATEST_KEYFRAME =>
      let result := find_next_syncframe q 0 in
      if negb (result =? -1) then Some (result, c)
      else
        Some (result,
              on_mh (set_sync_method GST_SYNC_METHOD_NEXT_KEYFRAME)
                (on_mh (set_bufpos (-1)) c))
  | GST_SYNC_METHOD_BURST =>
      lim ← count_burst_unit q (burst_min_unit c) (burst_min_value c)
               (burst_max_unit c) (burst_max_value c);
      Some (burst_start lim, c)
  | GST_SYNC_METHOD_BURST_KEYFRAME =>
      lim ← count_burst_unit q (burst_min_unit c) (burst_min_value c)
               (burst_max_unit c) (burst_max_value c);
      let next_syncframe := find_next_syncframe q (min_idx lim) in
      if negb (next_syncframe =? -1) && (next_syncframe <? max_idx lim)
      then Some (next_syncframe, c)
      else
        let prev_syncframe := find_prev_syncframe q (min_idx lim) in
        if negb (prev_syncframe =? -1) then Some (prev_syncframe, c)
        else
          Some (-1,
                on_mh (set_sync_method GST_SYNC_METHOD_NEXT_KEYFRAME)
                  (on_mh (set_bufpos (-1)) c))
  | GST_SYNC_METHOD_BURST_WITH_KEYFRAME =>
      lim ← count_burst_unit q (burst_min_unit c) (burst_min_value c)
               (burst_max_unit c) (burst_max_value c);
      let next_syncframe := find_next_syncframe q (min_idx lim) in
      if negb (next_syncframe =? -1) && (next_syncframe <? max_idx lim)
      then Some (next_syncframe, c)
      else Some (burst_start lim, c)
  end.

(** ** The recover policy: [gst_multi_fd_sink_recover_client] *)

(** The [while (newbufpos >= 0)] loop of the keyframe policy, with
    [newbufpos = n - 1]: the position of the first sync frame met going
    down to 0, or -1 when the loop ends at [newbufpos = -1].  [None] is a
    read outside the queue. *)
Fixpoint resync_keyframe_scan (q : list GstBuffer) (n : nat) : option Z :=
  match n with
  | O => Some (-1)
  | S i =>
      match q !! i with
      | None => None
      | Some buf =>
          if is_sync_frame buf then Some (Z.of_nat i)
          else resync_keyframe_scan q i
      end
  end.

(** Where the keyframe policy starts to scan:
    [MIN (bufqueue->len - 1, get_buffers_max (...) - 1)].  The first
    operand is a [guint], so that the comparison is unsigned; the result is
    stored in the [gint newbufpos]. *)
Definition resync_keyframe_start (p : SinkProps) (q : list GstBuffer) : Z :=
  to_gint
    (MIN (to_guint (Z.of_nat (length q) - 1))
         (to_guint (to_gint (get_buffers_max (unit_type p) q (units_soft_max p) - 1)))).

Definition gst_multi_fd_sink_recover_client (p : SinkProps)
    (q : list GstBuffer) (c : GstTCPClient) : option Z :=
  match recover_policy p with
  | GST_RECOVER_POLICY_NONE => Some (bufpos (mh c))
  | GST_RECOVER_POLICY_RESYNC_LATEST => Some (-1)
  | GST_RECOVER_POLICY_RESYNC_SOFT_LIMIT =>
      Some (get_buffers_max (unit_type p) q (units_soft_max p))
  | GST_RECOVER_POLICY_RESYNC_KEYFRAME =>
      let newbufpos := resync_keyframe_start p q in
      if newbufpos <? 0 then Some newbufpos
      else resync_keyframe_scan q (Z.to_nat (newbufpos + 1))
  end.

(** ** The client table *)

(** [g_list_remove]: removes the first link that holds [l]. *)
Fixpoint g_list_remove (ls : list loc) (l : loc) : list loc :=
  match ls with
  | [] => []
  | x :: ls' => if decide (x = l) then ls' else x :: g_list_remove ls' l
  end.

(** [gst_multi_fd_sink_remove_client_link], for the link that holds the
    client at [l]; [now] is the time it reads.  The clients lock is
    released around the two signals; what other threads and the signal
    handlers do meanwhile is outside this model.  [None]: no client
    structure at [l]. *)
Definition gst_multi_fd_sink_remove_client_link (now : Z) (l : loc)
    (s : GstMultiFdSink) : option GstMultiFdSink :=
  c ← store s !! l;
  if currently_removing (mh c) then Some s
  else
    let c := on_mh (set_currently_removing true) c in
    let s := gst_poll_remove_fd (fd c) s in
    let c := on_mh (set_disconnect_time now) c in
    let c := on_mh (set_sending []) c in
    let c := on_mh (set_caps None) c in
    let s := update_client l c s in
    let s := emit (SIGNAL_CLIENT_REMOVED (fd c) (status (mh c))) s in
    let s := set_fd_hash (delete (fd c) (fd_hash s)) s in
    let s := set_clients (g_list_remove (clients s) l) s in
    let s := set_clients_cookie (to_guint (clients_cookie s + 1)) s in
    let s := set_store (delete l (store s)) s in
    Some (emit (SIGNAL_CLIENT_FD_REMOVED (fd c)) s).

Inductive AddressFamily :=
  | AF_INET
  | AF_INET6 (v4mapped : bool)
  | AF_OTHER.

(** What the system answers to the calls of [add_full] on the new
    descriptor: the time, whether its access mode is [O_WRONLY], whether
    [fstat] finds a socket, and the family [getsockname] gives ([None]
    when it fails). *)
Record AddEnv := mkAddEnv {
  env_now : Z;
  env_wronly : bool;
  env_is_sock : bool;
  env_sockname : option AddressFamily
}.

(** [setup_dscp_client]: the socket option it sets, if any. *)
Definition setup_dscp_client (p : SinkProps) (fdn : Z)
    (sa : option AddressFamily) (s : GstMultiFdSink) : GstMultiFdSink :=
  if qos_dscp p <? 0 then s
  else
    match sa with
    | None => s
    | Some af =>
        let tos := Z.shiftl (Z.land (qos_dscp p) 63) 2 in
        match af with
        | AF_INET | AF_INET6 true => emit (SetSockOpt fdn IP_TOS tos) s
        | AF_INET6 false => emit (SetSockOpt fdn IPV6_TCLASS tos) s
        | AF_OTHER => s
        end
    end.

(** The limits check of [add_full]; the values are [guint64] and [-1] is
    [G_MAXUINT64] there. *)
Definition wrong_limits (min_unit : GstTCPUnitType) (min_value : Z)
    (max_unit : GstTCPUnitType) (max_value : Z) : bool :=
  bool_decide (min_unit = max_unit)
  && negb (max_value =? to_guint64 (-1))
  && negb (min_value =? to_guint64 (-1))
  && (max_value <? min_value).

(** [gst_multi_fd_sink_add_full].  The client structure is allocated at a
    location not in use; the duplicate path sets its status, emits the
    signal with it and frees it. *)
Definition gst_multi_fd_sink_add_full (env : AddEnv) (fdn : Z)
    (sync : GstSyncMethod) (min_unit : GstTCPUnitType) (min_value : Z)
    (max_unit : GstTCPUnitType) (max_value : Z) (s : GstMultiFdSink)
    : GstMultiFdSink :=
  if wrong_limits min_unit min_value max_unit max_value then s
  else
    let l : loc := fresh (dom (store s)) in
    let c :=
      {| mh := gst_multi_handle_sink_client_init sync (env_now env);
         fd := fdn; is_socket := false;
         burst_min_unit := min_unit; burst_min_value := min_value;
         burst_max_unit := max_unit; burst_max_value := max_value |} in
    let s := update_client l c s in
    match fd_hash s !! fdn with
    | Some clink =>
        let c := on_mh (set_status GST_CLIENT_STATUS_DUPLICATE) c in
        let s := update_client l c s in
        let s := emit (SIGNAL_CLIENT_REMOVED fdn (status (mh c))) s in
        set_store (delete l (store s)) s
    | None =>
        let s := set_clients (l :: clients s) s in
        let s := set_fd_hash (<[fdn := l]> (fd_hash s)) s in
        let s := set_clients_cookie (to_guint (clients_cookie s + 1)) s in
        let s := emit (SetNonBlocking fdn) s in
        let s := gst_poll_add_fd fdn s in
        let s :=
          if handle_read (props s) && negb (env_wronly env)
          then gst_poll_fd_ctl_read fdn true s else s in
        let s :=
          if env_is_sock env then
            setup_dscp_client (props s) fdn (env_sockname env)
              (update_client l (set_is_socket true c) s)
          else s in
        let s := gst_poll_restart s in
        emit (SIGNAL_CLIENT_ADDED fdn) s
    end.

(** [gst_multi_fd_sink_add]. *)
Definition gst_multi_fd_sink_add (env : AddEnv) (fdn : Z) (s : GstMultiFdSink)
    : GstMultiFdSink :=
  gst_multi_fd_sink_add_full env fdn (def_sync_method (props s))
    (def_burst_unit (props s)) (def_burst_value (props s))
    (def_burst_unit (props s)) (to_guint64 (-1)) s.

(** [gst_multi_fd_sink_remove].  [None]: the hash names a link without
    client structure. *)
Definition gst_multi_fd_sink_remove (now : Z) (fdn : Z) (s : GstMultiFdSink)
    : option GstMultiFdSink :=
  match fd_hash s !! fdn with
  | Some clink =>
      c ← store s !! clink;
      if negb (bool_decide (status (mh c) = GST_CLIENT_STATUS_OK)) then Some s
      else
        let s :=
          update_client clink (on_mh (set_status GST_CLIENT_STATUS_REMOVED) c) s in
        s ← gst_multi_fd_sink_remove_client_link now clink s;
        Some (gst_poll_restart s)
  | None => Some s
  end.

(** [gst_multi_fd_sink_remove_flush]. *)
Definition gst_multi_fd_sink_remove_flush (fdn : Z) (s : GstMultiFdSink)
    : option GstMultiFdSink :=
  match fd_hash s !! fdn with
  | Some clink =>
      c ← store s !! clink;
      if negb (bool_decide (status (mh c) = GST_CLIENT_STATUS_OK)) then Some s
      else
        let c := on_mh (set_flushcount (to_gint (bufpos (mh c) + 1))) c in
        let c := on_mh (set_status GST_CLIENT_STATUS_FLUSHING) c in
        Some (update_client clink c s)
  | None => Some s
  end.

(** ** The I/O loop: reading from a client *)

(** The [do ... while (avail > 0)] loop of
    [gst_multi_fd_sink_handle_client_read].  [reads] holds the values the
    successive calls of [read] return; the result is the status to set,
    if any, and [ret].  [None]: the loop asks for more reads than [reads]
    holds. *)
Fixpoint read_and_drop (reads : list Z) (avail : Z)
    : option (option GstClientStatus * bool) :=
  match reads with
  | [] => None
  | nread :: reads' =>
      let to_read := MIN avail 512 in
      if nread <? -1 then Some (Some GST_CLIENT_STATUS_ERROR, false)
      else if nread =? 0 then Some (Some GST_CLIENT_STATUS_ERROR, false)
      else
        let avail := to_gint (avail - nread) in
        if 0 <? avail then read_and_drop reads' avail
        else Some (None, true)
  end.

(** [gst_multi_fd_sink_handle_client_read]: [ioctl_ret] and [avail] are
    what [ioctl (fd, FIONREAD, &avail)] returns and stores. *)
Definition gst_multi_fd_sink_handle_client_read (ioctl_ret avail : Z)
    (reads : list Z) (c : GstTCPClient) : option (bool * GstTCPClient) :=
  if ioctl_ret <? 0 then
    Some (false, on_mh (set_status GST_CLIENT_STATUS_ERROR) c)
  else if avail =? 0 then
    Some (false, on_mh (set_status GST_CLIENT_STATUS_CLOSED) c)
  else if avail <? 0 then
    Some (false, on_mh (set_status GST_CLIENT_STATUS_ERROR) c)
  else
    '(st, ret) ← read_and_drop reads avail;
    match st with
    | Some st => Some (ret, on_mh (set_status st) c)
    | None => Some (ret, c)
    end.

(** ** The I/O loop: writing to a client *)

(** [gst_multi_fd_sink_client_queue_buffer]: the stream-header gate, then
    the buffer is appended to [sending]. *)
Definition gst_multi_fd_sink_client_queue_buffer (s : GstMultiFdSink)
    (buffer : GstBuffer) (c : GstTCPClient) : GstTCPClient :=
  let new_caps := pad_caps s in
  let send_streamheader :=
    match caps (mh c) with
    | None => true
    | Some old =>
        if negb (bool_decide (new_caps = old)) then
          match caps_streamheader new_caps with
          | None => false
          | Some sh2 =>
              match caps_streamheader old with
              | None => true
              | Some sh1 =>
                  if negb (resend_streamheader (props s)) then false
                  else negb (bool_decide (sh1 = sh2))
              end
          end
        else false
    end in
  let c := on_mh (set_caps (Some new_caps)) c in
  let c :=
    if send_streamheader then
      match caps_streamheader new_caps with
      | None => c
      | Some buffers => on_mh (set_sending (sending (mh c) ++ buffers)) c
      end
    else c in
  on_mh (set_sending (sending (mh c) ++ [buffer])) c.

Inductive Errno := EAGAIN | ECONNRESET | EOTHER.

(** What one call of [send] or [write] returns, and [errno] after it. *)
Record WriteResult := mkWrite {
  wrote : Z;
  write_errno : Errno
}.

(** How the first half of an iteration of the write loop ends. *)
Inductive Picked :=
  | PickReturn (ret : bool)
  | PickGoOn.

(** The first half of an iteration of the loop of
    [gst_multi_fd_sink_handle_client_write]: with nothing in [sending],
    pick a buffer from the global queue.  [None]: a failed assertion or a
    read outside the queue. *)
Definition pick_buffer (flushing : bool) (s : GstMultiFdSink)
    (c : GstTCPClient) : option (Picked * GstMultiFdSink * GstTCPClient) :=
  match sending (mh c) with
  | _ :: _ => Some (PickGoOn, s, c)
  | [] =>
      if bufpos (mh c) =? -1 then
        let s := gst_poll_fd_ctl_write (fd c) false s in
        if flushcount (mh c) =? 0 then
          Some (PickReturn false, s,
                on_mh (set_status GST_CLIENT_STATUS_REMOVED) c)
        else Some (PickReturn true, s, c)
      else
        placed ←
          (if new_connection (mh c) && negb flushing then
             '(position, c) ← gst_multi_fd_sink_new_client (bufqueue s) c;
             if 0 <=? position then
               Some (inl (on_mh (set_bufpos position)
                            (on_mh (set_new_connection false) c)))
             else Some (inr c)
           else Some (inl c));
        match placed with
        | inr c => Some (PickReturn true, gst_poll_fd_ctl_write (fd c) false s, c)
        | inl c =>
            if flushcount (mh c) =? 0 then
              Some (PickReturn false, s,
                    on_mh (set_status GST_CLIENT_STATUS_REMOVED) c)
            else
              buf ← g_array_index (bufqueue s) (bufpos (mh c));
              let c := on_mh (set_bufpos (to_gint (bufpos (mh c) - 1))) c in
              let timestamp := buf_timestamp buf in
              let c :=
                if first_buffer_ts (mh c) =? GST_CLOCK_TIME_NONE
                then on_mh (set_first_buffer_ts timestamp) c else c in
              let c :=
                if negb (timestamp =? GST_CLOCK_TIME_NONE)
                then on_mh (set_last_buffer_ts timestamp) c else c in
              let c :=
                if negb (flushcount (mh c) =? -1)
                then on_mh (set_flushcount (to_gint (flushcount (mh c) - 1))) c
                else c in
              let c := gst_multi_fd_sink_client_queue_buffer s buf c in
              Some (PickGoOn, s, on_mh (set_bufoffset 0) c)
        end
  end.

(** The loop of [gst_multi_fd_sink_handle_client_write].  [writes] holds
    what the successive calls of [send] or [write] return.  [None]: no
    result of [pick_buffer], or the loop asks for more writes than
    [writes] holds. *)
Fixpoint handle_client_write_loop (flushing : bool) (now : Z)
    (writes : list WriteResult) (s : GstMultiFdSink) (c : GstTCPClient)
    : option (bool * GstMultiFdSink * GstTCPClient) :=
  '(picked, s, c) ← pick_buffer flushing s c;
  match picked with
  | PickReturn ret => Some (ret, s, c)
  | PickGoOn =>
      match sending (mh c), writes with
      | [], _ => None
      | _ :: _, [] => None
      | head :: tail, w :: writes' =>
          let maxsize := to_gint (buf_size head - bufoffset (mh c)) in
          if wrote w <? 0 then
            match write_errno w with
            | EAGAIN => Some (true, s, c)
            | ECONNRESET =>
                Some (false, s, on_mh (set_status GST_CLIENT_STATUS_CLOSED) c)
            | EOTHER =>
                Some (false, s, on_mh (set_status GST_CLIENT_STATUS_ERROR) c)
            end
          else
            let partial := wrote w <? maxsize in
            let c :=
              if partial
              then on_mh (set_bufoffset (to_gint (bufoffset (mh c) + wrote w))) c
              else on_mh (set_bufoffset 0) (on_mh (set_sending tail) c) in
            let c := on_mh (set_bytes_sent (to_guint64 (bytes_sent (mh c) + wrote w))) c in
            let c := on_mh (set_last_activity_time now) c in
            let s := set_bytes_served (to_guint64 (bytes_served s + wrote w)) s in
            if partial then Some (true, s, c)
            else handle_client_write_loop flushing now writes' s c
      end
  end.

(** [gst_multi_fd_sink_handle_client_write]. *)
Definition gst_multi_fd_sink_handle_client_write (now : Z)
    (writes : list WriteResult) (s : GstMultiFdSink) (c : GstTCPClient)
    : option (bool * GstMultiFdSink * GstTCPClient) :=
  let flushing := bool_decide (status (mh c) = GST_CLIENT_STATUS_FLUSHING) in
  handle_client_write_loop flushing now writes s c.

(** ** The producer path *)

(** The locals that the client loop of [gst_multi_fd_sink_queue_buffer]
    updates, with the sink. *)
Record walk := mkWalk {
  w_sink : GstMultiFdSink;
  w_need_signal : bool;
  w_max_buffer_usage : Z
}.

(** The body of the client loop for the client at [l]: move its position,
    recover it past the soft maximum, remove it past the hard maximum or
    the timeout. *)
Definition queue_buffer_client (now max_buffers soft_max_buffers : Z)
    (l : loc) (w : walk) : option walk :=
  let s := w_sink w in
  c ← store s !! l;
  let c := on_mh (set_bufpos (to_gint (bufpos (mh c) + 1))) c in
  c ← (if (0 <? soft_max_buffers) && (soft_max_buffers <=? bufpos (mh c)) then
         newpos ← gst_multi_fd_sink_recover_client (props s) (bufqueue s) c;
         if negb (newpos =? bufpos (mh c)) then
           let c :=
             on_mh (set_dropped_buffers
                      (to_guint64 (dropped_buffers (mh c)
                                   + to_gint (bufpos (mh c) - newpos)))) c in
           Some (on_mh (set_discont true) (on_mh (set_bufpos newpos) c))
         else Some c
       else Some c);
  if (0 <? max_buffers) && (max_buffers <=? bufpos (mh c))
     || (0 <? timeout (props s))
        && (timeout (props s) <? to_guint64 (now - last_activity_time (mh c)))
  then
    let c := on_mh (set_status GST_CLIENT_STATUS_SLOW) c in
    let c := on_mh (set_bufpos (-1)) c in
    s ← gst_multi_fd_sink_remove_client_link now l (update_client l c s);
    Some (mkWalk s true (w_max_buffer_usage w))
  else
    let s := update_client l c s in
    let '(s, need_signal) :=
      if (bufpos (mh c) =? 0) || new_connection (mh c)
      then (gst_poll_fd_ctl_write (fd c) true s, true)
      else (s, w_need_signal w) in
    let usage :=
      if w_max_buffer_usage w <? bufpos (mh c) then bufpos (mh c)
      else w_max_buffer_usage w in
    Some (mkWalk s need_signal usage).

(** One walk of the client loop along the links [links], with the cookie
    taken when the walk started.  The boolean tells that the walk stopped
    on an outdated cookie ([goto restart]). *)
Fixpoint queue_buffer_walk (now max_buffers soft_max_buffers cookie : Z)
    (links : list loc) (w : walk) : option (walk * bool) :=
  match links with
  | [] => Some (w, false)
  | l :: next =>
      if negb (cookie =? clients_cookie (w_sink w)) then Some (w, true)
      else
        w ← queue_buffer_client now max_buffers soft_max_buffers l w;
        queue_buffer_walk now max_buffers soft_max_buffers cookie next w
  end.

(** The client loop with its restarts, at most [n] of them. *)
Fixpoint queue_buffer_clients (n : nat) (now max_buffers soft_max_buffers : Z)
    (w : walk) : option walk :=
  match
    queue_buffer_walk now max_buffers soft_max_buffers
      (clients_cookie (w_sink w)) (clients (w_sink w)) w
  with
  | None => None
  | Some (w, false) => Some w
  | Some (w, true) =>
      match n with
      | O => None
      | S n => queue_buffer_clients n now max_buffers soft_max_buffers w
      end
  end.

(** The index of the first sync frame among [rest], the buffers from
    index [i] up to the limit of the search. *)
Fixpoint first_sync_point (rest : list GstBuffer) (i : Z) : option Z :=
  match rest with
  | [] => None
  | buf :: rest' =>
      if is_sync_frame buf then Some i else first_sync_point rest' (i + 1)
  end.

(** The loop that removes the buffers at the indices above
    [max_buffer_usage], from [i = n - 1] down.  [max_buffer_usage] is not
    negative, so that the loop ends at [i = -1] at the latest. *)
Fixpoint trim_queue (n : nat) (max_buffer_usage : Z) (q : list GstBuffer)
    : list GstBuffer :=
  match n with
  | O => q
  | S i =>
      if max_buffer_usage <? Z.of_nat i
      then trim_queue i max_buffer_usage (delete i q)
      else q
  end.

(** [gst_multi_fd_sink_queue_buffer]; [now] is the time it reads.  A
    restart of the client loop follows a removal, which takes a client off
    the list: the loop is given as many restarts as there are clients.
    [None]: a read outside the store or the queue, or a failed
    assertion. *)
Definition gst_multi_fd_sink_queue_buffer (now : Z) (buf : GstBuffer)
    (s : GstMultiFdSink) : option GstMultiFdSink :=
  let s := set_bufqueue (buf :: bufqueue s) s in
  let queuelen := queue_len (bufqueue s) in
  let p := props s in
  let max_buffers :=
    if 0 <? units_max p
    then get_buffers_max (unit_type p) (bufqueue s) (units_max p) else -1 in
  let soft_max_buffers :=
    if 0 <? units_soft_max p
    then get_buffers_max (unit_type p) (bufqueue s) (units_soft_max p)
    else -1 in
  w ← queue_buffer_clients (length (clients s)) now max_buffers
        soft_max_buffers (mkWalk s false 0);
  let s := w_sink w in
  lim ← find_limits (bufqueue s) (bytes_min p) (buffers_min p)
          (to_gint64 (time_min p)) (-1) (-1) (-1);
  let max_buffer_usage := MAX (w_max_buffer_usage w) (to_gint (min_idx lim + 1)) in
  let max_buffer_usage :=
    if bool_decide (def_sync_method p = GST_SYNC_METHOD_LATEST_KEYFRAME)
       || bool_decide (def_sync_method p = GST_SYNC_METHOD_BURST_KEYFRAME)
    then
      let limit :=
        if 0 <? soft_max_buffers then MIN queuelen soft_max_buffers
        else queuelen in
      match first_sync_point (take (Z.to_nat limit) (bufqueue s)) 0 with
      | Some i => MAX max_buffer_usage i
      | None => max_buffer_usage
      end
    else max_buffer_usage in
  let s :=
    set_bufqueue
      (trim_queue (Z.to_nat queuelen) max_buffer_usage (bufqueue s)) s in
  let s := set_buffers_queued max_buffer_usage s in
  Some (if w_need_signal w then gst_poll_restart s else s).

Inductive GstFlowReturn := GST_FLOW_OK | GST_FLOW_FLUSHING.

(** [gst_multi_fd_sink_render]. *)
Definition gst_multi_fd_sink_render (now : Z) (buf : GstBuffer)
    (s : GstMultiFdSink) : option (GstFlowReturn * GstMultiFdSink) :=
  if negb (sink_open s) then Some (GST_FLOW_FLUSHING, s)
  else
    let in_caps := buf_header buf in
    let s :=
      if in_caps && negb (previous_buffer_in_caps s)
      then set_streamheader [] s else s in
    let s := set_previous_buffer_in_caps in_caps s in
    if in_caps then
      Some (GST_FLOW_OK, set_streamheader (streamheader s ++ [buf]) s)
    else
      s ← gst_multi_fd_sink_queue_buffer now buf s;
      Some (GST_FLOW_OK,
            set_bytes_to_serve (to_guint64 (bytes_to_serve s + buf_size buf)) s).

(** ** The I/O loop: serving one client *)

(** What the poll set reports for a descriptor after the wait. *)
Record PollEvents := mkPollEvents {
  has_closed : bool;
  has_error : bool;
  can_read : bool;
  can_write : bool
}.

(** What the system answers while one client is served. *)
Record ServeEnv := mkServeEnv {
  srv_now : Z;
  srv_ioctl_ret : Z;
  srv_avail : Z;
  srv_reads : list Z;
  srv_writes : list WriteResult
}.

(** The body of the loop of [gst_multi_fd_sink_handle_clients] that checks
    the clients, for the client at [l]. *)
Definition handle_clients_client (ev : PollEvents) (env : ServeEnv) (l : loc)
    (s : GstMultiFdSink) : option GstMultiFdSink :=
  c ← store s !! l;
  let remove := gst_multi_fd_sink_remove_client_link (srv_now env) l in
  if negb (bool_decide (status (mh c) = GST_CLIENT_STATUS_FLUSHING))
     && negb (bool_decide (status (mh c) = GST_CLIENT_STATUS_OK))
  then remove s
  else if has_closed ev then
    remove (update_client l (on_mh (set_status GST_CLIENT_STATUS_CLOSED) c) s)
  else if has_error ev then
    remove (update_client l (on_mh (set_status GST_CLIENT_STATUS_ERROR) c) s)
  else
    '(ok, c) ←
      (if can_read ev then
         gst_multi_fd_sink_handle_client_read (srv_ioctl_ret env)
           (srv_avail env) (srv_reads env) c
       else Some (true, c));
    let s := update_client l c s in
    if negb ok then remove s
    else if can_write ev then
      '(ok, s, c) ←
        gst_multi_fd_sink_handle_client_write (srv_now env) (srv_writes env) s c;
      let s := update_client l c s in
      if negb ok then remove s else Some s
    else Some s.

(** ** The I/O loop: the wait timed out *)

(** The body of the loop that [gst_multi_fd_sink_handle_clients] runs
    when [gst_poll_wait] returns 0, for the client at [l]; [now] is the
    time read before the loop. *)
Definition handle_clients_timeout_client (now : Z) (l : loc)
    (s : GstMultiFdSink) : option GstMultiFdSink :=
  c ← store s !! l;
  if (0 <? timeout (props s))
     && (timeout (props s) <? to_guint64 (now - last_activity_time (mh c)))
  then
    let c := on_mh (set_status GST_CLIENT_STATUS_SLOW) c in
    gst_multi_fd_sink_remove_client_link now l (update_client l c s)
  else Some s.

(** The loop, along the links [links]: the next link is read before the
    client is looked at, and there is no cookie to check. *)
Fixpoint handle_clients_timeout_loop (now : Z) (links : list loc)
    (s : GstMultiFdSink) : option GstMultiFdSink :=
  match links with
  | [] => Some s
  | l :: next =>
      match handle_clients_timeout_client now l s with
      | None => None
      | Some s => handle_clients_timeout_loop now next s
      end
  end.

Definition handle_clients_timeout (now : Z) (s : GstMultiFdSink)
    : option GstMultiFdSink :=
  handle_clients_timeout_loop now (clients s) s.

(** ** The I/O loop: the wait failed with [EBADF] *)

(** What [fcntl (fd, F_GETFL, &flags)] answers for a descriptor. *)
Inductive FcntlResult :=
  | FcntlOk
  | FcntlEBADF
  | FcntlError.

Global Instance FcntlResult_eq_dec : EqDecision FcntlResult.
Proof. solve_decision. Defined.

(** The body of the loop that looks for the invalid descriptors, for the
    client at [l]. *)
Definition handle_clients_badfd_client (now : Z) (fcntl : Z → FcntlResult)
    (l : loc) (s : GstMultiFdSink) : option GstMultiFdSink :=
  c ← store s !! l;
  match fcntl (fd c) with
  | FcntlEBADF =>
      let c := on_mh (set_status GST_CLIENT_STATUS_ERROR) c in
      gst_multi_fd_sink_remove_client_link now l (update_client l c s)
  | FcntlOk | FcntlError => Some s
  end.

(** One walk of that loop, with the cookie taken when it started; the
    boolean tells that it stopped on an outdated cookie
    ([goto restart]). *)
Fixpoint handle_clients_badfd_walk (now : Z) (fcntl : Z → FcntlResult)
    (cookie : Z) (links : list loc) (s : GstMultiFdSink)
    : option (GstMultiFdSink * bool) :=
  match links with
  | [] => Some (s, false)
  | l :: next =>
      if negb (cookie =? clients_cookie s) then Some (s, true)
      else
        match handle_clients_badfd_client now fcntl l s with
        | None => None
        | Some s => handle_clients_badfd_walk now fcntl cookie next s
        end
  end.

(** The loop with its restarts, at most [n] of them. *)
Fixpoint handle_clients_badfd (n : nat) (now : Z) (fcntl : Z → FcntlResult)
    (s : GstMultiFdSink) : option GstMultiFdSink :=
  match
    handle_clients_badfd_walk now fcntl (clients_cookie s) (clients s) s
  with
  | None => None
  | Some (s, false) => Some s
  | Some (s, true) =>
      match n with
      | O => None
      | S n => handle_clients_badfd n now fcntl s
      end
  end.

(** ** Properties of positions and limits *)

(** The client after [remove_flush] took it. *)
Definition flushing_client (c : GstTCPClient) : GstTCPClient :=
  on_mh (set_status GST_CLIENT_STATUS_FLUSHING)
    (on_mh (set_flushcount (bufpos (mh c) + 1)) c).

(** The invariant on positions: a client waits ([bufpos] -1) or its
    position is an index of the queue. *)
Definition bufpos_valid (q : list GstBuffer) (c : GstTCPClient) : Prop :=
  bufpos (mh c) = -1 ∨ 0 ≤ bufpos (mh c) < Z.of_nat (length q).

Global Instance bufpos_valid_dec q c : Decision (bufpos_valid q c).
Proof. unfold bufpos_valid. apply _. Defined.

Definition bufpos_invariant (s : GstMultiFdSink) : Prop :=
  map_Forall (λ _ c, bufpos_valid (bufqueue s) c) (store s).

Global Instance bufpos_invariant_dec s : Decision (bufpos_invariant s).
Proof. unfold bufpos_invariant. apply _. Defined.

(** *** Limits met at an index of the queue

    What it means, in the arithmetic of [find_limits], that the buffers
    up to an index reach a limit. *)

(** The bytes of the buffers [pre], added in a [gint]. *)
Definition bytes_acc (pre : list GstBuffer) : Z :=
  fold_left (λ acc b, to_gint (acc + buf_size b)) pre 0.

(** The timestamp of the first buffer of [pre] that has one. *)
Definition first_timestamp (pre : list GstBuffer) : Z :=
  fold_left
    (λ first b,
       if negb (buf_timestamp b =? GST_CLOCK_TIME_NONE)
          && (first =? GST_CLOCK_TIME_NONE)
       then buf_timestamp b else first)
    pre GST_CLOCK_TIME_NONE.

(** The bytes of the buffers at the indices 0 to [j]. *)
Definition bytes_through (q : list GstBuffer) (j : nat) : Z :=
  bytes_acc (take (S j) q).

(** The time from the buffer at [j], when it has a timestamp, back to the
    first timestamp of the queue, as a [guint64]. *)
Definition time_span (q : list GstBuffer) (j : nat) : option Z :=
  b ← q !! j;
  if negb (buf_timestamp b =? GST_CLOCK_TIME_NONE)
  then Some (to_guint64 (first_timestamp (take (S j) q) - buf_timestamp b))
  else None.

(** A byte or time maximum is reached with the buffer at [j]. *)
Definition max_reached_at (q : list GstBuffer) (bymax tmax : Z) (j : nat)
    : Prop :=
  (bymax ≠ -1 ∧ bymax ≤ bytes_through q j)
  ∨ (tmax ≠ -1 ∧ ∃ d, time_span q j = Some d ∧ to_guint64 tmax ≤ d).

(** The byte minimum, and the time minimum, is unset or reached with a
    buffer at an index below [n]. *)
Definition bytes_min_reached_before (q : list GstBuffer) (bymin : Z) (n : nat)
    : Prop :=
  bymin = -1 ∨ ∃ k : nat, (k < n)%nat ∧ bymin ≤ bytes_through q k.

Definition time_min_reached_before (q : list GstBuffer) (tmin : Z) (n : nat)
    : Prop :=
  tmin = -1
  ∨ ∃ (k : nat) (d : Z),
      (k < n)%nat ∧ time_span q k = Some d ∧ to_guint64 tmin ≤ d.

(** All the minimums are unset or reached with the buffers up to [j];
    for the buffer minimum this is the test on the length of the queue. *)
Definition mins_reached_by (q : list GstBuffer) (bymin bumin tmin : Z) (j : nat)
    : Prop :=
  (bumin = -1 ∨ bumin ≤ Z.of_nat (length q))
  ∧ bytes_min_reached_before q bymin (S j)
  ∧ time_min_reached_before q tmin (S j).

(** Some maximum, the buffer maximum included, is exceeded by the whole
    queue: the condition on the maximums as C2 words it. *)
Definition some_max_exceeded (q : list GstBuffer) (bymax bumax tmax : Z) : Prop :=
  (bymax ≠ -1 ∧ bymax < bytes_acc q)
  ∨ (bumax ≠ -1 ∧ bumax < Z.of_nat (length q))
  ∨ (tmax ≠ -1
     ∧ ∃ (k : nat) (d : Z), time_span q k = Some d ∧ to_guint64 tmax < d).

(** What the locals of the scanning loop of [find_limits] hold when the
    loop is about to look at index [n] of [q], with the limits it was
    called with. *)
Record scan_inv (q : list GstBuffer) (bymin tmin bymax tmax : Z) (n : nat)
    (s : scan) : Prop := mkScanInv {
  inv_i : sc_i s = Z.of_nat n;
  inv_bytes : sc_bytes s = bytes_acc (take n q);
  inv_first : sc_first s = first_timestamp (take n q);
  inv_bytes_min : sc_bytes_min s = -1 ↔ bytes_min_reached_before q bymin n;
  inv_bytes_min_kept : sc_bytes_min s ≠ -1 → sc_bytes_min s = bymin;
  inv_time_min : sc_time_min s = -1 ↔ time_min_reached_before q tmin n;
  inv_time_min_kept : sc_time_min s ≠ -1 → sc_time_min s = tmin;
  inv_no_hit : ∀ k : nat, (S k < n)%nat → ¬ max_reached_at q bymax tmax k;
  inv_hit_start : n = 0%nat → sc_max_hit s = false;
  inv_hit :
    ∀ k : nat, S k = n → sc_max_hit s = true ↔ max_reached_at q bymax tmax k;
  inv_min_idx :
    sc_min_idx s ≠ -1 →
    bytes_min_reached_before q bymin n ∧ time_min_reached_before q tmin n
}.

(** The client table is well formed: no client is twice on the list, and
    the list holds the clients of the store. *)
Definition table_wf (s : GstMultiFdSink) : Prop :=
  NoDup (clients s) ∧ ∀ l : loc, l ∈ clients s ↔ is_Some (store s !! l).

(** ** States to run the code on *)

Module Example.

(** The properties as [gst_multi_fd_sink_init] and the base class leave
    them: buffers as unit, no limit, no timeout. *)
Definition default_props : SinkProps :=
  {| unit_type := GST_TCP_UNIT_TYPE_BUFFERS; units_max := -1;
     units_soft_max := -1; recover_policy := GST_RECOVER_POLICY_NONE;
     timeout := 0; def_sync_method := GST_SYNC_METHOD_LATEST;
     def_burst_unit := GST_TCP_UNIT_TYPE_UNDEFINED; def_burst_value := 0;
     bytes_min := -1; buffers_min := -1; time_min := GST_CLOCK_TIME_NONE;
     qos_dscp := -1; handle_read := true; resend_streamheader := true |}.

(** A delta buffer and a key buffer of [size] bytes without timestamp,
    and a header buffer. *)
Definition delta (size : Z) : GstBuffer :=
  mkBuffer size GST_CLOCK_TIME_NONE false true.
Definition key (size : Z) : GstBuffer :=
  mkBuffer size GST_CLOCK_TIME_NONE false false.
Definition header (size : Z) : GstBuffer :=
  mkBuffer size GST_CLOCK_TIME_NONE true false.

(** A client added at time [t] on descriptor [fdn] with the default
    burst parameters, since then moved to [pos]. *)
Definition client_at (fdn t pos : Z) : GstTCPClient :=
  {| mh := set_bufpos pos
             (gst_multi_handle_sink_client_init GST_SYNC_METHOD_LATEST t);
     fd := fdn; is_socket := true;
     burst_min_unit := GST_TCP_UNIT_TYPE_UNDEFINED; burst_min_value := 0;
     burst_max_unit := GST_TCP_UNIT_TYPE_UNDEFINED;
     burst_max_value := to_guint64 (-1) |}.

(** The same, after it was sent its first buffers. *)
Definition served_client (fdn t pos : Z) : GstTCPClient :=
  on_mh (set_new_connection false) (client_at fdn t pos).

Definition no_caps : GstCaps := mkCaps 0 None.

(** An open sink with the queue [q] and the clients [cs], the first of
    the list at location 1, the next at 2, and so on, all in the hash
    and in the poll set. *)
Definition locs_of (cs : list GstTCPClient) : list loc :=
  imap (λ i _, Pos.of_succ_nat i) cs.

Definition sink_with (p : SinkProps) (q : list GstBuffer)
    (cs : list GstTCPClient) : GstMultiFdSink :=
  {| props := p; sink_open := true; bufqueue := q;
     clients := locs_of cs;
     store := list_to_map (zip (locs_of cs) cs);
     fd_hash := list_to_map (zip (fd <$> cs) (locs_of cs));
     clients_cookie := Z.of_nat (length cs);
     fdset := list_to_map ((λ c, (fd c, mkPollFD true false)) <$> cs);
     streamheader := []; previous_buffer_in_caps := false;
     pad_caps := no_caps; buffers_queued := Z.of_nat (length q);
     bytes_to_serve := 0; bytes_served := 0; trace := [] |}.

End Example.

(** ** The limits of a burst *)

(** Modelled from the spec: C6 speaks of [find_limits] over the burst
    parameters of the client.  A burst parameter is a unit and a value:
    it stands for the limit of its unit, the value as the [gint] or
    [gint64] that [find_limits] takes, and leaves the two other limits
    unset (-1). *)
Definition burst_bytes_limit (unit : GstTCPUnitType) (value : Z) : Z :=
  match unit with
  | GST_TCP_UNIT_TYPE_BYTES => to_gint value
  | _ => -1
  end.

Definition burst_buffers_limit (unit : GstTCPUnitType) (value : Z) : Z :=
  match unit with
  | GST_TCP_UNIT_TYPE_BUFFERS => to_gint value
  | _ => -1
  end.

Definition burst_time_limit (unit : GstTCPUnitType) (value : Z) : Z :=
  match unit with
  | GST_TCP_UNIT_TYPE_TIME => to_gint64 value
  | _ => -1
  end.

(** ** More properties of limits *)

(** The time from the buffer at [j], when it has a timestamp, back to the
    first timestamp of the queue, as the [gint64] that [get_buffers_max]
    compares. *)
Definition time_gap (q : list GstBuffer) (j : nat) : option Z :=
  b ← q !! j;
  if negb (buf_timestamp b =? GST_CLOCK_TIME_NONE)
  then Some (to_gint64 (first_timestamp (take (S j) q) - buf_timestamp b))
  else None.

(** The byte and time minimums are unset or reached with the buffers at
    the indices below [n]. *)
Definition mins_before (q : list GstBuffer) (bymin tmin : Z) (n : nat) : Prop :=
  bytes_min_reached_before q bymin n ∧ time_min_reached_before q tmin n.

(** What the scanning loop of [find_limits] knows of [min_idx] when it is
    about to look at index [n]: unset, the minimums were not reached at
    the head of the iteration before; set, it is the index at which they
    were first reached (0 when they were never to be waited for). *)
Definition min_idx_inv (q : list GstBuffer) (bymin tmin : Z) (n : nat)
    (s : scan) : Prop :=
  (sc_min_idx s = -1 → n = 0%nat ∨ ¬ mins_before q bymin tmin (n - 1))
  ∧ (sc_min_idx s ≠ -1 →
     ∃ m : nat, (m < n)%nat ∧ mins_before q bymin tmin m
                ∧ (∀ m' : nat, (m' < m)%nat → ¬ mins_before q bymin tmin m')
                ∧ sc_min_idx s = Z.max (Z.of_nat m - 1) 0).

(** ** The client table as a whole *)

(** The list, the store, the hash and the poll set agree: no client is
    twice on the list, the list holds the clients of the store, the hash
    maps each descriptor to the client that has it, and the poll set
    holds the descriptors of the hash. *)
Record table_consistent (s : GstMultiFdSink) : Prop := mkConsistent {
  tc_nodup : NoDup (clients s);
  tc_list : ∀ l : loc, l ∈ clients s ↔ is_Some (store s !! l);
  tc_hash :
    ∀ (fdn : Z) (l : loc),
      fd_hash s !! fdn = Some l
      ↔ ∃ c : GstTCPClient, store s !! l = Some c ∧ fd c = fdn;
  tc_poll : ∀ fdn : Z, is_Some (fdset s !! fdn) ↔ is_Some (fd_hash s !! fdn)
}.

(** The same as a check that computes on a given sink. *)
Definition table_consistent_check (s : GstMultiFdSink) : bool :=
  bool_decide (NoDup (clients s))
  && bool_decide (list_to_set (clients s) =@{gset loc} dom (store s))
  && bool_decide
       (map_Forall (λ (f : Z) (l : loc), fd <$> store s !! l = Some f)
          (fd_hash s))
  && bool_decide
       (map_Forall (λ (l : loc) (c : GstTCPClient), fd_hash s !! fd c = Some l)
          (store s))
  && bool_decide (dom (fdset s) =@{gset Z} dom (fd_hash s)).

(** A client was last active longer ago than the timeout allows, in the
    [guint64] arithmetic of the sink. *)
Definition timed_out (p : SinkProps) (now : Z) (c : GstTCPClient) : bool :=
  (0 <? timeout p) && (timeout p <? to_guint64 (now - last_activity_time (mh c))).

(** * Properties *)

(** ** Conversions that do nothing on values in range *)

Section conversions.

Lemma to_gint_id x : G_MININT ≤ x ≤ G_MAXINT → to_gint x = x.
Proof.
  unfold to_gint, wrap_signed, G_MININT, G_MAXINT. intros H.
  rewrite Z.mod_small; lia.
Qed.

Lemma to_guint_id x : 0 ≤ x < 2 ^ 32 → to_guint x = x.
Proof. unfold to_guint, wrap_unsigned. intros H. apply Z.mod_small; lia. Qed.

Lemma to_guint64_id x : 0 ≤ x < 2 ^ 64 → to_guint64 x = x.
Proof. unfold to_guint64, wrap_unsigned. intros H. apply Z.mod_small; lia. Qed.

Lemma to_gint64_id x : - 2 ^ 63 ≤ x < 2 ^ 63 → to_gint64 x = x.
Proof.
  unfold to_gint64, wrap_signed. intros H. rewrite Z.mod_small; lia.
Qed.

Lemma MAX_max a b : MAX a b = Z.max a b.
Proof. unfold MAX. destruct (Z.ltb_spec b a); lia. Qed.

Lemma MIN_min a b : MIN a b = Z.min a b.
Proof. unfold MIN. destruct (Z.ltb_spec a b); lia. Qed.

Lemma queue_len_length (q : list GstBuffer) :
  Z.of_nat (length q) ≤ G_MAXINT → queue_len q = Z.of_nat (length q).
Proof.
  intros H. unfold queue_len. apply to_gint_id. unfold G_MININT. lia.
Qed.

Lemma queue_len_pos_length (q : list GstBuffer) :
  0 < queue_len q → (0 < length q)%nat.
Proof.
  unfold queue_len. destruct q; [vm_compute; discriminate | simpl; lia].
Qed.

End conversions.

(** ** The sink as a record *)

Lemma set_store_same (s : GstMultiFdSink) : set_store (store s) s = s.
Proof. by destruct s. Qed.

Lemma update_client_same l c (s : GstMultiFdSink) :
  store s !! l = Some c → update_client l c s = s.
Proof.
  intros H. unfold update_client. rewrite insert_id; [|done].
  apply set_store_same.
Qed.

(** A structure allocated at a location not in use and freed again leaves
    the store as it was. *)
Lemma store_alloc_free (m : gmap loc GstTCPClient) c c' :
  let l := fresh (dom m) in delete l (<[l := c']> (<[l := c]> m)) = m.
Proof.
  intros l. rewrite insert_insert_eq, delete_insert_eq.
  apply delete_id, not_elem_of_dom, is_fresh.
Qed.

(** ** [find_limits] with too few buffers *)

(** C4: for a queue of length [len > 0] and a [buffers_min] that is set
    and larger than [len], [find_limits] returns [min_idx = len - 1],
    [max_idx = len - 1] and [satisfied = false]; the sizes and timestamps
    of the buffers play no part, as every queue of that length gets the
    same answer. *)
Theorem find_limits_buffers_min_short (q : list GstBuffer)
    (bymin bumin tmin bymax bumax tmax : Z) :
  0 < queue_len q → bumin ≠ -1 → queue_len q < bumin →
  find_limits q bymin bumin tmin bymax bumax tmax
  = Some (mkLimits (queue_len q - 1) (queue_len q - 1) false)
  ∧ ∀ q' : list GstBuffer, length q' = length q →
      find_limits q' bymin bumin tmin bymax bumax tmax
      = find_limits q bymin bumin tmin bymax bumax tmax.
Proof.
  intros Hlen Hset Hshort.
  assert (Hearly : ∀ q' : list GstBuffer, length q' = length q →
            find_limits q' bymin bumin tmin bymax bumax tmax
            = Some (mkLimits (queue_len q - 1) (queue_len q - 1) false)).
  { intros q' Hq'. unfold find_limits.
    assert (queue_len q' = queue_len q) as -> by (unfold queue_len; congruence).
    destruct (Z.ltb_spec 0 (queue_len q)); [simpl | lia].
    destruct (Z.eqb_spec bumin (-1)); [done | simpl].
    destruct (Z.ltb_spec (queue_len q) bumin); [done | lia]. }
  split; [by apply Hearly |].
  intros q' Hq'. rewrite (Hearly q' Hq'). symmetry. by apply Hearly.
Qed.

Lemma find_limits_buffers_min_short_witness :
  let q := [mkBuffer 100 GST_CLOCK_TIME_NONE false true] in
  (0 < queue_len q ∧ 3 ≠ -1 ∧ queue_len q < 3)
  ∧ find_limits q 50 3 (-1) 80 (-1) (-1) = Some (mkLimits 0 0 false).
Proof.
  intros q.
  assert (H : 0 < queue_len q ∧ 3 ≠ -1 ∧ queue_len q < 3)
    by (vm_compute; repeat split; discriminate).
  split; [exact H |].
  destruct H as (H1 & H2 & H3).
  exact (proj1 (find_limits_buffers_min_short q 50 3 (-1) 80 (-1) (-1) H1 H2 H3)).
Defined.

(** ** When [find_limits] is satisfied *)

Section limits_scan.

Variables (q : list GstBuffer) (bymin tmin bymax tmax : Z).

Lemma bytes_acc_snoc (pre : list GstBuffer) (b : GstBuffer) :
  bytes_acc (pre ++ [b]) = to_gint (bytes_acc pre + buf_size b).
Proof. unfold bytes_acc. by rewrite fold_left_app. Qed.

Lemma first_timestamp_snoc (pre : list GstBuffer) (b : GstBuffer) :
  first_timestamp (pre ++ [b])
  = if negb (buf_timestamp b =? GST_CLOCK_TIME_NONE)
       && (first_timestamp pre =? GST_CLOCK_TIME_NONE)
    then buf_timestamp b else first_timestamp pre.
Proof. unfold first_timestamp. by rewrite fold_left_app. Qed.

Lemma bytes_through_lookup (n : nat) (buf : GstBuffer) :
  q !! n = Some buf →
  bytes_through q n = to_gint (bytes_acc (take n q) + buf_size buf).
Proof.
  intros H. unfold bytes_through.
  by rewrite (take_S_r q n buf H), bytes_acc_snoc.
Qed.

Lemma time_span_lookup (n : nat) (buf : GstBuffer) :
  q !! n = Some buf →
  time_span q n
  = if negb (buf_timestamp buf =? GST_CLOCK_TIME_NONE)
    then Some (to_guint64
                 ((if first_timestamp (take n q) =? GST_CLOCK_TIME_NONE
                   then buf_timestamp buf else first_timestamp (take n q))
                  - buf_timestamp buf))
    else None.
Proof.
  intros H. unfold time_span. rewrite H. simpl.
  rewrite (take_S_r q n buf H), first_timestamp_snoc.
  by destruct (negb (buf_timestamp buf =? GST_CLOCK_TIME_NONE)).
Qed.

Lemma bytes_min_reached_mono (n m : nat) :
  (n ≤ m)%nat →
  bytes_min_reached_before q bymin n → bytes_min_reached_before q bymin m.
Proof.
  intros Hnm [H | (k & Hk & H)]; [by left | right].
  exists k. split; [lia | done].
Qed.

Lemma time_min_reached_mono (n m : nat) :
  (n ≤ m)%nat →
  time_min_reached_before q tmin n → time_min_reached_before q tmin m.
Proof.
  intros Hnm [H | (k & d & Hk & H)]; [by left | right].
  exists k, d. split; [lia | done].
Qed.

(** The loop starts with nothing accounted. *)
Lemma scan_inv_init :
  scan_inv q bymin tmin bymax tmax 0
    {| sc_i := 0; sc_bytes := 0; sc_first := GST_CLOCK_TIME_NONE;
       sc_bytes_min := bymin; sc_time_min := tmin;
       sc_min_idx := -1; sc_max_hit := false |}.
Proof.
  constructor; simpl; try done.
  - split; [by left | intros [H | (k & Hk & _)]; [done | lia]].
  - split; [by left | intros [H | (k & d & Hk & _)]; [done | lia]].
  - intros k Hk. lia.
Qed.

(** The head of an iteration sets [min_idx] exactly when the byte and
    time minimums are reached. *)
Lemma scan_check_min_set (n : nat) (s : scan) :
  scan_inv q bymin tmin bymax tmax n s →
  scan_check_min s ≠ -1
  ↔ bytes_min_reached_before q bymin n ∧ time_min_reached_before q tmin n.
Proof.
  intros Hinv. unfold scan_check_min. rewrite MAX_max.
  destruct (Z.eqb_spec (sc_bytes_min s) (-1)) as [Hb | Hb]; simpl.
  - destruct (Z.eqb_spec (sc_time_min s) (-1)) as [Ht | Ht]; simpl.
    + apply (inv_bytes_min _ _ _ _ _ _ _ Hinv) in Hb.
      apply (inv_time_min _ _ _ _ _ _ _ Hinv) in Ht.
      destruct (Z.eqb_spec (sc_min_idx s) (-1)); split; try done; lia.
    + split; [| intros [_ H]; by apply (inv_time_min _ _ _ _ _ _ _ Hinv) in H].
      intros H. by apply (inv_min_idx _ _ _ _ _ _ _ Hinv).
  - split; [| intros [H _]; by apply (inv_bytes_min _ _ _ _ _ _ _ Hinv) in H].
    intros H. by apply (inv_min_idx _ _ _ _ _ _ _ Hinv).
Qed.

(** An iteration that accounts the buffer at [n] keeps the invariant. *)
Lemma scan_inv_step (n : nat) (s : scan) (buf : GstBuffer) :
  scan_inv q bymin tmin bymax tmax n s →
  q !! n = Some buf → sc_max_hit s = false →
  scan_inv q bymin tmin bymax tmax (S n)
    (scan_account bymax tmax buf s (scan_check_min s)).
Proof.
  intros Hinv Hbuf Hnohit.
  pose proof (bytes_through_lookup n buf Hbuf) as Hbytes.
  pose proof (time_span_lookup n buf Hbuf) as Hspan.
  pose proof (scan_check_min_set n s Hinv) as Hmin.
  destruct Hinv as [Hi Hby Hfi Hbm Hbmk Htm Htmk Hno Hh0 Hh Hmi].
  unfold scan_account. rewrite Hnohit, Hby, Hfi, <- Hbytes.
  set (valid := negb (buf_timestamp buf =? GST_CLOCK_TIME_NONE)) in *.
  set (first := if valid && _ then _ else _).
  assert (Hfirst : first = first_timestamp (take (S n) q)).
  { subst first. by rewrite (take_S_r q n buf Hbuf), first_timestamp_snoc. }
  assert (Hspan' : time_span q n
                   = if valid then Some (to_guint64 (first - buf_timestamp buf))
                     else None).
  { rewrite Hspan. subst first. by destruct valid. }
  clearbody first. clear Hspan.
  constructor; simpl.
  - lia.
  - done.
  - done.
  - (* the byte minimum *)
    destruct (Z.eqb_spec (sc_bytes_min s) (-1)) as [Hb | Hb]; simpl.
    + split; [intros _ | done].
      apply (bytes_min_reached_mono n); [lia | by apply Hbm].
    + pose proof (Hbmk Hb) as Heq. rewrite Heq in *.
      destruct (Z.leb_spec bymin (bytes_through q n)) as [Hle | Hgt].
      * split; [intros _ | done]. right. exists n. split; [lia | done].
      * split; [done |]. intros [H | (k & Hk & H)]; [done |].
        destruct (decide (k = n)) as [-> | Hkn]; [lia |].
        exfalso. apply Hb, Hbm. right. exists k. split; [lia | done].
  - destruct (Z.eqb_spec (sc_bytes_min s) (-1)) as [Hb | Hb]; simpl; [done |].
    destruct (_ <=? _); [done | auto].
  - (* the time minimum *)
    destruct (Z.eqb_spec (sc_time_min s) (-1)) as [Ht | Ht]; simpl.
    + rewrite andb_false_r. simpl. split; [intros _ | done].
      apply (time_min_reached_mono n); [lia | by apply Htm].
    + pose proof (Htmk Ht) as Heq. rewrite Heq in *. rewrite andb_true_r.
      destruct valid; simpl.
      * destruct (Z.leb_spec (to_guint64 tmin)
                    (to_guint64 (first - buf_timestamp buf))) as [Hle | Hgt].
        -- split; [intros _ | done]. right. eexists n, _.
           split; [lia | done].
        -- split; [done |]. intros [H | (k & d & Hk & Hd & H)]; [done |].
           destruct (decide (k = n)) as [-> | Hkn].
           ++ rewrite Hspan' in Hd. injection Hd as <-. lia.
           ++ exfalso. apply Ht, Htm. right. exists k, d.
              split; [lia | done].
      * split; [done |]. intros [H | (k & d & Hk & Hd & H)]; [done |].
        destruct (decide (k = n)) as [-> | Hkn].
        -- by rewrite Hspan' in Hd.
        -- exfalso. apply Ht, Htm. right. exists k, d. split; [lia | done].
  - destruct (Z.eqb_spec (sc_time_min s) (-1)) as [Ht | Ht]; simpl.
    + by rewrite andb_false_r.
    + destruct (valid && true && _); [done | auto].
  - (* no maximum reached before [n] *)
    intros k Hk. destruct (decide (S k = n)) as [Hkn | Hkn].
    + intros Hhit. apply (Hh k Hkn) in Hhit. congruence.
    + apply Hno. lia.
  - done.
  - (* the maximums *)
    intros k [= ->]. unfold max_reached_at. rewrite Hspan'.
    destruct (Z.eqb_spec bymax (-1)) as [Hbx | Hbx]; simpl.
    + destruct (Z.eqb_spec tmax (-1)) as [Htx | Htx]; simpl.
      * rewrite andb_false_r. split; [done | intros [[? _] | [? _]]; done].
      * rewrite andb_true_r. destruct valid; simpl.
        -- destruct (Z.leb_spec (to_guint64 tmax)
                       (to_guint64 (first - buf_timestamp buf))).
           ++ split; [intros _ | done]. right. split; [done |].
              by eexists.
           ++ split; [done |].
              intros [[? _] | [_ (d & [= <-] & ?)]]; [done | lia].
        -- split; [done |].
           intros [[? _] | [_ (d & ? & _)]]; done.
    + destruct (Z.leb_spec bymax (bytes_through q n)).
      * split; [intros _ | done]. by left.
      * destruct (Z.eqb_spec tmax (-1)) as [Htx | Htx]; simpl.
        -- rewrite andb_false_r.
           split; [done | intros [[_ ?] | [? _]]; [lia | done]].
        -- rewrite andb_true_r. destruct valid; simpl.
           ++ destruct (Z.leb_spec (to_guint64 tmax)
                          (to_guint64 (first - buf_timestamp buf))).
              ** split; [intros _ | done]. right. split; [done |].
                 by eexists.
              ** split; [done |].
                 intros [[_ ?] | [_ (d & [= <-] & ?)]]; lia.
           ++ split; [done |].
              intros [[_ ?] | [_ (d & ? & _)]]; [lia | done].
  - (* [min_idx] *)
    intros H. apply Hmin in H as [H1 H2]. split.
    + by apply (bytes_min_reached_mono n); [lia |].
    + by apply (time_min_reached_mono n); [lia |].
Qed.

(** The loop, entered at index [n]: its result is TRUE only if the
    first index where a maximum is reached is not the last of the queue
    and has the minimums reached, and it is TRUE if that is so. *)
Lemma find_limits_loop_satisfied (rest : list GstBuffer) :
  ∀ (n : nat) (s : scan) (mi ma : Z) (r : bool),
    drop n q = rest →
    scan_inv q bymin tmin bymax tmax n s →
    find_limits_loop bymax tmax rest s = (mi, ma, r) →
    (r = true →
     ∃ j : nat, (S j < length q)%nat ∧ max_reached_at q bymax tmax j
                ∧ (∀ k : nat, (k < j)%nat → ¬ max_reached_at q bymax tmax k)
                ∧ bytes_min_reached_before q bymin (S j)
                ∧ time_min_reached_before q tmin (S j))
    ∧ (∀ j : nat,
         (S j < length q)%nat → max_reached_at q bymax tmax j →
         (∀ k : nat, (k < j)%nat → ¬ max_reached_at q bymax tmax k) →
         bytes_min_reached_before q bymin (S j) →
         time_min_reached_before q tmin (S j) →
         r = true).
Proof.
  induction rest as [|buf rest IH]; intros n s mi ma r Hdrop Hinv; simpl.
  - intros [= _ _ <-]. split; [done |].
    intros j Hj Hhit _ _ _. exfalso.
    apply (f_equal length) in Hdrop. rewrite length_drop in Hdrop. simpl in Hdrop.
    apply (inv_no_hit _ _ _ _ _ _ _ Hinv j); [lia | done].
  - assert (Hbuf : q !! n = Some buf).
    { rewrite <- (Nat.add_0_r n), <- lookup_drop, Hdrop. done. }
    assert (Hrest : drop (S n) q = rest).
    { rewrite (drop_S q buf n Hbuf) in Hdrop. by injection Hdrop. }
    destruct (sc_max_hit s) eqn:Hmax.
    + intros [= _ _ <-].
      pose proof (scan_check_min_set n s Hinv) as Hmin.
      destruct n as [|k].
      { by rewrite (inv_hit_start _ _ _ _ _ _ _ Hinv) in Hmax. }
      pose proof (proj1 (inv_hit _ _ _ _ _ _ _ Hinv k eq_refl) Hmax) as Hk.
      apply lookup_lt_Some in Hbuf.
      split.
      * intros Hr. exists k. split; [lia |]. split; [done |]. split.
        -- intros k' Hk'. apply (inv_no_hit _ _ _ _ _ _ _ Hinv). lia.
        -- apply Hmin. by destruct (Z.eqb_spec (scan_check_min s) (-1)).
      * intros j Hj Hhit Hfirst Hbm Htm.
        assert (j = k) as ->.
        { destruct (Nat.lt_trichotomy j k) as [Hlt | [Heq | Hgt]]; [| done |].
          - exfalso. apply (inv_no_hit _ _ _ _ _ _ _ Hinv j); [lia | done].
          - exfalso. by apply (Hfirst k). }
        destruct (Z.eqb_spec (scan_check_min s) (-1)) as [Heq |]; [| done].
        exfalso. by apply Hmin.
    + apply (IH (S n)); [done | by apply scan_inv_step].
Qed.

End limits_scan.

(** C2, as the code has it.  For a queue that is not empty, [find_limits]
    returns TRUE if and only if there is a first index at which a byte
    or time maximum is reached (not necessarily exceeded), that index is
    not the last of the queue, and all the minimums are reached by it.
    So the minimums that are reached only past the first maximum do not
    count, and a maximum first reached at the last index gives FALSE.
    The buffer maximum plays no part: the result is the same for every
    value of it. *)
Theorem find_limits_satisfied (q : list GstBuffer)
    (bymin bumin tmin bymax bumax tmax : Z) :
  (0 < length q)%nat → Z.of_nat (length q) ≤ G_MAXINT →
  ∃ lim : limits,
    find_limits q bymin bumin tmin bymax bumax tmax = Some lim
    ∧ (satisfied lim = true
       ↔ ∃ j : nat,
           (S j < length q)%nat ∧ max_reached_at q bymax tmax j
           ∧ (∀ k : nat, (k < j)%nat → ¬ max_reached_at q bymax tmax k)
           ∧ mins_reached_by q bymin bumin tmin j)
    ∧ (∀ bumax' : Z,
         find_limits q bymin bumin tmin bymax bumax' tmax = Some lim).
Proof.
  intros Hpos Hmaxlen. unfold find_limits.
  rewrite (queue_len_length q Hmaxlen), Nat2Z.id, firstn_all.
  destruct (Z.ltb_spec 0 (Z.of_nat (length q))); [simpl | lia].
  destruct (Z.eqb_spec bumin (-1)) as [Hbu | Hbu]; simpl.
  - destruct (find_limits_loop _ _ _ _) as [[mi ma] r] eqn:Hloop.
    eexists. split; [reflexivity |]. simpl.
    destruct (find_limits_loop_satisfied q bymin tmin bymax tmax q 0 _ mi ma r
                eq_refl (scan_inv_init q bymin tmin bymax tmax) Hloop)
      as [Honly Hif].
    split; [| done]. split.
    + intros Hr. destruct (Honly Hr) as (j & Hj & Hhit & Hfirst & Hbm & Htm).
      exists j. unfold mins_reached_by. auto 6.
    + intros (j & Hj & Hhit & Hfirst & _ & Hbm & Htm). by apply (Hif j).
  - destruct (Z.ltb_spec (Z.of_nat (length q)) bumin) as [Hshort | Hlong].
    + eexists. split; [reflexivity |]. simpl. split; [| done].
      split; [done |].
      intros (j & _ & _ & _ & [? | ?] & _); lia.
    + destruct (find_limits_loop _ _ _ _) as [[mi ma] r] eqn:Hloop.
      eexists. split; [reflexivity |]. simpl.
      destruct (find_limits_loop_satisfied q bymin tmin bymax tmax q 0 _ mi ma r
                  eq_refl (scan_inv_init q bymin tmin bymax tmax) Hloop)
        as [Honly Hif].
      split; [| done]. split.
      * intros Hr. destruct (Honly Hr) as (j & Hj & Hhit & Hfirst & Hbm & Htm).
        exists j. unfold mins_reached_by. split; [done |].
        split; [done |]. split; [done |]. split; [right; lia | done].
      * intros (j & Hj & Hhit & Hfirst & _ & Hbm & Htm). by apply (Hif j).
Qed.

(** Four buffers of 500 bytes.  With a byte minimum of 1000 and a byte
    maximum of 1200 the maximum is first reached at index 2, where the
    minimum is reached too: TRUE.  With a byte minimum of 2000 and a byte
    maximum of 500 the maximum is first reached at index 0, before the
    minimum: FALSE, though the queue reaches both. *)
Lemma find_limits_satisfied_witness :
  let q := [Example.delta 500; Example.delta 500; Example.delta 500;
            Example.delta 500] in
  ((0 < length q)%nat ∧ Z.of_nat (length q) ≤ G_MAXINT)
  ∧ (∃ lim : limits,
       find_limits q 1000 (-1) (-1) 1200 (-1) (-1) = Some lim
       ∧ satisfied lim = true)
  ∧ (∃ lim : limits,
       find_limits q 2000 (-1) (-1) 500 (-1) (-1) = Some lim
       ∧ satisfied lim = false
       ∧ ¬ ∃ j : nat,
             (S j < length q)%nat ∧ max_reached_at q 500 (-1) j
             ∧ (∀ k : nat, (k < j)%nat → ¬ max_reached_at q 500 (-1) k)
             ∧ mins_reached_by q 2000 (-1) (-1) j).
Proof.
  intros q.
  assert (H1 : (0 < length q)%nat) by (simpl; lia).
  assert (H2 : Z.of_nat (length q) ≤ G_MAXINT) by (vm_compute; discriminate).
  split; [done |]. split.
  - destruct (find_limits_satisfied q 1000 (-1) (-1) 1200 (-1) (-1) H1 H2)
      as (lim & Hlim & Hiff & _).
    exists lim. split; [exact Hlim |].
    apply Hiff. exists 2%nat. split; [simpl; lia |]. split; [| split].
    + left. split; [discriminate | vm_compute; discriminate].
    + intros k Hk [[_ H] | [H _]]; [| done].
      destruct k as [|[|k]]; [vm_compute in H; by apply H .. | lia].
    + split; [by left |]. split; [| by left].
      right. exists 1%nat. split; [lia | vm_compute; discriminate].
  - destruct (find_limits_satisfied q 2000 (-1) (-1) 500 (-1) (-1) H1 H2)
      as (lim & Hlim & Hiff & _).
    exists lim. split; [exact Hlim |].
    assert (Hsat : satisfied lim = false).
    { vm_compute in Hlim. by injection Hlim as <-. }
    split; [exact Hsat |].
    intros Hex. apply Hiff in Hex. congruence.
Defined.

(** C2, as stated, fails.  Two buffers of 10 bytes, a byte minimum of 20
    and a byte maximum of 5: the minimum is met and the maximum exceeded,
    but the maximum is reached before the minimum and the result is FALSE.
    Three buffers and a buffer maximum of 1: the maximum is exceeded, but
    [find_limits] does not look at it.  One buffer of 10 bytes and a byte
    maximum of 5: the maximum is reached at the last index, where the loop
    ends before it takes note. *)
Lemma find_limits_unsatisfied_with_limits_met :
  (let q := [Example.delta 10; Example.delta 10] in
   mins_reached_by q 20 (-1) (-1) 1
   ∧ some_max_exceeded q 5 (-1) (-1)
   ∧ satisfied <$> find_limits q 20 (-1) (-1) 5 (-1) (-1) = Some false)
  ∧ (let q := [Example.delta 10; Example.delta 10; Example.delta 10] in
     mins_reached_by q (-1) (-1) (-1) 2
     ∧ some_max_exceeded q (-1) 1 (-1)
     ∧ satisfied <$> find_limits q (-1) (-1) (-1) (-1) 1 (-1) = Some false)
  ∧ (let q := [Example.delta 10] in
     mins_reached_by q (-1) (-1) (-1) 0
     ∧ some_max_exceeded q 5 (-1) (-1)
     ∧ satisfied <$> find_limits q (-1) (-1) (-1) 5 (-1) (-1) = Some false).
Proof.
  split; [| split]; intros q.
  - split; [| split; [| reflexivity]].
    + split; [by left |]. split; [| by left].
      right. exists 1%nat. split; [lia | vm_compute; discriminate].
    + left. split; [discriminate | reflexivity].
  - split; [| split; [| reflexivity]].
    + split; [by left |]. split; by left.
    + right. left. split; [discriminate | reflexivity].
  - split; [| split; [| reflexivity]].
    + split; [by left |]. split; by left.
    + left. split; [discriminate | reflexivity].
Qed.

(** ** The start of a burst client *)

(** When the scanning loop sets [max_idx], it is the index of a buffer. *)
Lemma find_limits_loop_max_idx (bymax tmax : Z) (rest : list GstBuffer) :
  ∀ (s : scan) (mi ma : Z) (r : bool),
    0 ≤ sc_i s → (sc_max_hit s = true → 1 ≤ sc_i s) →
    find_limits_loop bymax tmax rest s = (mi, ma, r) →
    ma = -1 ∨ 0 ≤ ma.
Proof.
  induction rest as [|buf rest IH]; intros s mi ma r Hi Hhit; simpl.
  - intros [= _ <- _]. by left.
  - destruct (sc_max_hit s) eqn:Hmax.
    + intros [= _ <- _]. right. specialize (Hhit eq_refl). lia.
    + apply IH; simpl; lia.
Qed.

(** [find_limits] never leaves [max_idx] at -1. *)
Lemma find_limits_max_idx (q : list GstBuffer)
    (bymin bumin tmin bymax bumax tmax : Z) (lim : limits) :
  find_limits q bymin bumin tmin bymax bumax tmax = Some lim →
  0 ≤ max_idx lim.
Proof.
  unfold find_limits.
  destruct (Z.ltb_spec 0 (queue_len q)) as [Hlen|]; [simpl | discriminate].
  destruct (negb (bumin =? -1) && (queue_len q <? bumin)).
  - intros [= <-]. simpl. lia.
  - destruct (find_limits_loop _ _ _ _) as [[mi ma] r] eqn:Hloop.
    apply find_limits_loop_max_idx in Hloop; [| simpl; lia | discriminate].
    intros [= <-]. simpl.
    destruct (Z.eqb_spec ma (-1)); lia.
Qed.

Lemma find_limits_is_Some (q : list GstBuffer)
    (bymin bumin tmin bymax bumax tmax : Z) :
  0 < queue_len q →
  is_Some (find_limits q bymin bumin tmin bymax bumax tmax).
Proof.
  intros Hlen. unfold find_limits.
  destruct (Z.ltb_spec 0 (queue_len q)); [simpl | lia].
  destruct (negb (bumin =? -1) && (queue_len q <? bumin)); [done |].
  by destruct (find_limits_loop _ _ _ _) as [[mi ma] r].
Qed.

(** [count_burst_unit] is [find_limits] with the limits that the two
    burst parameters stand for. *)
Lemma count_burst_unit_find_limits (q : list GstBuffer)
    (min_unit : GstTCPUnitType) (min_value : Z)
    (max_unit : GstTCPUnitType) (max_value : Z) :
  count_burst_unit q min_unit min_value max_unit max_value
  = find_limits q
      (burst_bytes_limit min_unit min_value)
      (burst_buffers_limit min_unit min_value)
      (burst_time_limit min_unit min_value)
      (burst_bytes_limit max_unit max_value)
      (burst_buffers_limit max_unit max_value)
      (burst_time_limit max_unit max_value).
Proof. by destruct min_unit, max_unit. Qed.

(** C6: for a client with the sync method Burst, the start index is the
    [min_idx] that [find_limits] gives on the queue for the limits of the
    client's [burst_min] and [burst_max] parameters, except that it is
    [max (max_idx - 1, 0)] when [max_idx <= min_idx]; the client is not
    changed; and there is such a start whenever the queue is not
    empty. *)
Theorem new_client_burst_start (q : list GstBuffer) (c : GstTCPClient) :
  sync_method (mh c) = GST_SYNC_METHOD_BURST →
  gst_multi_fd_sink_new_client q c
  = (lim ← find_limits q
             (burst_bytes_limit (burst_min_unit c) (burst_min_value c))
             (burst_buffers_limit (burst_min_unit c) (burst_min_value c))
             (burst_time_limit (burst_min_unit c) (burst_min_value c))
             (burst_bytes_limit (burst_max_unit c) (burst_max_value c))
             (burst_buffers_limit (burst_max_unit c) (burst_max_value c))
             (burst_time_limit (burst_max_unit c) (burst_max_value c));
     Some (if max_idx lim <=? min_idx lim
           then Z.max (max_idx lim - 1) 0
           else min_idx lim, c))
  ∧ (0 < queue_len q → is_Some (gst_multi_fd_sink_new_client q c)).
Proof.
  intros Hsync. unfold gst_multi_fd_sink_new_client. rewrite Hsync.
  rewrite count_burst_unit_find_limits.
  split.
  - destruct (find_limits q _ _ _ _ _ _) as [lim|] eqn:Hlim; [simpl | done].
    apply find_limits_max_idx in Hlim.
    unfold burst_start. rewrite MAX_max.
    destruct (Z.eqb_spec (max_idx lim) (-1)); [lia | done].
  - intros Hlen.
    match goal with
    | |- context [find_limits q ?a ?b ?c ?d ?e ?f] =>
        destruct (find_limits_is_Some q a b c d e f Hlen) as [lim ->]
    end.
    by eexists.
Qed.

(** Four buffers of 500 bytes.  A burst of at least 1000 and at most 2000
    bytes starts at index 1, the [min_idx]: [max_idx] is 3.  A burst of
    at least 2000 and at most 1000 bytes has [max_idx = min_idx = 1] and
    starts at index 0; so does a burst of at least 501 and at most 400
    bytes, with [max_idx = 0] and [min_idx = 0]: [max (-1, 0)]. *)
Lemma new_client_burst_start_witness :
  let burst := λ (min_value max_value : Z),
    {| mh := gst_multi_handle_sink_client_init GST_SYNC_METHOD_BURST 0;
       fd := 7; is_socket := true;
       burst_min_unit := GST_TCP_UNIT_TYPE_BYTES; burst_min_value := min_value;
       burst_max_unit := GST_TCP_UNIT_TYPE_BYTES;
       burst_max_value := max_value |} in
  let q := [Example.delta 500; Example.delta 500; Example.delta 500;
            Example.delta 500] in
  (∀ min_value max_value : Z,
     sync_method (mh (burst min_value max_value)) = GST_SYNC_METHOD_BURST)
  ∧ find_limits q 1000 (-1) (-1) 2000 (-1) (-1) = Some (mkLimits 1 3 false)
  ∧ gst_multi_fd_sink_new_client q (burst 1000 2000)
    = Some (1, burst 1000 2000)
  ∧ find_limits q 2000 (-1) (-1) 1000 (-1) (-1) = Some (mkLimits 1 1 false)
  ∧ gst_multi_fd_sink_new_client q (burst 2000 1000)
    = Some (0, burst 2000 1000)
  ∧ find_limits q 501 (-1) (-1) 400 (-1) (-1) = Some (mkLimits 0 0 false)
  ∧ gst_multi_fd_sink_new_client q (burst 501 400)
    = Some (0, burst 501 400).
Proof.
  intros burst q.
  assert (H : ∀ min_value max_value : Z,
            sync_method (mh (burst min_value max_value))
            = GST_SYNC_METHOD_BURST) by reflexivity.
  split; [exact H |].
  split; [reflexivity |]. split.
  { rewrite (proj1 (new_client_burst_start q (burst 1000 2000) (H 1000 2000))).
    reflexivity. }
  split; [reflexivity |]. split.
  { rewrite (proj1 (new_client_burst_start q (burst 2000 1000) (H 2000 1000))).
    reflexivity. }
  split; [reflexivity |].
  rewrite (proj1 (new_client_burst_start q (burst 501 400) (H 501 400))).
  reflexivity.
Defined.

(** ** The keyframe recover policy *)

Lemma to_gint_range x : G_MININT ≤ to_gint x ≤ G_MAXINT.
Proof.
  unfold to_gint, wrap_signed, G_MININT, G_MAXINT.
  pose proof (Z.mod_pos_bound (x + 2 ^ (32 - 1)) (2 ^ 32)). lia.
Qed.

Lemma get_buffers_max_bytes_range (rest : list GstBuffer) :
  ∀ i acc max r,
    get_buffers_max_bytes rest i acc max = Some r →
    i < r ≤ i + Z.of_nat (length rest).
Proof.
  induction rest as [|buf rest IH]; intros i acc max r; simpl; [done |].
  destruct (max <? to_gint (acc + buf_size buf)).
  - intros [= <-]. lia.
  - intros H. apply IH in H. lia.
Qed.

Lemma get_buffers_max_time_range (rest : list GstBuffer) :
  ∀ i first max r,
    get_buffers_max_time rest i first max = Some r →
    i < r ≤ i + Z.of_nat (length rest).
Proof.
  induction rest as [|buf rest IH]; intros i first max r; simpl; [done |].
  destruct (negb (buf_timestamp buf =? GST_CLOCK_TIME_NONE)).
  - destruct (max <? _).
    + intros [= <-]. lia.
    + intros H. apply IH in H. lia.
  - intros H. apply IH in H. lia.
Qed.

(** [get_buffers_max] returns a [gint]. *)
Lemma get_buffers_max_range (u : GstTCPUnitType) (q : list GstBuffer) (max : Z) :
  Z.of_nat (length q) ≤ G_MAXINT →
  G_MININT ≤ get_buffers_max u q max ≤ G_MAXINT.
Proof.
  intros Hq. unfold get_buffers_max.
  rewrite (queue_len_length q Hq), Nat2Z.id, firstn_all.
  destruct u; try apply to_gint_range.
  - destruct (get_buffers_max_time q 0 _ max) as [r|] eqn:Hr; simpl;
      [| apply to_gint_range].
    apply get_buffers_max_time_range in Hr. unfold G_MININT. lia.
  - destruct (get_buffers_max_bytes q 0 0 max) as [r|] eqn:Hr; simpl;
      [| apply to_gint_range].
    apply get_buffers_max_bytes_range in Hr. unfold G_MININT. lia.
Qed.

(** Past a positive soft maximum, on a queue that is not empty, the scan
    starts at [min (len - 1, soft_max - 1)]. *)
Lemma resync_keyframe_start_min (p : SinkProps) (q : list GstBuffer) :
  (0 < length q)%nat → Z.of_nat (length q) ≤ G_MAXINT →
  0 < get_buffers_max (unit_type p) q (units_soft_max p) →
  resync_keyframe_start p q
  = Z.min (Z.of_nat (length q) - 1)
      (get_buffers_max (unit_type p) q (units_soft_max p) - 1).
Proof.
  intros Hpos Hq Hsoft. unfold resync_keyframe_start.
  pose proof (get_buffers_max_range (unit_type p) q (units_soft_max p) Hq) as Hr.
  unfold G_MININT, G_MAXINT in *.
  rewrite (to_gint_id (_ - 1)) by (unfold G_MININT, G_MAXINT; lia).
  rewrite !to_guint_id by lia.
  rewrite MIN_min. apply to_gint_id. unfold G_MININT, G_MAXINT. lia.
Qed.

(** The scan ends at -1 when it meets no sync frame. *)
Lemma resync_keyframe_scan_none (q : list GstBuffer) (n : nat) :
  (n ≤ length q)%nat →
  (∀ (i : nat) (buf : GstBuffer),
     q !! i = Some buf → (i < n)%nat → is_sync_frame buf = false) →
  resync_keyframe_scan q n = Some (-1).
Proof.
  induction n as [|n IH]; intros Hn Hdelta; simpl; [done |].
  destruct (lookup_lt_is_Some_2 q n) as [buf Hbuf]; [lia |].
  rewrite Hbuf, (Hdelta n buf Hbuf) by lia.
  apply IH; [lia |]. intros i b Hb Hi. apply (Hdelta i b Hb). lia.
Qed.

(** C1, as the code has it: with the policy ResyncKeyframe, past a
    positive soft maximum, on a queue with no buffer other than delta
    buffers at the indices up to [min (len - 1, soft_max - 1)], the new
    position is -1: the client waits for the next buffer, as with
    ResyncLatest, and the result of SoftLimit is not used. *)
Theorem recover_resync_keyframe_no_sync_frame (p : SinkProps)
    (q : list GstBuffer) (c : GstTCPClient) :
  recover_policy p = GST_RECOVER_POLICY_RESYNC_KEYFRAME →
  (0 < length q)%nat → Z.of_nat (length q) ≤ G_MAXINT →
  0 < get_buffers_max (unit_type p) q (units_soft_max p) →
  (∀ (i : nat) (buf : GstBuffer),
     q !! i = Some buf →
     Z.of_nat i ≤ Z.min (Z.of_nat (length q) - 1)
                    (get_buffers_max (unit_type p) q (units_soft_max p) - 1) →
     buf_delta buf = true) →
  gst_multi_fd_sink_recover_client p q c = Some (-1).
Proof.
  intros Hpol Hpos Hq Hsoft Hdelta.
  unfold gst_multi_fd_sink_recover_client. rewrite Hpol.
  rewrite (resync_keyframe_start_min p q Hpos Hq Hsoft).
  set (start := Z.min _ _) in *.
  destruct (Z.ltb_spec start 0); [lia |].
  apply resync_keyframe_scan_none; [lia |].
  intros i buf Hbuf Hi. unfold is_sync_frame.
  rewrite (Hdelta i buf Hbuf); [done | lia].
Qed.

Lemma recover_resync_keyframe_no_sync_frame_witness :
  let p := mkProps GST_TCP_UNIT_TYPE_BUFFERS (-1) 5
             GST_RECOVER_POLICY_RESYNC_KEYFRAME 0 GST_SYNC_METHOD_LATEST
             GST_TCP_UNIT_TYPE_UNDEFINED 0 (-1) (-1) GST_CLOCK_TIME_NONE (-1)
             true true in
  let q := replicate 11 (Example.delta 100) in
  let c := Example.served_client 7 0 6 in
  recover_policy p = GST_RECOVER_POLICY_RESYNC_KEYFRAME
  ∧ gst_multi_fd_sink_recover_client p q c = Some (-1).
Proof.
  intros p q c. split; [reflexivity |].
  apply (recover_resync_keyframe_no_sync_frame p q c).
  - reflexivity.
  - simpl. lia.
  - vm_compute. discriminate.
  - vm_compute. reflexivity.
  - intros i buf Hbuf _. apply lookup_replicate in Hbuf as [-> _]. reflexivity.
Defined.

(** C1, as stated, fails on the spec's own scenario: 11 delta buffers
    after the prepend, [units_soft_max = 5] in buffers, a client at
    [bufpos = 6].  SoftLimit gives 5; the keyframe policy gives -1, and the
    producer path leaves the client at -1. *)
Lemma recover_resync_keyframe_not_soft_limit :
  let p := mkProps GST_TCP_UNIT_TYPE_BUFFERS (-1) 5
             GST_RECOVER_POLICY_RESYNC_KEYFRAME 0 GST_SYNC_METHOD_LATEST
             GST_TCP_UNIT_TYPE_UNDEFINED 0 (-1) (-1) GST_CLOCK_TIME_NONE (-1)
             true true in
  let q := replicate 11 (Example.delta 100) in
  let c := Example.served_client 7 0 6 in
  get_buffers_max (unit_type p) q (units_soft_max p) = 5
  ∧ gst_multi_fd_sink_recover_client p q c = Some (-1)
  ∧ gst_multi_fd_sink_recover_client p q c
    ≠ Some (get_buffers_max (unit_type p) q (units_soft_max p))
  ∧ (s' ← gst_multi_fd_sink_queue_buffer 0 (Example.delta 100)
            (Example.sink_with p (replicate 10 (Example.delta 100))
               [Example.served_client 7 0 5]);
     c' ← store s' !! 1%positive;
     Some (bufpos (mh c'))) = Some (-1).
Proof.
  intros p q c. repeat split; try reflexivity. vm_compute. discriminate.
Qed.

(** ** [add_full] and [add] of a descriptor that is in the table *)

Lemma add_default_limits_pass (unit : GstTCPUnitType) (value : Z) :
  wrong_limits unit value unit (to_guint64 (-1)) = false.
Proof.
  unfold wrong_limits. rewrite Z.eqb_refl. simpl.
  by rewrite !andb_false_r.
Qed.

Lemma add_full_duplicate (env : AddEnv) (fdn : Z) (sync : GstSyncMethod)
    (min_unit : GstTCPUnitType) (min_value : Z) (max_unit : GstTCPUnitType)
    (max_value : Z) (s : GstMultiFdSink) :
  wrong_limits min_unit min_value max_unit max_value = false →
  is_Some (fd_hash s !! fdn) →
  gst_multi_fd_sink_add_full env fdn sync min_unit min_value max_unit
    max_value s
  = emit (SIGNAL_CLIENT_REMOVED fdn GST_CLIENT_STATUS_DUPLICATE) s.
Proof.
  intros Hlim [clink Hdup]. unfold gst_multi_fd_sink_add_full.
  rewrite Hlim. destruct s as [p o q cl m h k fds sh prev pc bq bts bs tr].
  simpl in *. rewrite Hdup.
  unfold emit, update_client, set_store, set_trace. simpl.
  f_equal. apply store_alloc_free.
Qed.

(** C8, as the code has it: a call of [add_full] whose limits pass the
    limits check, and every call of [add], with a descriptor that is in
    the table, leaves the sink as it was but for one client-removed
    notification with the status Duplicate: the client registered under
    the descriptor, the list, the hash and the poll set are unchanged, the
    structure of the new client is gone, and the descriptor is not closed,
    as no other effect is recorded. *)
Theorem add_duplicate_rejected (env : AddEnv) (fdn : Z) (sync : GstSyncMethod)
    (min_unit : GstTCPUnitType) (min_value : Z) (max_unit : GstTCPUnitType)
    (max_value : Z) (s : GstMultiFdSink) :
  is_Some (fd_hash s !! fdn) →
  (wrong_limits min_unit min_value max_unit max_value = false →
   gst_multi_fd_sink_add_full env fdn sync min_unit min_value max_unit
     max_value s
   = emit (SIGNAL_CLIENT_REMOVED fdn GST_CLIENT_STATUS_DUPLICATE) s)
  ∧ gst_multi_fd_sink_add env fdn s
    = emit (SIGNAL_CLIENT_REMOVED fdn GST_CLIENT_STATUS_DUPLICATE) s.
Proof.
  intros Hdup. split.
  - intros Hlim. by apply add_full_duplicate.
  - unfold gst_multi_fd_sink_add.
    apply add_full_duplicate; [apply add_default_limits_pass | done].
Qed.

Lemma add_duplicate_rejected_witness :
  let s := Example.sink_with Example.default_props [Example.delta 1]
             [Example.served_client 7 0 0] in
  let env := mkAddEnv 5 false true (Some AF_INET) in
  is_Some (fd_hash s !! 7)
  ∧ gst_multi_fd_sink_add_full env 7 GST_SYNC_METHOD_BURST
      GST_TCP_UNIT_TYPE_BUFFERS 2 GST_TCP_UNIT_TYPE_BUFFERS 5 s
    = emit (SIGNAL_CLIENT_REMOVED 7 GST_CLIENT_STATUS_DUPLICATE) s
  ∧ gst_multi_fd_sink_add env 7 s
    = emit (SIGNAL_CLIENT_REMOVED 7 GST_CLIENT_STATUS_DUPLICATE) s.
Proof.
  intros s env.
  assert (H : is_Some (fd_hash s !! 7)) by (exists 1%positive; reflexivity).
  split; [exact H |].
  destruct (add_duplicate_rejected env 7 GST_SYNC_METHOD_BURST
              GST_TCP_UNIT_TYPE_BUFFERS 2 GST_TCP_UNIT_TYPE_BUFFERS 5 s H)
    as [Hfull Hadd].
  split; [apply Hfull; reflexivity | exact Hadd].
Defined.

(** C8, as stated, fails: [add_full] with a descriptor that is in the
    table and limits that the limits check refuses returns before it looks
    the descriptor up, and emits no notification. *)
Lemma add_full_duplicate_wrong_limits_silent :
  let s := Example.sink_with Example.default_props [Example.delta 1]
             [Example.served_client 7 0 0] in
  let env := mkAddEnv 5 false true (Some AF_INET) in
  is_Some (fd_hash s !! 7)
  ∧ trace (gst_multi_fd_sink_add_full env 7 GST_SYNC_METHOD_BURST
             GST_TCP_UNIT_TYPE_BUFFERS 5 GST_TCP_UNIT_TYPE_BUFFERS 2 s)
    = []
  ∧ trace (gst_multi_fd_sink_add_full env 7 GST_SYNC_METHOD_BURST
             GST_TCP_UNIT_TYPE_BUFFERS 5 GST_TCP_UNIT_TYPE_BUFFERS 2 s)
    ≠ trace s ++ [SIGNAL_CLIENT_REMOVED 7 GST_CLIENT_STATUS_DUPLICATE].
Proof.
  intros s env. split; [by exists 1%positive |].
  split; [reflexivity | discriminate].
Qed.

(** ** [remove_flush] *)

(** C10: for a client whose status is not OK, [remove_flush] on its
    descriptor changes nothing: the sink, with the client's [flushcount]
    and [status], is as it was, and no removal is started. *)
Theorem remove_flush_not_ok_noop (fdn : Z) (s : GstMultiFdSink) (clink : loc)
    (c : GstTCPClient) :
  fd_hash s !! fdn = Some clink →
  store s !! clink = Some c →
  status (mh c) ≠ GST_CLIENT_STATUS_OK →
  gst_multi_fd_sink_remove_flush fdn s = Some s.
Proof.
  intros Hhash Hstore Hst. unfold gst_multi_fd_sink_remove_flush.
  rewrite Hhash, Hstore. simpl.
  by rewrite bool_decide_eq_false_2.
Qed.

Lemma remove_flush_not_ok_noop_witness :
  let c := on_mh (set_flushcount 2)
             (on_mh (set_status GST_CLIENT_STATUS_FLUSHING)
                (Example.served_client 7 0 2)) in
  let s := Example.sink_with Example.default_props
             [Example.delta 1; Example.delta 1; Example.delta 1] [c] in
  (fd_hash s !! 7 = Some 1%positive ∧ store s !! 1%positive = Some c
   ∧ status (mh c) ≠ GST_CLIENT_STATUS_OK)
  ∧ gst_multi_fd_sink_remove_flush 7 s = Some s.
Proof.
  intros c s.
  assert (H1 : fd_hash s !! 7 = Some 1%positive) by reflexivity.
  assert (H2 : store s !! 1%positive = Some c) by reflexivity.
  assert (H3 : status (mh c) ≠ GST_CLIENT_STATUS_OK) by discriminate.
  split; [done |].
  exact (remove_flush_not_ok_noop 7 s 1%positive c H1 H2 H3).
Defined.

(** ** Removal of a client *)

(** The removal procedure, run for a client that is not yet being
    removed, takes it out of the store, the hash and the poll set, and
    emits client-removed with its status, then client-fd-removed. *)
Lemma remove_client_link_removes (now : Z) (l : loc) (s : GstMultiFdSink)
    (c : GstTCPClient) :
  store s !! l = Some c → currently_removing (mh c) = false →
  ∃ s', gst_multi_fd_sink_remove_client_link now l s = Some s'
        ∧ store s' !! l = None
        ∧ fd_hash s' !! fd c = None
        ∧ fdset s' !! fd c = None
        ∧ trace s' = trace s ++ [SIGNAL_CLIENT_REMOVED (fd c) (status (mh c));
                                 SIGNAL_CLIENT_FD_REMOVED (fd c)]
        ∧ bufqueue s' = bufqueue s.
Proof.
  intros Hc Hrem. unfold gst_multi_fd_sink_remove_client_link.
  rewrite Hc. simpl. rewrite Hrem. eexists. split; [reflexivity |].
  destruct s; simpl in *.
  rewrite !lookup_delete_eq, <- app_assoc. done.
Qed.

(** ** [remove_flush] and the write loop *)

(** A flushing client with nothing in [sending] and buffers left to flush
    picks the buffer at its position: [flushcount] and [bufpos] go down by
    one and the buffer is the last of [sending]. *)
Lemma flushing_pick_decrements (s : GstMultiFdSink) (c : GstTCPClient)
    (buf : GstBuffer) :
  sending (mh c) = [] →
  0 < flushcount (mh c) ≤ G_MAXINT →
  g_array_index (bufqueue s) (bufpos (mh c)) = Some buf →
  ∃ c', pick_buffer true s c = Some (PickGoOn, s, c')
        ∧ flushcount (mh c') = flushcount (mh c) - 1
        ∧ bufpos (mh c') = to_gint (bufpos (mh c) - 1)
        ∧ status (mh c') = status (mh c)
        ∧ last (sending (mh c')) = Some buf.
Proof.
  intros Hsend Hfl Hbuf. unfold pick_buffer.
  destruct c as [m fdn sock mu mv xu xv].
  destruct m as [st sm bp fc bo sd cp nc dc cr bs db ct dt la fb lb].
  simpl in *. subst.
  assert (Hpos : (bp =? -1) = false).
  { apply Z.eqb_neq. intros Heq. rewrite Heq in Hbuf. discriminate. }
  assert (Hfl0 : (fc =? 0) = false) by (apply Z.eqb_neq; lia).
  assert (Hfl1 : (fc =? -1) = false) by (apply Z.eqb_neq; lia).
  rewrite Hpos, andb_false_r. simpl. rewrite Hfl0, Hbuf. simpl.
  eexists. split; [reflexivity |].
  unfold gst_multi_fd_sink_client_queue_buffer, on_mh. simpl.
  repeat match goal with
         | |- context [if ?b then _ else _] =>
             lazymatch b with
             | context [fc] => fail
             | _ => destruct b
             end
         | |- context [match ?o with Some _ => _ | None => _ end] => destruct o
         end;
    simpl; rewrite ?Hfl1; simpl; rewrite ?last_snoc;
    (split; [apply to_gint_id; unfold G_MININT, G_MAXINT in *; lia | done]).
Qed.

(** The write handler, for a flushing client with nothing in [sending]
    and nothing left to flush: "flushed, removing". *)
Lemma handle_client_write_flushed (now : Z) (writes : list WriteResult)
    (s : GstMultiFdSink) (c : GstTCPClient) :
  status (mh c) = GST_CLIENT_STATUS_FLUSHING →
  sending (mh c) = [] → flushcount (mh c) = 0 →
  ∃ s', gst_multi_fd_sink_handle_client_write now writes s c
        = Some (false, s', on_mh (set_status GST_CLIENT_STATUS_REMOVED) c)
        ∧ store s' = store s ∧ trace s' = trace s.
Proof.
  intros Hst Hsend Hfl. unfold gst_multi_fd_sink_handle_client_write.
  rewrite Hst. simpl.
  assert (Hpick : ∃ s', pick_buffer true s c
                        = Some (PickReturn false, s',
                                on_mh (set_status GST_CLIENT_STATUS_REMOVED) c)
                        ∧ store s' = store s ∧ trace s' = trace s).
  { unfold pick_buffer. rewrite Hsend, Hfl. simpl.
    destruct (bufpos (mh c) =? -1).
    - eexists. split; [reflexivity |]. by destruct s.
    - rewrite andb_false_r. simpl. rewrite Hfl. simpl. by exists s. }
  destruct Hpick as (s' & Hpick & Hs').
  exists s'. split; [| done].
  destruct writes; simpl; by rewrite Hpick.
Qed.

(** A read that the handler survives leaves the client as it is. *)
Lemma handle_client_read_survived (ioctl_ret avail : Z) (reads : list Z)
    (c c' : GstTCPClient) :
  gst_multi_fd_sink_handle_client_read ioctl_ret avail reads c
  = Some (true, c') →
  c' = c.
Proof.
  unfold gst_multi_fd_sink_handle_client_read.
  destruct (ioctl_ret <? 0); [done |].
  destruct (avail =? 0); [done |].
  destruct (avail <? 0); [done |].
  destruct (read_and_drop reads avail) as [[st ret]|] eqn:Hrd; [simpl | done].
  assert (Hst : ret = true → st = None).
  { clear -Hrd. revert avail Hrd.
    induction reads as [|nread reads IH]; intros avail; simpl; [done |].
    destruct (nread <? -1); [by intros [= <- <-] |].
    destruct (nread =? 0); [by intros [= <- <-] |].
    destruct (0 <? _); [apply IH | by intros [= <- <-]]. }
  destruct st as [st|]; intros [= -> <-]; [by specialize (Hst eq_refl) | done].
Qed.

(** A flushing client with nothing in [sending] and nothing left to flush,
    served when its descriptor is writable, neither closed nor in error,
    and the read, if there is one, goes well, gets the status Removed and
    is removed. *)
Lemma flushed_client_removed (ev : PollEvents) (env : ServeEnv) (l : loc)
    (s : GstMultiFdSink) (c : GstTCPClient) :
  store s !! l = Some c →
  status (mh c) = GST_CLIENT_STATUS_FLUSHING →
  currently_removing (mh c) = false →
  sending (mh c) = [] → flushcount (mh c) = 0 →
  has_closed ev = false → has_error ev = false →
  (can_read ev = true →
   ∃ c' : GstTCPClient,
     gst_multi_fd_sink_handle_client_read (srv_ioctl_ret env) (srv_avail env)
       (srv_reads env) c = Some (true, c')) →
  can_write ev = true →
  ∃ s', handle_clients_client ev env l s = Some s'
        ∧ store s' !! l = None
        ∧ fd_hash s' !! fd c = None
        ∧ trace s' = trace s ++ [SIGNAL_CLIENT_REMOVED (fd c) GST_CLIENT_STATUS_REMOVED;
                                 SIGNAL_CLIENT_FD_REMOVED (fd c)].
Proof.
  intros Hc Hst Hrem Hsend Hfl Hcl Herr Hrd Hwr.
  unfold handle_clients_client. rewrite Hc. simpl.
  rewrite Hst, Hcl, Herr, Hwr. simpl.
  assert (Hread :
    (if can_read ev
     then gst_multi_fd_sink_handle_client_read (srv_ioctl_ret env)
            (srv_avail env) (srv_reads env) c
     else Some (true, c)) = Some (true, c)).
  { destruct (can_read ev); [| done].
    destruct (Hrd eq_refl) as [c' Hc']. rewrite Hc'.
    by apply handle_client_read_survived in Hc' as ->. }
  rewrite Hread. simpl.
  destruct (handle_client_write_flushed (srv_now env) (srv_writes env)
              (update_client l c s) c Hst Hsend Hfl) as (s1 & -> & Hs1 & Ht1).
  simpl.
  destruct (remove_client_link_removes (srv_now env) l
              (update_client l (on_mh (set_status GST_CLIENT_STATUS_REMOVED) c) s1)
              (on_mh (set_status GST_CLIENT_STATUS_REMOVED) c))
    as (s' & Hs' & Hst' & Hh' & _ & Htr' & _).
  - unfold update_client. destruct s1. simpl. by rewrite lookup_insert_eq.
  - done.
  - exists s'. repeat split; try done.
    rewrite Htr'. replace (trace s) with (trace s1) by (by destruct s).
    by destruct s1.
Qed.

(** A flushing client for whose descriptor the poll set reports nothing
    is left in the table as it is. *)
Lemma flushing_client_not_served (ev : PollEvents) (env : ServeEnv) (l : loc)
    (s : GstMultiFdSink) (c : GstTCPClient) :
  store s !! l = Some c →
  status (mh c) = GST_CLIENT_STATUS_FLUSHING →
  has_closed ev = false → has_error ev = false → can_read ev = false →
  can_write ev = false →
  handle_clients_client ev env l s = Some s.
Proof.
  intros Hc Hst Hcl Herr Hrd Hwr.
  unfold handle_clients_client. rewrite Hc. simpl.
  rewrite Hst, Hcl, Herr, Hrd, Hwr. simpl.
  by rewrite update_client_same.
Qed.

(** C7, as the code has it: for a client in the table whose status is OK,
    [remove_flush] sets [flushcount] to [bufpos + 1] and the status to
    Flushing.  Thereafter each buffer that the write loop picks from the
    global queue for a flushing client takes one off [flushcount]; and a
    flushing client with [flushcount] 0 and nothing in [sending] gets the
    status Removed and is removed when it is served with its descriptor
    writable, neither closed nor in error, and the read, if the
    descriptor is readable, goes well.  As long as the poll set reports
    nothing for its descriptor, it stays in the table, flushing. *)
Theorem remove_flush_drains_then_removes (fdn : Z) (s : GstMultiFdSink)
    (l : loc) (c : GstTCPClient) :
  fd_hash s !! fdn = Some l →
  store s !! l = Some c →
  status (mh c) = GST_CLIENT_STATUS_OK →
  -1 ≤ bufpos (mh c) < G_MAXINT →
  gst_multi_fd_sink_remove_flush fdn s
  = Some (update_client l (flushing_client c) s)
  ∧ (∀ (s2 : GstMultiFdSink) (c2 : GstTCPClient) (buf : GstBuffer),
       sending (mh c2) = [] →
       0 < flushcount (mh c2) ≤ G_MAXINT →
       g_array_index (bufqueue s2) (bufpos (mh c2)) = Some buf →
       ∃ c3, pick_buffer true s2 c2 = Some (PickGoOn, s2, c3)
             ∧ flushcount (mh c3) = flushcount (mh c2) - 1
             ∧ last (sending (mh c3)) = Some buf)
  ∧ (∀ (ev : PollEvents) (env : ServeEnv) (l2 : loc) (s2 : GstMultiFdSink)
       (c2 : GstTCPClient),
       store s2 !! l2 = Some c2 →
       status (mh c2) = GST_CLIENT_STATUS_FLUSHING →
       currently_removing (mh c2) = false →
       sending (mh c2) = [] → flushcount (mh c2) = 0 →
       has_closed ev = false → has_error ev = false →
       (can_read ev = true →
        ∃ c' : GstTCPClient,
          gst_multi_fd_sink_handle_client_read (srv_ioctl_ret env)
            (srv_avail env) (srv_reads env) c2 = Some (true, c')) →
       can_write ev = true →
       ∃ s3, handle_clients_client ev env l2 s2 = Some s3
             ∧ store s3 !! l2 = None
             ∧ fd_hash s3 !! fd c2 = None
             ∧ trace s3
               = trace s2 ++ [SIGNAL_CLIENT_REMOVED (fd c2) GST_CLIENT_STATUS_REMOVED;
                              SIGNAL_CLIENT_FD_REMOVED (fd c2)])
  ∧ (∀ (ev : PollEvents) (env : ServeEnv) (l2 : loc) (s2 : GstMultiFdSink)
       (c2 : GstTCPClient),
       store s2 !! l2 = Some c2 →
       status (mh c2) = GST_CLIENT_STATUS_FLUSHING →
       has_closed ev = false → has_error ev = false →
       can_read ev = false → can_write ev = false →
       handle_clients_client ev env l2 s2 = Some s2).
Proof.
  intros Hhash Hc Hst Hpos. split; [| split; [| split]].
  - unfold gst_multi_fd_sink_remove_flush. rewrite Hhash, Hc. simpl.
    rewrite Hst. simpl. unfold flushing_client.
    rewrite to_gint_id; [done | unfold G_MININT, G_MAXINT in *; lia].
  - intros s2 c2 buf Hsend Hfl Hbuf.
    destruct (flushing_pick_decrements s2 c2 buf Hsend Hfl Hbuf)
      as (c3 & H1 & H2 & _ & _ & H5).
    by exists c3.
  - intros. by apply flushed_client_removed.
  - intros. by apply (flushing_client_not_served ev env l2 s2 c2).
Qed.

(** A client at position 2 of a queue of three buffers of one byte.
    [remove_flush] leaves it flushing with 3 buffers to flush; the first
    buffer the write loop picks for it leaves 2; served with its
    descriptor writable and every write complete, it sends the three
    buffers and is removed with the status Removed; the same holds by the
    theorem for the client once it is at -1 with nothing left to flush;
    served with no event reported, it stays as it is. *)
Lemma remove_flush_drains_then_removes_witness :
  let c := on_mh (set_caps (Some Example.no_caps)) (Example.served_client 7 0 2) in
  let s := Example.sink_with Example.default_props
             [Example.delta 1; Example.delta 1; Example.delta 1] [c] in
  let s1 := update_client 1%positive (flushing_client c) s in
  let writable := mkPollEvents false false false true in
  let silent := mkPollEvents false false false false in
  let env := mkServeEnv 9 0 0 []
               [mkWrite 1 EAGAIN; mkWrite 1 EAGAIN; mkWrite 1 EAGAIN] in
  let c0 := on_mh (set_bufpos (-1)) (on_mh (set_flushcount 0) (flushing_client c)) in
  let s0 := update_client 1%positive c0 s in
  (fd_hash s !! 7 = Some 1%positive ∧ store s !! 1%positive = Some c
   ∧ status (mh c) = GST_CLIENT_STATUS_OK ∧ -1 ≤ bufpos (mh c) < G_MAXINT)
  ∧ gst_multi_fd_sink_remove_flush 7 s = Some s1
  ∧ flushcount (mh (flushing_client c)) = 3
  ∧ (∃ c3 : GstTCPClient,
       pick_buffer true s1 (flushing_client c) = Some (PickGoOn, s1, c3)
       ∧ flushcount (mh c3) = 3 - 1
       ∧ last (sending (mh c3)) = Some (Example.delta 1))
  ∧ (∃ s3 : GstMultiFdSink,
       handle_clients_client writable env 1%positive s1 = Some s3
       ∧ store s3 !! 1%positive = None
       ∧ bytes_served s3 = 3
       ∧ trace s3 = [SIGNAL_CLIENT_REMOVED 7 GST_CLIENT_STATUS_REMOVED;
                     SIGNAL_CLIENT_FD_REMOVED 7])
  ∧ (∃ s3 : GstMultiFdSink,
       handle_clients_client writable env 1%positive s0 = Some s3
       ∧ store s3 !! 1%positive = None
       ∧ fd_hash s3 !! fd c0 = None
       ∧ trace s3
         = trace s0 ++ [SIGNAL_CLIENT_REMOVED (fd c0) GST_CLIENT_STATUS_REMOVED;
                        SIGNAL_CLIENT_FD_REMOVED (fd c0)])
  ∧ handle_clients_client silent env 1%positive s1 = Some s1.
Proof.
  intros c s s1 writable silent env c0 s0.
  assert (H1 : fd_hash s !! 7 = Some 1%positive) by reflexivity.
  assert (H2 : store s !! 1%positive = Some c) by reflexivity.
  assert (H3 : status (mh c) = GST_CLIENT_STATUS_OK) by reflexivity.
  assert (H4 : -1 ≤ bufpos (mh c) < G_MAXINT) by (vm_compute; split; discriminate || reflexivity).
  split; [done |].
  destruct (remove_flush_drains_then_removes 7 s 1%positive c H1 H2 H3 H4)
    as (Hflush & Hpick & Hserve & Hwait).
  split; [exact Hflush |]. split; [reflexivity |]. split.
  { apply (Hpick s1 (flushing_client c) (Example.delta 1)).
    - reflexivity.
    - vm_compute. split; [reflexivity | discriminate].
    - reflexivity. }
  split.
  { eexists. split; [vm_compute; reflexivity |]. by repeat split. }
  split.
  { apply (Hserve writable env 1%positive s0 c0); try reflexivity.
    intros Hrd. discriminate Hrd. }
  apply (Hwait silent env 1%positive s1 (flushing_client c)); reflexivity.
Defined.

(** C7, as stated, fails for a client that is in the table with a status
    other than OK: a client that is already flushing, with 2 buffers left
    to flush and moved to position 2 by a new buffer, keeps
    [flushcount = 2] when [remove_flush] is called again, where
    [bufpos + 1] is 3. *)
Lemma remove_flush_again_keeps_flushcount :
  let c := on_mh (set_flushcount 2)
             (on_mh (set_status GST_CLIENT_STATUS_FLUSHING)
                (Example.served_client 7 0 2)) in
  let s := Example.sink_with Example.default_props
             [Example.delta 1; Example.delta 1; Example.delta 1] [c] in
  fd_hash s !! 7 = Some 1%positive
  ∧ store s !! 1%positive = Some c
  ∧ (s' ← gst_multi_fd_sink_remove_flush 7 s;
     c' ← store s' !! 1%positive;
     Some (flushcount (mh c'), bufpos (mh c') + 1)) = Some (2, 3).
Proof. intros c s. repeat split. Qed.

(** ** The read handler *)

(** No byte to read: the peer closed. *)
Lemma handle_client_read_closed (ioctl_ret : Z) (reads : list Z)
    (c : GstTCPClient) :
  0 ≤ ioctl_ret →
  gst_multi_fd_sink_handle_client_read ioctl_ret 0 reads c
  = Some (false, on_mh (set_status GST_CLIENT_STATUS_CLOSED) c).
Proof.
  intros H. unfold gst_multi_fd_sink_handle_client_read.
  by destruct (Z.ltb_spec ioctl_ret 0); [lia |].
Qed.

(** A read that returns 0 is an error, whatever was read before it
    without error and without exhausting [avail]. *)
Lemma handle_client_read_zero (avail : Z) (reads : list Z) (c : GstTCPClient) :
  0 < avail →
  gst_multi_fd_sink_handle_client_read 0 avail (0 :: reads) c
  = Some (false, on_mh (set_status GST_CLIENT_STATUS_ERROR) c).
Proof.
  intros H. unfold gst_multi_fd_sink_handle_client_read. simpl.
  destruct (Z.eqb_spec avail 0); [lia |].
  by destruct (Z.ltb_spec avail 0); [lia |].
Qed.

(** A read that fails returns -1, which passes the test [nread < -1]:
    the loop takes it for a read of -1 bytes and goes on with [avail + 1]
    bytes to read. *)
Lemma read_and_drop_failed_read (avail : Z) (reads : list Z) :
  0 < avail < G_MAXINT →
  read_and_drop (-1 :: reads) avail = read_and_drop reads (avail + 1).
Proof.
  intros H. simpl.
  rewrite (to_gint_id (avail - -1)) by (unfold G_MININT, G_MAXINT in *; lia).
  replace (avail - -1) with (avail + 1) by lia.
  by destruct (Z.ltb_spec 0 (avail + 1)); [| lia].
Qed.

(** C3, where the code departs from it: one byte is available, the first
    [read] fails with -1 and the second reads 2 bytes.  The handler
    returns TRUE and leaves the status as it was, and the client, served
    with these answers, stays in the table with the status OK. *)
Theorem handle_client_read_ignores_failed_read :
  (∀ c : GstTCPClient,
     gst_multi_fd_sink_handle_client_read 0 1 [-1; 2] c = Some (true, c))
  ∧ let c := Example.served_client 7 0 (-1) in
    let s := Example.sink_with Example.default_props [Example.delta 1] [c] in
    handle_clients_client (mkPollEvents false false true false)
      (mkServeEnv 10 0 1 [-1; 2] []) 1%positive s
    = Some s.
Proof.
  split.
  - intros c. reflexivity.
  - intros c s. vm_compute. reflexivity.
Qed.

(** ** [render] of a header buffer *)

(** The removal procedure, and with it the client loop of the producer
    path, leave the flags of the sink and the stream-header set alone. *)
Lemma remove_client_link_header_state (now : Z) (l : loc)
    (s s' : GstMultiFdSink) :
  gst_multi_fd_sink_remove_client_link now l s = Some s' →
  sink_open s' = sink_open s
  ∧ previous_buffer_in_caps s' = previous_buffer_in_caps s
  ∧ streamheader s' = streamheader s.
Proof.
  unfold gst_multi_fd_sink_remove_client_link.
  destruct (store s !! l) as [c|]; [simpl | done].
  destruct (currently_removing (mh c)); intros [= <-]; by destruct s.
Qed.

Lemma queue_buffer_client_header_state (now max_buffers soft_max_buffers : Z)
    (l : loc) (w w' : walk) :
  queue_buffer_client now max_buffers soft_max_buffers l w = Some w' →
  sink_open (w_sink w') = sink_open (w_sink w)
  ∧ previous_buffer_in_caps (w_sink w') = previous_buffer_in_caps (w_sink w)
  ∧ streamheader (w_sink w') = streamheader (w_sink w).
Proof.
  unfold queue_buffer_client.
  destruct (store (w_sink w) !! l) as [c|]; [simpl | done].
  match goal with |- context [mbind _ ?x] => destruct x as [c'|] end;
    [simpl | done].
  destruct (_ || _).
  - destruct (gst_multi_fd_sink_remove_client_link _ _ _) as [s'|] eqn:Hrm;
      [simpl | done].
    intros [= <-]. simpl.
    apply remove_client_link_header_state in Hrm. by destruct (w_sink w).
  - destruct (_ || _); intros [= <-]; by destruct (w_sink w).
Qed.

Lemma queue_buffer_walk_header_state
    (now max_buffers soft_max_buffers cookie : Z) (links : list loc) :
  ∀ (w w' : walk) (restart : bool),
    queue_buffer_walk now max_buffers soft_max_buffers cookie links w
    = Some (w', restart) →
    sink_open (w_sink w') = sink_open (w_sink w)
    ∧ previous_buffer_in_caps (w_sink w') = previous_buffer_in_caps (w_sink w)
    ∧ streamheader (w_sink w') = streamheader (w_sink w).
Proof.
  induction links as [|l links IH]; intros w w' restart; simpl.
  - by intros [= <- _].
  - destruct (negb _); [by intros [= <- _] |].
    destruct (queue_buffer_client _ _ _ _ _) as [w1|] eqn:Hw1; [simpl | done].
    apply queue_buffer_client_header_state in Hw1 as (Ho & Hp & Hs).
    intros H. apply IH in H as (Ho' & Hp' & Hs'). repeat split; congruence.
Qed.

Lemma queue_buffer_clients_header_state
    (now max_buffers soft_max_buffers : Z) (n : nat) :
  ∀ w w' : walk,
    queue_buffer_clients n now max_buffers soft_max_buffers w = Some w' →
    sink_open (w_sink w') = sink_open (w_sink w)
    ∧ previous_buffer_in_caps (w_sink w') = previous_buffer_in_caps (w_sink w)
    ∧ streamheader (w_sink w') = streamheader (w_sink w).
Proof.
  induction n as [|n IH]; intros w w'; simpl;
    destruct (queue_buffer_walk _ _ _ _ _ _) as [[w1 [|]]|] eqn:Hwalk;
    try done;
    apply queue_buffer_walk_header_state in Hwalk as (Ho & Hp & Hs).
  - by intros [= <-].
  - intros H. apply IH in H as (Ho' & Hp' & Hs'). repeat split; congruence.
  - by intros [= <-].
Qed.

Lemma queue_buffer_header_state (now : Z) (buf : GstBuffer)
    (s s' : GstMultiFdSink) :
  gst_multi_fd_sink_queue_buffer now buf s = Some s' →
  sink_open s' = sink_open s
  ∧ previous_buffer_in_caps s' = previous_buffer_in_caps s
  ∧ streamheader s' = streamheader s.
Proof.
  unfold gst_multi_fd_sink_queue_buffer.
  destruct (queue_buffer_clients _ _ _ _ _) as [w|] eqn:Hw; [simpl | done].
  apply queue_buffer_clients_header_state in Hw as (Ho & Hp & Hs).
  simpl in Ho, Hp, Hs.
  destruct (find_limits _ _ _ _ _ _ _) as [lim|]; [simpl | done].
  intros [= <-].
  destruct (w_need_signal w); destruct (w_sink w); destruct s; simpl in *;
    done.
Qed.

(** [render] on an open sink leaves it open, and leaves in
    [previous_buffer_in_caps] whether the buffer it was given carries the
    header flag; a data buffer leaves the stream-header set as it is. *)
Lemma render_records_header_flag (now : Z) (buf : GstBuffer)
    (s s' : GstMultiFdSink) (ret : GstFlowReturn) :
  sink_open s = true →
  gst_multi_fd_sink_render now buf s = Some (ret, s') →
  sink_open s' = true
  ∧ previous_buffer_in_caps s' = buf_header buf
  ∧ (buf_header buf = false → streamheader s' = streamheader s).
Proof.
  intros Hopen. unfold gst_multi_fd_sink_render. rewrite Hopen. simpl.
  destruct (buf_header buf); simpl.
  - intros [= _ <-]. by destruct (negb _), s.
  - destruct (gst_multi_fd_sink_queue_buffer _ _ _) as [s1|] eqn:Hq;
      [simpl | done].
    apply queue_buffer_header_state in Hq as (Ho & Hp & Hs).
    intros [= _ <-]. destruct s1, s; simpl in *. by subst.
Qed.

(** [render] of a buffer with the header flag, by the flag that the sink
    holds. *)
Lemma render_header_by_flag (now : Z) (buf : GstBuffer) (s : GstMultiFdSink) :
  sink_open s = true → buf_header buf = true →
  gst_multi_fd_sink_render now buf s
  = Some (GST_FLOW_OK,
          set_streamheader
            ((if previous_buffer_in_caps s then streamheader s else []) ++ [buf])
            (set_previous_buffer_in_caps true s)).
Proof.
  intros Hopen Hhdr.
  unfold gst_multi_fd_sink_render. rewrite Hopen, Hhdr. simpl.
  by destruct (previous_buffer_in_caps s).
Qed.

(** C9: [prev] is the buffer rendered before [buf], and [s] the sink
    that its render left.  A buffer with the header flag, rendered after
    a buffer without, replaces the stream-header set, whatever the set
    was; rendered after a header buffer, it is appended to the set as
    that buffer left it.  In both cases nothing else changes but
    [previous_buffer_in_caps]: the buffer does not enter the queue, and
    the sink stays open for the next buffer. *)
Theorem render_header_buffer (now0 now : Z) (prev buf : GstBuffer)
    (s0 s : GstMultiFdSink) (ret0 : GstFlowReturn) :
  sink_open s0 = true →
  gst_multi_fd_sink_render now0 prev s0 = Some (ret0, s) →
  buf_header buf = true →
  ∃ s' : GstMultiFdSink,
    gst_multi_fd_sink_render now buf s = Some (GST_FLOW_OK, s')
    ∧ streamheader s'
      = (if buf_header prev then streamheader s else []) ++ [buf]
    ∧ s' = set_streamheader (streamheader s')
             (set_previous_buffer_in_caps true s)
    ∧ bufqueue s' = bufqueue s
    ∧ previous_buffer_in_caps s = buf_header prev
    ∧ sink_open s' = true
    ∧ previous_buffer_in_caps s' = true.
Proof.
  intros Hopen0 Hprev Hhdr.
  destruct (render_records_header_flag now0 prev s0 s ret0 Hopen0 Hprev)
    as (Hopen & Hflag & _).
  eexists. split; [by apply render_header_by_flag |].
  rewrite Hflag. destruct s; simpl in *. by subst.
Qed.

(** A sink that holds the header [h5] from an earlier run.  After a data
    buffer, the header [h10] replaces the set; after [h10], the header
    [h20] is appended to it: the set is the run of headers [h10; h20],
    and the queue holds the data buffer alone. *)
Lemma render_header_buffer_witness :
  let s0 := set_streamheader [Example.header 5]
              (Example.sink_with Example.default_props [] []) in
  ∃ s1 s2 s3 : GstMultiFdSink,
    (sink_open s0 = true
     ∧ gst_multi_fd_sink_render 0 (Example.delta 1) s0 = Some (GST_FLOW_OK, s1)
     ∧ buf_header (Example.header 10) = true)
    ∧ gst_multi_fd_sink_render 1 (Example.header 10) s1
      = Some (GST_FLOW_OK, s2)
    ∧ streamheader s2 = [Example.header 10]
    ∧ (sink_open s1 = true ∧ buf_header (Example.header 20) = true)
    ∧ gst_multi_fd_sink_render 2 (Example.header 20) s2
      = Some (GST_FLOW_OK, s3)
    ∧ streamheader s3 = [Example.header 10; Example.header 20]
    ∧ bufqueue s3 = [Example.delta 1].
Proof.
  intros s0.
  assert (H1 : sink_open s0 = true) by reflexivity.
  assert (H2 : ∃ s1, gst_multi_fd_sink_render 0 (Example.delta 1) s0
                     = Some (GST_FLOW_OK, s1))
    by (eexists; vm_compute; reflexivity).
  destruct H2 as [s1 H2].
  assert (H3 : buf_header (Example.header 10) = true) by reflexivity.
  assert (H4 : buf_header (Example.header 20) = true) by reflexivity.
  destruct (render_header_buffer 0 1 (Example.delta 1) (Example.header 10)
              s0 s1 GST_FLOW_OK H1 H2 H3)
    as (s2 & Hr2 & Hsh2 & _ & Hq2 & _ & _ & _).
  assert (Ho1 : sink_open s1 = true).
  { vm_compute in H2. by injection H2 as <-. }
  destruct (render_header_buffer 1 2 (Example.header 10) (Example.header 20)
              s1 s2 GST_FLOW_OK Ho1 Hr2 H4)
    as (s3 & Hr3 & Hsh3 & _ & Hq3 & _ & _ & _).
  exists s1, s2, s3.
  split; [done |]. split; [exact Hr2 |]. split; [exact Hsh2 |].
  split; [done |]. split; [exact Hr3 |].
  split; [by rewrite Hsh3, Hsh2 |].
  rewrite Hq3, Hq2. vm_compute in H2. by injection H2 as <-.
Defined.

(** ** The loops of the producer path *)

(** The trimming loop keeps the buffers at the indices up to
    [max_buffer_usage]. *)
Lemma trim_queue_take (q : list GstBuffer) (max_buffer_usage : Z) :
  0 ≤ max_buffer_usage →
  trim_queue (length q) max_buffer_usage q
  = take (Z.to_nat (max_buffer_usage + 1)) q.
Proof.
  intros Hu.
  induction q as [|b q IH] using rev_ind; [by rewrite take_nil |].
  rewrite length_app. simpl. rewrite Nat.add_1_r. simpl.
  destruct (Z.ltb_spec max_buffer_usage (Z.of_nat (length q))) as [Hlt | Hge].
  - assert (delete (length q) (q ++ [b]) = q) as ->.
    { rewrite delete_middle. apply app_nil_r. }
    rewrite IH, take_app_le; [done | lia].
  - rewrite take_ge; [done |]. rewrite length_app. simpl. lia.
Qed.

Lemma g_list_remove_length (ls : list loc) (l : loc) :
  l ∈ ls → (length (g_list_remove ls l) < length ls)%nat.
Proof.
  induction ls as [|x ls IH]; [by intros ?%elem_of_nil |].
  intros Hin. simpl. destruct (decide (x = l)) as [-> | Hne]; [lia |].
  apply elem_of_cons in Hin as [-> | Hin]; [done |].
  simpl. apply IH in Hin. lia.
Qed.

Lemma cookie_bump_differs (cookie : Z) : to_guint (cookie + 1) ≠ cookie.
Proof.
  unfold to_guint, wrap_unsigned.
  pose proof (Z.mod_pos_bound (cookie + 1) (2 ^ 32)) as Hb.
  intros Heq.
  destruct (Z.ltb_spec (cookie + 1) (2 ^ 32)).
  - rewrite Z.mod_small in Heq; lia.
  - assert (cookie + 1 = 2 ^ 32) as Hc by lia.
    rewrite Hc, Z.mod_same in Heq; lia.
Qed.

(** The removal procedure leaves the list and the cookie as they are, for
    a client that is being removed already, or takes the client off the
    list and bumps the cookie. *)
Lemma remove_client_link_clients (now : Z) (l : loc) (s s' : GstMultiFdSink) :
  gst_multi_fd_sink_remove_client_link now l s = Some s' →
  (clients s' = clients s ∧ clients_cookie s' = clients_cookie s)
  ∨ (clients s' = g_list_remove (clients s) l
     ∧ clients_cookie s' = to_guint (clients_cookie s + 1)).
Proof.
  unfold gst_multi_fd_sink_remove_client_link.
  destruct (store s !! l) as [c|]; [simpl | done].
  destruct (currently_removing (mh c)).
  - intros [= <-]. by left.
  - intros [= <-]. right. by destruct s.
Qed.

(** So does the body of the client loop. *)
Lemma queue_buffer_client_clients (now max_buffers soft_max_buffers : Z)
    (l : loc) (w w' : walk) :
  queue_buffer_client now max_buffers soft_max_buffers l w = Some w' →
  (clients (w_sink w') = clients (w_sink w)
   ∧ clients_cookie (w_sink w') = clients_cookie (w_sink w))
  ∨ (clients (w_sink w') = g_list_remove (clients (w_sink w)) l
     ∧ clients_cookie (w_sink w') = to_guint (clients_cookie (w_sink w) + 1)).
Proof.
  unfold queue_buffer_client.
  destruct (store (w_sink w) !! l) as [c|]; [simpl | done].
  match goal with |- context [mbind _ ?x] => destruct x as [c'|] end;
    [simpl | done].
  destruct (_ || _).
  - destruct (gst_multi_fd_sink_remove_client_link _ _ _) as [s'|] eqn:Hrm;
      [simpl | done].
    intros [= <-]. simpl.
    apply remove_client_link_clients in Hrm. by destruct (w_sink w).
  - destruct (_ || _); intros [= <-]; left; by destruct (w_sink w).
Qed.

(** A walk that ends on an outdated cookie has taken a client off the
    list. *)
Lemma queue_buffer_walk_restart (now max_buffers soft_max_buffers : Z)
    (links : list loc) :
  ∀ (pre : list loc) (w w' : walk),
    clients (w_sink w) = pre ++ links →
    queue_buffer_walk now max_buffers soft_max_buffers
      (clients_cookie (w_sink w)) links w = Some (w', true) →
    (length (clients (w_sink w')) < length (clients (w_sink w)))%nat.
Proof.
  induction links as [|l next IH]; intros pre w w' Hlist; simpl; [done |].
  rewrite Z.eqb_refl. simpl.
  destruct (queue_buffer_client _ _ _ l w) as [w1|] eqn:Hbody; [simpl | done].
  apply queue_buffer_client_clients in Hbody as [[Hcl Hck] | [Hcl Hck]].
  - rewrite <- Hck, <- Hcl. apply (IH (pre ++ [l])).
    by rewrite Hcl, Hlist, <- app_assoc.
  - destruct next as [|l' next']; simpl; [done |].
    destruct (Z.eqb_spec (clients_cookie (w_sink w)) (clients_cookie (w_sink w1)))
      as [Heq | _]; simpl.
    { rewrite Hck in Heq. symmetry in Heq. by apply cookie_bump_differs in Heq. }
    intros [= <-]. rewrite Hcl. apply g_list_remove_length.
    rewrite Hlist. apply elem_of_app. right. apply elem_of_cons. by left.
Qed.

(** The restarts given to the client loop are enough: with as many
    restarts as there are clients, or more, its result is the same. *)
Lemma queue_buffer_clients_restarts (now max_buffers soft_max_buffers : Z)
    (n : nat) :
  ∀ (m : nat) (w : walk),
    (length (clients (w_sink w)) ≤ n)%nat → (n ≤ m)%nat →
    queue_buffer_clients n now max_buffers soft_max_buffers w
    = queue_buffer_clients m now max_buffers soft_max_buffers w.
Proof.
  induction n as [|n IH]; intros m w Hlen Hm.
  - destruct m as [|m]; [done |]. simpl.
    destruct (queue_buffer_walk _ _ _ _ _ w) as [[w' [|]]|] eqn:Hwalk; try done.
    apply (queue_buffer_walk_restart _ _ _ _ []) in Hwalk; [lia | done].
  - destruct m as [|m]; [lia |]. simpl.
    destruct (queue_buffer_walk _ _ _ _ _ w) as [[w' [|]]|] eqn:Hwalk; try done.
    apply (queue_buffer_walk_restart _ _ _ _ []) in Hwalk; [| done].
    apply IH; lia.
Qed.

(** ** Positions after a write *)

(** The indices that [find_limits] returns are indices of the queue. *)
Lemma find_limits_loop_range (bymax tmax : Z) (rest : list GstBuffer) :
  ∀ (s : scan) (mi ma : Z) (r : bool),
    0 ≤ sc_i s → (sc_max_hit s = true → 1 ≤ sc_i s) →
    (sc_min_idx s = -1
     ∨ 0 ≤ sc_min_idx s < sc_i s + Z.of_nat (length rest)) →
    find_limits_loop bymax tmax rest s = (mi, ma, r) →
    (mi = -1 ∨ 0 ≤ mi < sc_i s + Z.of_nat (length rest))
    ∧ (ma = -1 ∨ 0 ≤ ma < sc_i s + Z.of_nat (length rest)).
Proof.
  induction rest as [|buf rest IH]; intros s mi ma r Hi Hhit Hmin; simpl.
  - intros [= <- <- _]. split; [done | by left].
  - assert (Hcheck : scan_check_min s = -1
                     ∨ 0 ≤ scan_check_min s < sc_i s + Z.of_nat (S (length rest))).
    { unfold scan_check_min. rewrite MAX_max.
      destruct (_ && _); [right; lia | done]. }
    destruct (sc_max_hit s) eqn:Hmax.
    + intros [= <- <- _]. split; [done |]. right.
      specialize (Hhit eq_refl). lia.
    + intros Hloop. apply IH in Hloop; simpl; [| lia | lia | lia].
      simpl in Hloop. lia.
Qed.

Lemma find_limits_range (q : list GstBuffer)
    (bymin bumin tmin bymax bumax tmax : Z) (lim : limits) :
  Z.of_nat (length q) ≤ G_MAXINT →
  find_limits q bymin bumin tmin bymax bumax tmax = Some lim →
  0 ≤ min_idx lim < Z.of_nat (length q)
  ∧ 0 ≤ max_idx lim < Z.of_nat (length q).
Proof.
  intros Hq. unfold find_limits.
  rewrite (queue_len_length q Hq), Nat2Z.id, firstn_all.
  destruct (Z.ltb_spec 0 (Z.of_nat (length q))) as [Hlen|]; [simpl | done].
  destruct (negb (bumin =? -1) && (Z.of_nat (length q) <? bumin)).
  - intros [= <-]. simpl. lia.
  - destruct (find_limits_loop _ _ _ _) as [[mi ma] r] eqn:Hloop.
    apply find_limits_loop_range in Hloop; simpl; [| lia | done | by left].
    simpl in Hloop. intros [= <-]. simpl.
    destruct (Z.eqb_spec ma (-1)), (Z.eqb_spec mi (-1)); lia.
Qed.

Lemma find_next_syncframe_from_range (rest : list GstBuffer) :
  ∀ i : Z,
    find_next_syncframe_from rest i = -1
    ∨ i ≤ find_next_syncframe_from rest i < i + Z.of_nat (length rest).
Proof.
  induction rest as [|buf rest IH]; intros i; simpl; [by left |].
  destruct (is_sync_frame buf); [right; lia |].
  destruct (IH (i + 1)) as [-> | H]; [by left | right; lia].
Qed.

Lemma find_next_syncframe_range (q : list GstBuffer) (idx : Z) :
  find_next_syncframe q idx = -1
  ∨ 0 ≤ find_next_syncframe q idx < Z.of_nat (length q).
Proof.
  unfold find_next_syncframe.
  destruct (Z.ltb_spec idx 0) as [| Hidx]; [by left |].
  destruct (find_next_syncframe_from_range (drop (Z.to_nat idx) q) idx)
    as [-> | Hr]; [by left | right].
  rewrite length_drop in Hr. lia.
Qed.

Lemma find_prev_syncframe_from_range (q : list GstBuffer) (n : nat) :
  find_prev_syncframe_from q n = -1
  ∨ 0 ≤ find_prev_syncframe_from q n < Z.of_nat n.
Proof.
  induction n as [|n IH]; simpl; [by left |].
  destruct (q !! n) as [buf|]; [| by left].
  destruct (is_sync_frame buf); [right; lia |].
  destruct IH as [-> | H]; [by left | right; lia].
Qed.

Lemma find_prev_syncframe_range (q : list GstBuffer) (idx : Z) :
  Z.of_nat (length q) ≤ G_MAXINT →
  find_prev_syncframe q idx = -1
  ∨ 0 ≤ find_prev_syncframe q idx < Z.of_nat (length q).
Proof.
  intros Hq. unfold find_prev_syncframe. rewrite (queue_len_length q Hq).
  destruct (Z.ltb_spec idx 0) as [| Hidx]; [by left | simpl].
  destruct (Z.leb_spec (Z.of_nat (length q)) idx) as [| Hlt]; [by left |].
  destruct (find_prev_syncframe_from_range q (Z.to_nat (idx + 1)))
    as [-> | Hr]; [by left | right; lia].
Qed.

(** The sync policy gives -1 or an index of the queue, for a client whose
    position is -1 or an index of the queue. *)
Lemma new_client_position_range (q : list GstBuffer) (c c' : GstTCPClient)
    (position : Z) :
  Z.of_nat (length q) ≤ G_MAXINT →
  bufpos_valid q c →
  gst_multi_fd_sink_new_client q c = Some (position, c') →
  position = -1 ∨ 0 ≤ position < Z.of_nat (length q).
Proof.
  intros Hq Hvalid. unfold gst_multi_fd_sink_new_client, count_burst_unit.
  destruct (snd (assign_value (burst_min_unit c) _ _)) as [[bymin bumin] tmin].
  destruct (snd (assign_value (burst_max_unit c) _ _)) as [[bymax bumax] tmax].
  destruct (sync_method (mh c)).
  - intros [= <- _]. exact Hvalid.
  - pose proof (find_prev_syncframe_range q (bufpos (mh c)) Hq).
    destruct (negb _); by intros [= <- _].
  - pose proof (find_next_syncframe_range q 0).
    destruct (negb _); by intros [= <- _].
  - destruct (find_limits q _ _ _ _ _ _) as [lim|] eqn:Hlim; [simpl | done].
    apply (find_limits_range _ _ _ _ _ _ _ _ Hq) in Hlim.
    intros [= <- _]. right. unfold burst_start. rewrite MAX_max.
    destruct (_ && _); lia.
  - destruct (find_limits q _ _ _ _ _ _) as [lim|] eqn:Hlim; [simpl | done].
    apply (find_limits_range _ _ _ _ _ _ _ _ Hq) in Hlim.
    pose proof (find_next_syncframe_range q (min_idx lim)).
    pose proof (find_prev_syncframe_range q (min_idx lim) Hq).
    destruct (_ && _); [by intros [= <- _] |].
    destruct (negb _); intros [= <- _]; [done | by left].
  - destruct (find_limits q _ _ _ _ _ _) as [lim|] eqn:Hlim; [simpl | done].
    apply (find_limits_range _ _ _ _ _ _ _ _ Hq) in Hlim.
    pose proof (find_next_syncframe_range q (min_idx lim)).
    destruct (_ && _); [by intros [= <- _] |].
    intros [= <- _]. right. unfold burst_start. rewrite MAX_max.
    destruct (_ && _); lia.
Qed.

Lemma new_client_keeps_bufpos_valid (q : list GstBuffer) (c c' : GstTCPClient)
    (position : Z) :
  bufpos_valid q c →
  gst_multi_fd_sink_new_client q c = Some (position, c') →
  bufpos_valid q c'.
Proof.
  intros Hvalid. unfold gst_multi_fd_sink_new_client.
  destruct (sync_method (mh c)).
  - by intros [= _ <-].
  - destruct (negb _); intros [= _ <-]; [done | by left].
  - destruct (negb _); intros [= _ <-]; [done | by left].
  - destruct (count_burst_unit _ _ _ _ _); [simpl | done]. by intros [= _ <-].
  - destruct (count_burst_unit _ _ _ _ _); [simpl | done].
    destruct (_ && _); [by intros [= _ <-] |].
    destruct (negb _); intros [= _ <-]; [done | by left].
  - destruct (count_burst_unit _ _ _ _ _); [simpl | done].
    destruct (_ && _); by intros [= _ <-].
Qed.

Lemma client_queue_buffer_bufpos (s : GstMultiFdSink) (buf : GstBuffer)
    (c : GstTCPClient) :
  bufpos (mh (gst_multi_fd_sink_client_queue_buffer s buf c)) = bufpos (mh c).
Proof.
  unfold gst_multi_fd_sink_client_queue_buffer.
  destruct (match caps (mh c) with Some _ => _ | None => _ end); [| done].
  by destruct (caps_streamheader (pad_caps s)).
Qed.

(** Picking a buffer leaves the queue as it is and the client at -1 or at
    an index of the queue. *)
Lemma pick_buffer_bufpos_valid (flushing : bool) (s s' : GstMultiFdSink)
    (c c' : GstTCPClient) (p : Picked) :
  Z.of_nat (length (bufqueue s)) ≤ G_MAXINT →
  bufpos_valid (bufqueue s) c →
  pick_buffer flushing s c = Some (p, s', c') →
  bufqueue s' = bufqueue s ∧ bufpos_valid (bufqueue s) c'.
Proof.
  intros Hq Hvalid. unfold pick_buffer.
  destruct (sending (mh c)); [| by intros [= _ <- <-]].
  destruct (Z.eqb_spec (bufpos (mh c)) (-1)) as [Hwait | Hpos].
  { destruct (flushcount (mh c) =? 0); intros [= _ <- <-];
      (split; [by destruct s | done]). }
  assert (Hplaced :
    ∀ placed : option (GstTCPClient + GstTCPClient),
      placed = (if new_connection (mh c) && negb flushing then
                  '(position, c) ← gst_multi_fd_sink_new_client (bufqueue s) c;
                  if 0 <=? position then
                    Some (inl (on_mh (set_bufpos position)
                                 (on_mh (set_new_connection false) c)))
                  else Some (inr c)
                else Some (inl c)) →
      match placed with
      | Some (inl c1) => 0 ≤ bufpos (mh c1) < Z.of_nat (length (bufqueue s))
      | Some (inr c1) => bufpos_valid (bufqueue s) c1
      | None => True
      end).
  { intros placed ->. destruct (_ && _).
    - destruct (gst_multi_fd_sink_new_client (bufqueue s) c)
        as [[position c1]|] eqn:Hnew; [simpl | done].
      pose proof (new_client_position_range _ _ _ _ Hq Hvalid Hnew).
      pose proof (new_client_keeps_bufpos_valid _ _ _ _ Hvalid Hnew).
      destruct (Z.leb_spec 0 position); [simpl; lia | done].
    - unfold bufpos_valid in Hvalid. lia. }
  specialize (Hplaced _ eq_refl).
  destruct (if new_connection (mh c) && negb flushing then _ else _)
    as [[c1 | c1]|]; [simpl | simpl | done].
  - destruct (flushcount (mh c1) =? 0).
    { intros [= _ <- <-]. split; [done | by right]. }
    destruct (g_array_index _ _) as [buf|]; [simpl | done].
    intros [= _ <- <-]. split; [done |]. unfold bufpos_valid.
    cbn [bufpos mh on_mh set_mh set_bufoffset].
    rewrite client_queue_buffer_bufpos.
    assert (to_gint (bufpos (mh c1) - 1) = bufpos (mh c1) - 1) as Hdec
      by (apply to_gint_id; unfold G_MININT, G_MAXINT in *; lia).
    repeat match goal with
           | |- context [if ?b then _ else _] => destruct b
           end; simpl; rewrite Hdec; lia.
  - intros [= _ <- <-]. split; [by destruct s | done].
Qed.

(** The write handler leaves the queue as it is and the client at -1 or
    at an index of the queue: the invariant on positions is kept on the
    write side. *)
Lemma handle_client_write_bufpos_valid (now : Z) (writes : list WriteResult) :
  ∀ (s s' : GstMultiFdSink) (c c' : GstTCPClient) (ret : bool),
    Z.of_nat (length (bufqueue s)) ≤ G_MAXINT →
    bufpos_valid (bufqueue s) c →
    gst_multi_fd_sink_handle_client_write now writes s c = Some (ret, s', c') →
    bufqueue s' = bufqueue s ∧ bufpos_valid (bufqueue s') c'.
Proof.
  unfold gst_multi_fd_sink_handle_client_write. intros s s' c.
  generalize (bool_decide (status (mh c) = GST_CLIENT_STATUS_FLUSHING)).
  intros flushing. revert s s' c.
  induction writes as [|w ws IH]; intros s s' c c' ret Hq Hvalid; simpl;
    (destruct (pick_buffer flushing s c) as [[[picked s1] c1]|] eqn:Hpick;
       [simpl | done]);
    apply (pick_buffer_bufpos_valid _ _ _ _ _ _ Hq Hvalid) in Hpick
      as [Hq1 Hv1];
    (destruct picked; [intros [= <- <- <-]; by rewrite Hq1 |]);
    (destruct (sending (mh c1)) as [|head tl]; [done |]); [done |].
  destruct (wrote w <? 0).
  { destruct (write_errno w); intros [= <- <- <-]; by rewrite Hq1. }
  destruct (wrote w <? _).
  { intros [= <- <- <-]. split; [by destruct s1 |].
    destruct s1; simpl in *. by rewrite Hq1. }
  intros Hloop. apply IH in Hloop as [Hq2 Hv2].
  - split; [| done]. rewrite Hq2, <- Hq1. by destruct s1.
  - destruct s1; simpl in *. by rewrite Hq1.
  - destruct s1; simpl in *. by rewrite Hq1.
Qed.

(** ** Positions after [render], when no client is removed *)

Lemma resync_keyframe_scan_range (q : list GstBuffer) (n : nat) (r : Z) :
  resync_keyframe_scan q n = Some r → -1 ≤ r < Z.of_nat n.
Proof.
  induction n as [|n IH]; simpl; [intros [= <-]; lia |].
  destruct (q !! n) as [buf|]; [| done].
  destruct (is_sync_frame buf); [intros [= <-]; lia |].
  intros H. apply IH in H. lia.
Qed.

(** Past a positive soft maximum, the recover policy moves a client to -1
    or to an index not above its position. *)
Lemma recover_client_range (p : SinkProps) (q : list GstBuffer)
    (c : GstTCPClient) (newpos : Z) :
  (0 < length q)%nat → Z.of_nat (length q) ≤ G_MAXINT →
  0 < get_buffers_max (unit_type p) q (units_soft_max p) ≤ bufpos (mh c) →
  gst_multi_fd_sink_recover_client p q c = Some newpos →
  -1 ≤ newpos ≤ bufpos (mh c).
Proof.
  intros Hpos Hq Hsoft. unfold gst_multi_fd_sink_recover_client.
  destruct (recover_policy p).
  - intros [= <-]. lia.
  - intros [= <-]. lia.
  - intros [= <-]. lia.
  - rewrite (resync_keyframe_start_min p q Hpos Hq) by lia.
    set (start := Z.min _ _).
    destruct (Z.ltb_spec start 0) as [| Hstart]; [lia |].
    intros Hscan. apply resync_keyframe_scan_range in Hscan. lia.
Qed.

Section render_without_removal.

Variables (now max_buffers soft_max_buffers : Z) (q : list GstBuffer)
  (p : SinkProps).

(** Neither the hard maximum nor the timeout is set, and the soft maximum
    is unset or what [get_buffers_max] gives on the queue [q]. *)
Hypothesis Hhard : max_buffers ≤ 0.
Hypothesis Htimeout : timeout p ≤ 0.
Hypothesis Hsoft :
  soft_max_buffers ≤ 0
  ∨ soft_max_buffers = get_buffers_max (unit_type p) q (units_soft_max p).
Hypothesis Hq : Z.of_nat (length q) ≤ G_MAXINT.
Hypothesis Hq_pos : (0 < length q)%nat.

(** The body of the client loop, for a client at -1 or at an index of the
    queue before the prepend: it writes the client back, at -1 or at an
    index of [q], and counts its position in [max_buffer_usage]. *)
Lemma queue_buffer_client_keeps (l : loc) (w w' : walk) (c : GstTCPClient) :
  props (w_sink w) = p → bufqueue (w_sink w) = q →
  store (w_sink w) !! l = Some c →
  -1 ≤ bufpos (mh c) < Z.of_nat (length q) - 1 →
  queue_buffer_client now max_buffers soft_max_buffers l w = Some w' →
  ∃ c' : GstTCPClient,
    store (w_sink w') = <[l := c']> (store (w_sink w))
    ∧ props (w_sink w') = p ∧ bufqueue (w_sink w') = q
    ∧ clients (w_sink w') = clients (w_sink w)
    ∧ clients_cookie (w_sink w') = clients_cookie (w_sink w)
    ∧ -1 ≤ bufpos (mh c') < Z.of_nat (length q)
    ∧ bufpos (mh c') ≤ w_max_buffer_usage w'
    ∧ w_max_buffer_usage w ≤ w_max_buffer_usage w'.
Proof.
  intros Hp Hqueue Hc Hpos. unfold queue_buffer_client.
  rewrite Hc, Hp, Hqueue. simpl.
  assert (Hinc : to_gint (bufpos (mh c) + 1) = bufpos (mh c) + 1)
    by (apply to_gint_id; unfold G_MININT, G_MAXINT in *; lia).
  rewrite Hinc.
  set (c1 := on_mh (set_bufpos (bufpos (mh c) + 1)) c).
  assert (Hc1 : bufpos (mh c1) = bufpos (mh c) + 1) by done.
  assert (Hrec :
    ∀ c2 : GstTCPClient,
      (if (0 <? soft_max_buffers) && (soft_max_buffers <=? bufpos (mh c) + 1)
       then
         newpos ← gst_multi_fd_sink_recover_client p q c1;
         if negb (newpos =? bufpos (mh c) + 1) then
           let c3 :=
             on_mh (set_dropped_buffers
                      (to_guint64 (dropped_buffers (mh c1)
                                   + to_gint (bufpos (mh c) + 1 - newpos)))) c1 in
           Some (on_mh (set_discont true) (on_mh (set_bufpos newpos) c3))
         else Some c1
       else Some c1) = Some c2 →
      -1 ≤ bufpos (mh c2) < Z.of_nat (length q)).
  { intros c2.
    destruct (Z.ltb_spec 0 soft_max_buffers) as [Hs | Hs]; simpl;
      [| intros [= <-]; lia].
    destruct (Z.leb_spec soft_max_buffers (bufpos (mh c) + 1)) as [Hle | Hgt];
      [| intros [= <-]; lia].
    destruct Hsoft as [Hs' | Hs']; [lia |].
    destruct (gst_multi_fd_sink_recover_client p q c1) as [newpos|] eqn:Hnew;
      [simpl | done].
    apply recover_client_range in Hnew; [| done | done | rewrite Hc1; lia].
    rewrite Hc1 in Hnew.
    destruct (negb _); intros [= <-]; simpl; lia. }
  change (bufpos (mh c1)) with (bufpos (mh c) + 1).
  destruct (if (0 <? soft_max_buffers) && _ then _ else _) as [c2|] eqn:Hc2;
    [simpl | done].
  specialize (Hrec c2 eq_refl). clear Hc2. rename Hrec into Hc2.
  assert (Hno : (0 <? max_buffers) && (max_buffers <=? bufpos (mh c2))
                || (0 <? timeout p)
                   && (timeout p <? to_guint64 (now - last_activity_time (mh c2)))
                = false).
  { destruct (Z.ltb_spec 0 max_buffers); [lia |].
    destruct (Z.ltb_spec 0 (timeout p)); [lia | done]. }
  rewrite Hno.
  destruct ((bufpos (mh c2) =? 0) || new_connection (mh c2));
    intros [= <-]; exists c2; simpl;
    destruct (w_sink w); simpl in *;
    destruct (Z.ltb_spec (w_max_buffer_usage w) (bufpos (mh c2)));
    repeat split; try done; lia.
Qed.

(** A walk along clients that are each once on the list: it does not
    restart, and leaves each of them at -1 or at an index of [q] that
    [max_buffer_usage] counts; it leaves the other clients as they are. *)
Lemma queue_buffer_walk_keeps (links : list loc) :
  ∀ (w w' : walk) (restart : bool),
    NoDup links →
    props (w_sink w) = p → bufqueue (w_sink w) = q →
    (∀ l : loc, l ∈ links →
       ∃ c : GstTCPClient,
         store (w_sink w) !! l = Some c
         ∧ -1 ≤ bufpos (mh c) < Z.of_nat (length q) - 1) →
    queue_buffer_walk now max_buffers soft_max_buffers
      (clients_cookie (w_sink w)) links w = Some (w', restart) →
    restart = false
    ∧ props (w_sink w') = p ∧ bufqueue (w_sink w') = q
    ∧ clients (w_sink w') = clients (w_sink w)
    ∧ w_max_buffer_usage w ≤ w_max_buffer_usage w'
    ∧ (∀ l : loc, l ∈ links →
         ∃ c' : GstTCPClient,
           store (w_sink w') !! l = Some c'
           ∧ -1 ≤ bufpos (mh c') < Z.of_nat (length q)
           ∧ bufpos (mh c') ≤ w_max_buffer_usage w')
    ∧ (∀ l : loc, l ∉ links → store (w_sink w') !! l = store (w_sink w) !! l).
Proof.
  induction links as [|l next IH]; intros w w' restart Hnd Hp Hqueue Hold; simpl.
  - intros [= <- <-]. repeat split; try done; try lia.
    intros l Hl. by apply elem_of_nil in Hl.
  - rewrite Z.eqb_refl. simpl.
    apply NoDup_cons in Hnd as [Hl Hnd].
    destruct (Hold l) as (c & Hc & Hpos); [by left |].
    destruct (queue_buffer_client _ _ _ l w) as [w1|] eqn:Hbody; [simpl | done].
    destruct (queue_buffer_client_keeps l w w1 c Hp Hqueue Hc Hpos Hbody)
      as (c' & Hst & Hp1 & Hq1 & Hcl1 & Hck1 & Hc' & Hus & Hmono).
    rewrite <- Hck1. intros Hwalk.
    apply IH in Hwalk as (-> & Hp2 & Hq2 & Hcl2 & Hmono2 & Hin & Hout);
      [| done | done | done |].
    + split; [done |]. split; [done |]. split; [done |].
      split; [congruence |]. split; [lia |]. split.
      * intros l' [-> | Hl']%elem_of_cons; [| by apply Hin].
        exists c'. rewrite (Hout l Hl), Hst, lookup_insert_eq.
        split; [done |]. split; [done | lia].
      * intros l' Hl'. apply not_elem_of_cons in Hl' as [Hne Hl'].
        by rewrite (Hout l' Hl'), Hst, lookup_insert_ne.
    + intros l' Hl'. destruct (Hold l') as (c0 & Hc0 & Hpos0); [by right |].
      exists c0. split; [| done].
      rewrite Hst, lookup_insert_ne; [done |]. by intros ->.
Qed.

End render_without_removal.

(** With neither hard maximum nor timeout set, no client is removed by
    [render], and the invariant on positions is kept on the producer
    side. *)
Lemma queue_buffer_keeps_positions (now : Z) (buf : GstBuffer)
    (s s' : GstMultiFdSink) :
  units_max (props s) ≤ 0 → timeout (props s) ≤ 0 →
  table_wf s → bufpos_invariant s →
  Z.of_nat (length (bufqueue s)) < G_MAXINT →
  gst_multi_fd_sink_queue_buffer now buf s = Some s' →
  bufpos_invariant s'.
Proof.
  intros Hhard Htimeout [Hnd Hdom] Hinv Hlen.
  unfold gst_multi_fd_sink_queue_buffer.
  set (q := buf :: bufqueue s).
  set (s0 := set_bufqueue q s).
  assert (Hp0 : props s0 = props s) by (by destruct s).
  assert (Hq0 : bufqueue s0 = q) by (by destruct s).
  assert (Hst0 : store s0 = store s) by (by destruct s).
  assert (Hcl0 : clients s0 = clients s) by (by destruct s).
  rewrite Hq0, Hp0.
  assert (Hqlen : Z.of_nat (length q) ≤ G_MAXINT) by (subst q; simpl; lia).
  assert (Hqpos : (0 < length q)%nat) by (subst q; simpl; lia).
  destruct (Z.ltb_spec 0 (units_max (props s))); [lia |].
  set (soft := if 0 <? units_soft_max (props s) then _ else _).
  assert (Hwalk :
    ∀ n : nat,
      queue_buffer_clients n now (-1) soft (mkWalk s0 false 0)
      = match queue_buffer_walk now (-1) soft (clients_cookie s0) (clients s0)
                (mkWalk s0 false 0) with
        | Some (w, false) => Some w
        | Some (w, true) =>
            match n with
            | O => None
            | S n => queue_buffer_clients n now (-1) soft w
            end
        | None => None
        end) by (by intros []).
  rewrite Hwalk. clear Hwalk.
  destruct (queue_buffer_walk _ _ _ _ _ _) as [[w restart]|] eqn:Hw; [| done].
  assert (Hsoft : soft ≤ 0
                  ∨ soft = get_buffers_max (unit_type (props s)) q
                             (units_soft_max (props s))).
  { destruct (Z.ltb_spec 0 (units_soft_max (props s))); subst soft;
      [by right | by left]. }
  assert (Hold : ∀ l : loc, l ∈ clients s0 →
            ∃ c : GstTCPClient,
              store s0 !! l = Some c
              ∧ -1 ≤ bufpos (mh c) < Z.of_nat (length q) - 1).
  { intros l Hl. rewrite Hcl0 in Hl. apply Hdom in Hl as [c Hc].
    exists c. rewrite Hst0. split; [done |].
    specialize (Hinv l c Hc). unfold bufpos_valid in Hinv.
    subst q. simpl. lia. }
  assert (Hnd0 : NoDup (clients s0)) by (by rewrite Hcl0).
  destruct (queue_buffer_walk_keeps now (-1) soft q (props s)
              ltac:(lia) Htimeout Hsoft Hqlen Hqpos (clients s0)
              (mkWalk s0 false 0) w restart Hnd0 Hp0 Hq0 Hold Hw)
    as (-> & Hp1 & Hq1 & Hcl1 & Hus & Hin & Hout).
  - simpl. rewrite Hq1.
    destruct (find_limits q _ _ _ _ _ _) as [lim|] eqn:Hlim; [simpl | done].
    apply (find_limits_range _ _ _ _ _ _ _ _ Hqlen) in Hlim as [Hmin _].
    set (usage := if _ || _ then _ else _).
    assert (Husage : w_max_buffer_usage w ≤ usage ∧ 0 ≤ usage).
    { subst usage. simpl in Hus.
      assert (to_gint (min_idx lim + 1) = min_idx lim + 1) as Hinc
        by (apply to_gint_id; unfold G_MININT, G_MAXINT in *; lia).
      rewrite !MAX_max, Hinc.
      destruct (_ || _); [| lia].
      destruct (first_sync_point _ _); rewrite ?MAX_max; lia. }
    rewrite (queue_len_length q Hqlen), Nat2Z.id, trim_queue_take by lia.
    intros [= <-].
    assert (Hgoal : ∀ (l : loc) (c : GstTCPClient),
              store (w_sink w) !! l = Some c →
              bufpos_valid (take (Z.to_nat (usage + 1)) q) c).
    { intros l c Hc.
      destruct (decide (l ∈ clients s0)) as [Hl | Hl].
      - destruct (Hin l Hl) as (c' & Hc' & Hpos & Hle).
        rewrite Hc in Hc'. injection Hc' as <-.
        unfold bufpos_valid. rewrite length_take. lia.
      - rewrite (Hout l Hl) in Hc. simpl in Hc. exfalso. apply Hl.
        rewrite Hcl0. apply Hdom. by eexists. }
    destruct (w_need_signal w); intros l c Hc; apply (Hgoal l);
      by destruct (w_sink w).
Qed.

(** ** Positions after [render] *)

(** C5, where the code departs from it.  Three clients, in list order: A
    at position 0 of a queue of one buffer, B idle for longer than the
    timeout, and C.  [render] of a data buffer moves A to 1 and removes
    B; the removal changes the cookie, the client loop restarts at C and
    moves A once more, to 2.  The queue then holds 2 buffers: A, still
    OK, is left at a position outside the queue, and its next write reads
    the queue there. *)
Theorem render_restart_moves_client_twice :
  let p := mkProps GST_TCP_UNIT_TYPE_BUFFERS (-1) (-1)
             GST_RECOVER_POLICY_NONE 10 GST_SYNC_METHOD_LATEST
             GST_TCP_UNIT_TYPE_UNDEFINED 0 (-1) (-1) GST_CLOCK_TIME_NONE (-1)
             true true in
  let s := Example.sink_with p [Example.delta 1]
             [Example.served_client 7 95 0; Example.served_client 8 0 (-1);
              Example.client_at 9 95 (-1)] in
  bufpos_invariant s
  ∧ ∃ s' a,
      gst_multi_fd_sink_render 100 (Example.delta 1) s = Some (GST_FLOW_OK, s')
      ∧ store s' !! 1%positive = Some a
      ∧ status (mh a) = GST_CLIENT_STATUS_OK
      ∧ bufpos (mh a) = 2
      ∧ length (bufqueue s') = 2%nat
      ∧ ¬ bufpos_invariant s'
      ∧ gst_multi_fd_sink_handle_client_write 101 [mkWrite 1 EAGAIN] s' a = None.
Proof.
  intros p s. split.
  - apply (@bool_decide_unpack _ (bufpos_invariant_dec s)). vm_compute.
    exact I.
  - destruct (gst_multi_fd_sink_render 100 (Example.delta 1) s)
      as [[r s']|] eqn:Hrender; [| by vm_compute in Hrender].
    destruct (store s' !! 1%positive) as [a|] eqn:Ha.
    + exists s', a. vm_compute in Hrender.
      injection Hrender as <- <-. vm_compute in Ha. injection Ha as <-.
      repeat split.
      intros Hinv.
      apply (@bool_decide_pack _ (bufpos_invariant_dec _)) in Hinv.
      vm_compute in Hinv. exact Hinv.
    + vm_compute in Hrender. injection Hrender as <- <-. by vm_compute in Ha.
Qed.

(** * Further properties *)

(** ** What [get_buffers_max] counts *)

(** Without overflow, the bytes added in a [gint] are the sum of the
    sizes. *)
Lemma bytes_acc_sum (pre : list GstBuffer) :
  Forall (λ b, 0 ≤ buf_size b) pre →
  foldr (λ b acc, buf_size b + acc) 0 pre ≤ G_MAXINT →
  bytes_acc pre = foldr (λ b acc, buf_size b + acc) 0 pre.
Proof.
  induction pre as [|b pre IH] using rev_ind; [done |].
  intros [Hpre Hb]%Forall_app Hsum. rewrite Forall_singleton in Hb.
  assert (Hfold : ∀ l : list GstBuffer,
            Forall (λ b, 0 ≤ buf_size b) l →
            0 ≤ foldr (λ b acc, buf_size b + acc) 0 l).
  { induction l as [|x l IHl]; [done |].
    intros [Hx Hl]%Forall_cons. simpl. specialize (IHl Hl). lia. }
  assert (Happ : foldr (λ b acc, buf_size b + acc) 0 (pre ++ [b])
                 = foldr (λ b acc, buf_size b + acc) 0 pre + buf_size b).
  { clear. induction pre as [|x pre IHp]; simpl; lia. }
  rewrite Happ in *. rewrite bytes_acc_snoc, IH; [| done | lia].
  pose proof (Hfold pre Hpre).
  apply to_gint_id. unfold G_MININT, G_MAXINT in *. lia.
Qed.

Lemma get_buffers_max_bytes_spec (q : list GstBuffer) (max : Z)
    (rest : list GstBuffer) :
  ∀ n : nat,
    drop n q = rest →
    match get_buffers_max_bytes rest (Z.of_nat n) (bytes_acc (take n q)) max with
    | Some r =>
        ∃ m : nat, r = Z.of_nat m ∧ (n < m ≤ length q)%nat
                   ∧ max < bytes_acc (take m q)
                   ∧ ∀ k : nat, (n < k < m)%nat → bytes_acc (take k q) ≤ max
    | None =>
        ∀ k : nat, (n < k ≤ length q)%nat → bytes_acc (take k q) ≤ max
    end.
Proof.
  induction rest as [|buf rest IH]; intros n Hdrop; simpl.
  - intros k Hk. apply (f_equal length) in Hdrop.
    rewrite length_drop in Hdrop. simpl in Hdrop. lia.
  - assert (Hbuf : q !! n = Some buf).
    { rewrite <- (Nat.add_0_r n), <- lookup_drop, Hdrop. done. }
    assert (Hrest : drop (S n) q = rest).
    { rewrite (drop_S q buf n Hbuf) in Hdrop. by injection Hdrop. }
    assert (Hacc : to_gint (bytes_acc (take n q) + buf_size buf)
                   = bytes_acc (take (S n) q)).
    { by rewrite (take_S_r q n buf Hbuf), bytes_acc_snoc. }
    rewrite Hacc. apply lookup_lt_Some in Hbuf.
    destruct (Z.ltb_spec max (bytes_acc (take (S n) q))) as [Hlt | Hge].
    + exists (S n). split; [lia |]. split; [lia |]. split; [done |].
      intros k Hk. lia.
    + specialize (IH (S n) Hrest).
      replace (Z.of_nat n + 1) with (Z.of_nat (S n)) by lia.
      destruct (get_buffers_max_bytes rest _ _ max) as [r|].
      * destruct IH as (m & -> & Hm & Hmax & Hbelow).
        exists m. split; [done |]. split; [lia |]. split; [done |].
        intros k Hk. destruct (decide (k = S n)) as [-> | Hne]; [done |].
        apply Hbelow. lia.
      * intros k Hk. destruct (decide (k = S n)) as [-> | Hne]; [done |].
        apply IH. lia.
Qed.

(** With bytes as unit, [get_buffers_max] gives the least number of
    buffers, counted from the newest, whose bytes exceed [max], and
    [len + 1] when the whole queue does not exceed it. *)
Theorem get_buffers_max_bytes_least (q : list GstBuffer) (max : Z) :
  Z.of_nat (length q) < G_MAXINT →
  1 ≤ get_buffers_max GST_TCP_UNIT_TYPE_BYTES q max ≤ Z.of_nat (length q) + 1
  ∧ (get_buffers_max GST_TCP_UNIT_TYPE_BYTES q max ≤ Z.of_nat (length q) →
     max < bytes_acc
             (take (Z.to_nat (get_buffers_max GST_TCP_UNIT_TYPE_BYTES q max)) q))
  ∧ (∀ k : nat,
       (0 < k)%nat →
       Z.of_nat k < get_buffers_max GST_TCP_UNIT_TYPE_BYTES q max →
       bytes_acc (take k q) ≤ max).
Proof.
  intros Hq. unfold get_buffers_max.
  rewrite (queue_len_length q) by lia. rewrite Nat2Z.id, firstn_all.
  pose proof (get_buffers_max_bytes_spec q max q 0 eq_refl) as Hspec.
  change (Z.of_nat 0) with 0 in Hspec.
  change (bytes_acc (take 0 q)) with 0 in Hspec.
  destruct (get_buffers_max_bytes q 0 0 max) as [r|]; simpl.
  - destruct Hspec as (m & -> & Hm & Hmax & Hbelow).
    split; [lia |]. rewrite Nat2Z.id. split; [done |].
    intros k Hk Hkm. apply Hbelow. lia.
  - rewrite to_gint_id by (unfold G_MININT, G_MAXINT in *; lia).
    split; [lia |]. split; [lia |].
    intros k Hk Hkm. apply Hspec. lia.
Qed.

Lemma get_buffers_max_bytes_least_witness :
  let q := [Example.delta 500; Example.delta 500; Example.delta 500] in
  Z.of_nat (length q) < G_MAXINT
  ∧ get_buffers_max GST_TCP_UNIT_TYPE_BYTES q 700 = 2
  ∧ 1 ≤ get_buffers_max GST_TCP_UNIT_TYPE_BYTES q 700 ≤ Z.of_nat (length q) + 1.
Proof.
  intros q.
  assert (H : Z.of_nat (length q) < G_MAXINT) by (vm_compute; reflexivity).
  split; [exact H |]. split; [reflexivity |].
  exact (proj1 (get_buffers_max_bytes_least q 700 H)).
Defined.

Lemma time_gap_lookup (q : list GstBuffer) (n : nat) (buf : GstBuffer) :
  q !! n = Some buf →
  time_gap q n
  = if negb (buf_timestamp buf =? GST_CLOCK_TIME_NONE)
    then Some (to_gint64
                 ((if first_timestamp (take n q) =? GST_CLOCK_TIME_NONE
                   then buf_timestamp buf else first_timestamp (take n q))
                  - buf_timestamp buf))
    else None.
Proof.
  intros H. unfold time_gap. rewrite H. simpl.
  rewrite (take_S_r q n buf H), first_timestamp_snoc.
  by destruct (negb (buf_timestamp buf =? GST_CLOCK_TIME_NONE)).
Qed.

Lemma get_buffers_max_time_spec (q : list GstBuffer) (max : Z)
    (rest : list GstBuffer) :
  ∀ n : nat,
    drop n q = rest →
    match
      get_buffers_max_time rest (Z.of_nat n) (first_timestamp (take n q)) max
    with
    | Some r =>
        ∃ j : nat, r = Z.of_nat (S j) ∧ (n ≤ j < length q)%nat
                   ∧ (∃ d : Z, time_gap q j = Some d ∧ max < d)
                   ∧ ∀ (k : nat) (d : Z),
                       (n ≤ k < j)%nat → time_gap q k = Some d → d ≤ max
    | None =>
        ∀ (k : nat) (d : Z),
          (n ≤ k < length q)%nat → time_gap q k = Some d → d ≤ max
    end.
Proof.
  induction rest as [|buf rest IH]; intros n Hdrop; simpl.
  - intros k d Hk. apply (f_equal length) in Hdrop.
    rewrite length_drop in Hdrop. simpl in Hdrop. lia.
  - assert (Hbuf : q !! n = Some buf).
    { rewrite <- (Nat.add_0_r n), <- lookup_drop, Hdrop. done. }
    assert (Hrest : drop (S n) q = rest).
    { rewrite (drop_S q buf n Hbuf) in Hdrop. by injection Hdrop. }
    pose proof (time_gap_lookup q n buf Hbuf) as Hgap.
    assert (Hfirst : first_timestamp (take (S n) q)
                     = if negb (buf_timestamp buf =? GST_CLOCK_TIME_NONE)
                          && (first_timestamp (take n q) =? GST_CLOCK_TIME_NONE)
                       then buf_timestamp buf else first_timestamp (take n q)).
    { by rewrite (take_S_r q n buf Hbuf), first_timestamp_snoc. }
    specialize (IH (S n) Hrest).
    replace (Z.of_nat n + 1) with (Z.of_nat (S n)) by lia.
    pose proof (lookup_lt_Some _ _ _ Hbuf) as Hn.
    assert (Hgo :
      ∀ first : Z,
        first = first_timestamp (take (S n) q) →
        (∀ d : Z, time_gap q n = Some d → d ≤ max) →
        match get_buffers_max_time rest (Z.of_nat (S n)) first max with
        | Some r =>
            ∃ j : nat, r = Z.of_nat (S j) ∧ (n ≤ j < length q)%nat
                       ∧ (∃ d : Z, time_gap q j = Some d ∧ max < d)
                       ∧ ∀ (k : nat) (d : Z),
                           (n ≤ k < j)%nat → time_gap q k = Some d → d ≤ max
        | None =>
            ∀ (k : nat) (d : Z),
              (n ≤ k < length q)%nat → time_gap q k = Some d → d ≤ max
        end).
    { intros first -> Hle.
      destruct (get_buffers_max_time rest _ _ max) as [r|].
      - destruct IH as (j & -> & Hj & Hd & Hbelow).
        exists j. split; [done |]. split; [lia |]. split; [done |].
        intros k d Hk Hkd. destruct (decide (k = n)) as [-> | Hne]; [by apply Hle |].
        apply (Hbelow k); [lia | done].
      - intros k d Hk Hkd. destruct (decide (k = n)) as [-> | Hne]; [by apply Hle |].
        apply (IH k); [lia | done]. }
    destruct (negb (buf_timestamp buf =? GST_CLOCK_TIME_NONE)) eqn:Hvalid;
      simpl in *.
    + destruct (Z.ltb_spec max
                  (to_gint64
                     ((if first_timestamp (take n q) =? GST_CLOCK_TIME_NONE
                       then buf_timestamp buf else first_timestamp (take n q))
                      - buf_timestamp buf))) as [Hlt | Hge].
      * exists n. split; [done |]. split; [lia |]. split; [by eexists |].
        intros k d Hk. lia.
      * apply Hgo; [done |]. intros d. rewrite Hgap. intros [= <-]. done.
    + apply Hgo; [done |]. intros d. by rewrite Hgap.
Qed.

(** With time as unit, [get_buffers_max] gives one more than the first
    index whose buffer has a timestamp more than [max] before the first
    timestamp of the queue, and [len + 1] when there is none; buffers
    without timestamp are passed over. *)
Theorem get_buffers_max_time_first (q : list GstBuffer) (max : Z) :
  Z.of_nat (length q) < G_MAXINT →
  1 ≤ get_buffers_max GST_TCP_UNIT_TYPE_TIME q max ≤ Z.of_nat (length q) + 1
  ∧ (get_buffers_max GST_TCP_UNIT_TYPE_TIME q max ≤ Z.of_nat (length q) →
     ∃ d : Z,
       time_gap q (Z.to_nat (get_buffers_max GST_TCP_UNIT_TYPE_TIME q max - 1))
       = Some d
       ∧ max < d)
  ∧ (∀ (k : nat) (d : Z),
       Z.of_nat k < get_buffers_max GST_TCP_UNIT_TYPE_TIME q max - 1 →
       time_gap q k = Some d → d ≤ max).
Proof.
  intros Hq. unfold get_buffers_max.
  rewrite (queue_len_length q) by lia. rewrite Nat2Z.id, firstn_all.
  pose proof (get_buffers_max_time_spec q max q 0 eq_refl) as Hspec.
  change (Z.of_nat 0) with 0 in Hspec.
  change (first_timestamp (take 0 q)) with GST_CLOCK_TIME_NONE in Hspec.
  destruct (get_buffers_max_time q 0 GST_CLOCK_TIME_NONE max) as [r|]; simpl.
  - destruct Hspec as (j & -> & Hj & Hd & Hbelow).
    split; [lia |].
    replace (Z.to_nat (Z.of_nat (S j) - 1)) with j by lia.
    split; [done |].
    intros k d Hk. apply Hbelow. lia.
  - rewrite to_gint_id by (unfold G_MININT, G_MAXINT in *; lia).
    split; [lia |]. split; [lia |].
    intros k d Hk Hkd.
    destruct (decide (k < length q)%nat) as [Hlt | Hge].
    + apply (Hspec k); [lia | done].
    + unfold time_gap in Hkd. rewrite lookup_ge_None_2 in Hkd; [done | lia].
Qed.

Lemma get_buffers_max_time_first_witness :
  let q := [mkBuffer 10 900 false true; mkBuffer 10 GST_CLOCK_TIME_NONE false true;
            mkBuffer 10 500 false true; mkBuffer 10 100 false true] in
  Z.of_nat (length q) < G_MAXINT
  ∧ get_buffers_max GST_TCP_UNIT_TYPE_TIME q 300 = 3
  ∧ 1 ≤ get_buffers_max GST_TCP_UNIT_TYPE_TIME q 300 ≤ Z.of_nat (length q) + 1.
Proof.
  intros q.
  assert (H : Z.of_nat (length q) < G_MAXINT) by (vm_compute; reflexivity).
  split; [exact H |]. split; [reflexivity |].
  exact (proj1 (get_buffers_max_time_first q 300 H)).
Defined.

(** ** The indices that [find_limits] returns *)

Lemma find_limits_loop_ordered (bymax tmax : Z) (rest : list GstBuffer) :
  ∀ (s : scan) (mi ma : Z) (r : bool),
    0 ≤ sc_i s → (sc_max_hit s = true → 1 ≤ sc_i s) →
    (sc_min_idx s = -1 ∨ 0 ≤ sc_min_idx s < sc_i s) →
    find_limits_loop bymax tmax rest s = (mi, ma, r) →
    (mi = -1 ∨ 0 ≤ mi)
    ∧ ((ma = -1 ∧ mi < sc_i s + Z.of_nat (length rest))
       ∨ (0 ≤ ma < sc_i s + Z.of_nat (length rest) ∧ mi ≤ ma)).
Proof.
  induction rest as [|buf rest IH]; intros s mi ma r Hi Hhit Hmin; simpl.
  - intros [= <- <- _]. split; [lia |]. left. lia.
  - assert (Hcheck : scan_check_min s = -1
                     ∨ 0 ≤ scan_check_min s ≤ Z.max (sc_i s - 1) 0
                       ∧ scan_check_min s < sc_i s + 1).
    { unfold scan_check_min. rewrite MAX_max.
      destruct (_ && _); lia. }
    destruct (sc_max_hit s) eqn:Hmax.
    + intros [= <- <- _]. specialize (Hhit eq_refl). split; [lia |].
      right. lia.
    + intros Hloop. apply IH in Hloop; simpl; [| lia | lia | lia].
      simpl in Hloop. lia.
Qed.

(** The indices that [find_limits] returns are indices of the queue, and
    [min_idx] is not above [max_idx]. *)
Theorem find_limits_indices_ordered (q : list GstBuffer)
    (bymin bumin tmin bymax bumax tmax : Z) (lim : limits) :
  Z.of_nat (length q) ≤ G_MAXINT →
  find_limits q bymin bumin tmin bymax bumax tmax = Some lim →
  0 ≤ min_idx lim ∧ min_idx lim ≤ max_idx lim
  ∧ max_idx lim < Z.of_nat (length q).
Proof.
  intros Hq. unfold find_limits.
  rewrite (queue_len_length q Hq), Nat2Z.id, firstn_all.
  destruct (Z.ltb_spec 0 (Z.of_nat (length q))) as [Hlen|]; [simpl | done].
  destruct (negb (bumin =? -1) && (Z.of_nat (length q) <? bumin)).
  - intros [= <-]. simpl. lia.
  - destruct (find_limits_loop _ _ _ _) as [[mi ma] r] eqn:Hloop.
    apply find_limits_loop_ordered in Hloop; simpl; [| lia | done | by left].
    simpl in Hloop. intros [= <-]. simpl.
    destruct (Z.eqb_spec ma (-1)), (Z.eqb_spec mi (-1)); lia.
Qed.

Lemma find_limits_indices_ordered_witness :
  let q := [Example.delta 500; Example.delta 500; Example.delta 500;
            Example.delta 500] in
  Z.of_nat (length q) ≤ G_MAXINT
  ∧ find_limits q 1000 (-1) (-1) 1200 (-1) (-1) = Some (mkLimits 1 2 true)
  ∧ 0 ≤ 1 ∧ 1 ≤ 2 ∧ 2 < Z.of_nat (length q).
Proof.
  intros q.
  assert (H1 : Z.of_nat (length q) ≤ G_MAXINT) by (vm_compute; discriminate).
  assert (H2 : find_limits q 1000 (-1) (-1) 1200 (-1) (-1)
               = Some (mkLimits 1 2 true)) by reflexivity.
  split; [exact H1 |]. split; [exact H2 |].
  exact (find_limits_indices_ordered q 1000 (-1) (-1) 1200 (-1) (-1)
           (mkLimits 1 2 true) H1 H2).
Defined.

Section limits_indices.

Variables (q : list GstBuffer) (bymin tmin bymax tmax : Z).

Lemma mins_before_mono (n m : nat) :
  (n ≤ m)%nat → mins_before q bymin tmin n → mins_before q bymin tmin m.
Proof.
  intros Hnm [Hb Ht]. split.
  - by apply (bytes_min_reached_mono q bymin n).
  - by apply (time_min_reached_mono q tmin n).
Qed.

(** What the head of the iteration at [n] makes of [min_idx]. *)
Lemma scan_check_min_inv (n : nat) (s : scan) :
  scan_inv q bymin tmin bymax tmax n s →
  min_idx_inv q bymin tmin n s →
  (scan_check_min s = -1 → ¬ mins_before q bymin tmin n)
  ∧ (scan_check_min s ≠ -1 →
     ∃ m : nat, (m ≤ n)%nat ∧ mins_before q bymin tmin m
                ∧ (∀ m' : nat, (m' < m)%nat → ¬ mins_before q bymin tmin m')
                ∧ scan_check_min s = Z.max (Z.of_nat m - 1) 0).
Proof.
  intros Hinv [Hunset Hset].
  pose proof (scan_check_min_set q bymin tmin bymax tmax n s Hinv) as Hiff.
  split.
  - intros Heq Hreached. apply Hiff in Hreached. done.
  - intros Hne. pose proof (proj1 Hiff Hne) as Hreached.
    destruct (Z.eq_dec (sc_min_idx s) (-1)) as [Heq | Hold].
    + exists n. split; [lia |]. split; [done |]. split.
      * intros m' Hm' Hm.
        destruct (Hunset Heq) as [-> | Hnot]; [lia |].
        apply Hnot. apply (mins_before_mono m'); [lia | done].
      * unfold scan_check_min in *. rewrite MAX_max in *.
        rewrite (inv_i _ _ _ _ _ _ _ Hinv) in *.
        destruct (_ && _); [done | congruence].
    + destruct (Hset Hold) as (m & Hm & Hreach & Hleast & Hval).
      exists m. split; [lia |]. split; [done |]. split; [done |].
      unfold scan_check_min.
      destruct (Z.eqb_spec (sc_min_idx s) (-1)); [done |].
      by rewrite andb_false_r.
Qed.

Lemma min_idx_inv_init :
  min_idx_inv q bymin tmin 0
    {| sc_i := 0; sc_bytes := 0; sc_first := GST_CLOCK_TIME_NONE;
       sc_bytes_min := bymin; sc_time_min := tmin;
       sc_min_idx := -1; sc_max_hit := false |}.
Proof. split; simpl; [by left | done]. Qed.

Lemma min_idx_inv_step (n : nat) (s : scan) (buf : GstBuffer) :
  scan_inv q bymin tmin bymax tmax n s →
  min_idx_inv q bymin tmin n s →
  min_idx_inv q bymin tmin (S n)
    (scan_account bymax tmax buf s (scan_check_min s)).
Proof.
  intros Hinv Hmin.
  destruct (scan_check_min_inv n s Hinv Hmin) as [Hunset Hset].
  split; simpl.
  - intros Heq. right. rewrite Nat.sub_0_r. by apply Hunset.
  - intros Hne. destruct (Hset Hne) as (m & Hm & Hrest).
    exists m. split; [lia | done].
Qed.

(** The loop, entered at index [n]: [max_idx] is left unset when no
    maximum is reached before the last index, and is else the first index
    at which one is reached; [min_idx] is set exactly when the minimums
    are reached at the head of the last iteration that was begun. *)
Lemma find_limits_loop_indices (rest : list GstBuffer) :
  ∀ (n : nat) (s : scan) (mi ma : Z) (r : bool),
    (0 < length q)%nat → (n ≤ length q)%nat →
    drop n q = rest →
    scan_inv q bymin tmin bymax tmax n s →
    min_idx_inv q bymin tmin n s →
    find_limits_loop bymax tmax rest s = (mi, ma, r) →
    ((ma = -1 ∧ ∀ k : nat, (S k < length q)%nat → ¬ max_reached_at q bymax tmax k)
     ∨ (∃ k : nat, ma = Z.of_nat k ∧ (S k < length q)%nat
                   ∧ max_reached_at q bymax tmax k
                   ∧ ∀ k' : nat, (k' < k)%nat → ¬ max_reached_at q bymax tmax k'))
    ∧ ∃ t : nat,
        (ma = -1 → t = (length q - 1)%nat)
        ∧ (ma ≠ -1 → Z.of_nat t = ma + 1)
        ∧ (mi = -1 → ¬ mins_before q bymin tmin t)
        ∧ (mi ≠ -1 →
           ∃ m : nat, (m ≤ t)%nat ∧ mins_before q bymin tmin m
                      ∧ (∀ m' : nat, (m' < m)%nat → ¬ mins_before q bymin tmin m')
                      ∧ mi = Z.max (Z.of_nat m - 1) 0).
Proof.
  induction rest as [|buf rest IH]; intros n s mi ma r Hpos Hn Hdrop Hinv Hmin;
    simpl.
  - intros [= <- <- _].
    apply (f_equal length) in Hdrop. rewrite length_drop in Hdrop.
    simpl in Hdrop.
    split.
    + left. split; [done |]. intros k Hk.
      apply (inv_no_hit _ _ _ _ _ _ _ Hinv). lia.
    + exists (length q - 1)%nat. split; [done |]. split; [done |].
      destruct Hmin as [Hunset Hset]. split.
      * intros Heq. destruct (Hunset Heq) as [-> | Hnot]; [lia |].
        by replace (length q - 1)%nat with (n - 1)%nat by lia.
      * intros Hne. destruct (Hset Hne) as (m & Hm & Hrest).
        exists m. split; [lia | done].
  - assert (Hbuf : q !! n = Some buf).
    { rewrite <- (Nat.add_0_r n), <- lookup_drop, Hdrop. done. }
    assert (Hrest : drop (S n) q = rest).
    { rewrite (drop_S q buf n Hbuf) in Hdrop. by injection Hdrop. }
    destruct (sc_max_hit s) eqn:Hmax.
    + intros [= <- <- _].
      destruct n as [|k].
      { by rewrite (inv_hit_start _ _ _ _ _ _ _ Hinv) in Hmax. }
      pose proof (proj1 (inv_hit _ _ _ _ _ _ _ Hinv k eq_refl) Hmax) as Hk.
      apply lookup_lt_Some in Hbuf.
      rewrite (inv_i _ _ _ _ _ _ _ Hinv).
      split.
      * right. exists k. split; [lia |]. split; [lia |]. split; [done |].
        intros k' Hk'. apply (inv_no_hit _ _ _ _ _ _ _ Hinv). lia.
      * exists (S k). split; [lia |]. split; [lia |].
        apply (scan_check_min_inv (S k) s Hinv Hmin).
    + apply lookup_lt_Some in Hbuf as Hlt.
      apply (IH (S n)); [done | lia | done | by apply scan_inv_step |].
      by apply min_idx_inv_step.
Qed.

End limits_indices.

(** When the length test on [buffers_min] passes, [max_idx] is the first
    index at which a byte or time maximum is reached, be it the last
    index, and the last index when none is reached. *)
Theorem find_limits_max_idx_first (q : list GstBuffer)
    (bymin bumin tmin bymax bumax tmax : Z) :
  (0 < length q)%nat → Z.of_nat (length q) ≤ G_MAXINT →
  bumin = -1 ∨ bumin ≤ Z.of_nat (length q) →
  ∃ lim : limits,
    find_limits q bymin bumin tmin bymax bumax tmax = Some lim
    ∧ (∀ k : nat,
         (k < length q)%nat → max_reached_at q bymax tmax k →
         (∀ k' : nat, (k' < k)%nat → ¬ max_reached_at q bymax tmax k') →
         max_idx lim = Z.of_nat k)
    ∧ ((∀ k : nat, (k < length q)%nat → ¬ max_reached_at q bymax tmax k) →
       max_idx lim = Z.of_nat (length q) - 1).
Proof.
  intros Hpos Hq Hbu. unfold find_limits.
  rewrite (queue_len_length q Hq), Nat2Z.id, firstn_all.
  destruct (Z.ltb_spec 0 (Z.of_nat (length q))); [simpl | lia].
  assert (negb (bumin =? -1) && (Z.of_nat (length q) <? bumin) = false) as ->.
  { destruct (Z.eqb_spec bumin (-1)); [done | simpl].
    destruct (Z.ltb_spec (Z.of_nat (length q)) bumin); [lia | done]. }
  destruct (find_limits_loop _ _ _ _) as [[mi ma] r] eqn:Hloop.
  eexists. split; [reflexivity |]. simpl.
  destruct (find_limits_loop_indices q bymin tmin bymax tmax q 0 _ mi ma r
              Hpos ltac:(lia) eq_refl (scan_inv_init q bymin tmin bymax tmax)
              (min_idx_inv_init q bymin tmin) Hloop)
    as [[[-> Hnone] | (k0 & -> & Hk0 & Hhit0 & Hfirst0)] _]; simpl.
  - split.
    + intros k Hk Hhit _.
      destruct (decide (S k < length q)%nat) as [Hlt | Hge]; [| lia].
      by destruct (Hnone k Hlt).
    + done.
  - assert ((Z.of_nat k0 =? -1) = false) as -> by (apply Z.eqb_neq; lia).
    split.
    + intros k Hk Hhit Hfirst.
      destruct (Nat.lt_trichotomy k k0) as [Hlt | [-> | Hgt]]; [| done |].
      * by destruct (Hfirst0 k Hlt).
      * by destruct (Hfirst k0 Hgt).
    + intros Hnone. destruct (Hnone k0); [lia | done].
Qed.

Lemma find_limits_max_idx_first_witness :
  let q := [Example.delta 500; Example.delta 500; Example.delta 500] in
  ((0 < length q)%nat ∧ Z.of_nat (length q) ≤ G_MAXINT)
  ∧ ∃ lim : limits,
      find_limits q (-1) (-1) (-1) 1500 (-1) (-1) = Some lim
      ∧ max_idx lim = 2.
Proof.
  intros q.
  assert (H1 : (0 < length q)%nat) by (simpl; lia).
  assert (H2 : Z.of_nat (length q) ≤ G_MAXINT) by (vm_compute; discriminate).
  split; [done |].
  destruct (find_limits_max_idx_first q (-1) (-1) (-1) 1500 (-1) (-1) H1 H2
              (or_introl eq_refl)) as (lim & Hlim & Hfirst & _).
  exists lim. split; [exact Hlim |].
  apply (Hfirst 2%nat).
  - simpl. lia.
  - left. split; [discriminate | vm_compute; discriminate].
  - intros k Hk [[_ H] | [H _]]; [| done].
    destruct k as [|[|k]]; [vm_compute in H; by apply H .. | lia].
Defined.

(** When the length test on [buffers_min] passes and no byte or time
    maximum is reached before, [min_idx] is the first index by which the
    byte and time minimums are reached (0 when none is set); when the
    whole queue does not reach them, [min_idx] is [max_idx]. *)
Theorem find_limits_min_idx_first (q : list GstBuffer)
    (bymin bumin tmin bymax bumax tmax : Z) :
  (0 < length q)%nat → Z.of_nat (length q) ≤ G_MAXINT →
  bumin = -1 ∨ bumin ≤ Z.of_nat (length q) →
  ∃ lim : limits,
    find_limits q bymin bumin tmin bymax bumax tmax = Some lim
    ∧ (∀ j : nat,
         (j < length q)%nat → mins_before q bymin tmin (S j) →
         (∀ j' : nat, (j' < j)%nat → ¬ mins_before q bymin tmin (S j')) →
         (∀ k : nat, (k < j)%nat → ¬ max_reached_at q bymax tmax k) →
         min_idx lim = Z.of_nat j)
    ∧ (¬ mins_before q bymin tmin (length q) → min_idx lim = max_idx lim).
Proof.
  intros Hpos Hq Hbu. unfold find_limits.
  rewrite (queue_len_length q Hq), Nat2Z.id, firstn_all.
  destruct (Z.ltb_spec 0 (Z.of_nat (length q))); [simpl | lia].
  assert (negb (bumin =? -1) && (Z.of_nat (length q) <? bumin) = false) as ->.
  { destruct (Z.eqb_spec bumin (-1)); [done | simpl].
    destruct (Z.ltb_spec (Z.of_nat (length q)) bumin); [lia | done]. }
  destruct (find_limits_loop _ _ _ _) as [[mi ma] r] eqn:Hloop.
  eexists. split; [reflexivity |]. simpl.
  destruct (find_limits_loop_indices q bymin tmin bymax tmax q 0 _ mi ma r
              Hpos ltac:(lia) eq_refl (scan_inv_init q bymin tmin bymax tmax)
              (min_idx_inv_init q bymin tmin) Hloop)
    as [Hmax (t & Ht1 & Ht2 & Hunset & Hset)].
  assert (Htlen : (t < length q)%nat).
  { destruct Hmax as [[-> _] | (k0 & -> & Hk0 & _)].
    - rewrite Ht1 by done. lia.
    - specialize (Ht2 ltac:(lia)). lia. }
  destruct (Z.eqb_spec mi (-1)) as [Hmi | Hmi].
  - specialize (Hunset Hmi). split; [| done].
    intros j Hj Hreach Hleast Hnohit.
    assert (t < S j)%nat as Htj.
    { destruct (decide (t < S j)%nat) as [| Hge]; [done |].
      destruct Hunset. apply (mins_before_mono q bymin tmin (S j)); [lia | done]. }
    destruct Hmax as [[-> _] | (k0 & -> & Hk0 & Hhit0 & _)]; simpl.
    + rewrite Ht1 in Htj by done. lia.
    + assert ((Z.of_nat k0 =? -1) = false) as -> by (apply Z.eqb_neq; lia).
      specialize (Ht2 ltac:(lia)).
      destruct (Hnohit k0); [lia | done].
  - destruct (Hset Hmi) as (m & Hm & Hreach & Hleast & ->). split.
    + intros j Hj Hreachj Hleastj _.
      destruct m as [|m0].
      * destruct j as [|j0]; [done |].
        destruct (Hleastj 0%nat); [lia |].
        apply (mins_before_mono q bymin tmin 0); [lia | done].
      * assert (j = m0) as ->; [| lia].
        destruct (Nat.lt_trichotomy j m0) as [Hlt | [Heq | Hgt]]; [| done |].
        -- destruct (Hleast (S j)); [lia | done].
        -- destruct (Hleastj m0 Hgt). done.
    + intros Hnever. destruct Hnever.
      apply (mins_before_mono q bymin tmin m); [lia | done].
Qed.

Lemma find_limits_min_idx_first_witness :
  let q := [Example.delta 500; Example.delta 500; Example.delta 500] in
  ((0 < length q)%nat ∧ Z.of_nat (length q) ≤ G_MAXINT)
  ∧ ∃ lim : limits,
      find_limits q 1000 (-1) (-1) (-1) (-1) (-1) = Some lim
      ∧ min_idx lim = 1.
Proof.
  intros q.
  assert (H1 : (0 < length q)%nat) by (simpl; lia).
  assert (H2 : Z.of_nat (length q) ≤ G_MAXINT) by (vm_compute; discriminate).
  split; [done |].
  destruct (find_limits_min_idx_first q 1000 (-1) (-1) (-1) (-1) (-1) H1 H2
              (or_introl eq_refl)) as (lim & Hlim & Hfirst & _).
  exists lim. split; [exact Hlim |].
  apply (Hfirst 1%nat).
  - simpl. lia.
  - split; [| by left]. right. exists 1%nat.
    split; [lia | vm_compute; discriminate].
  - intros j' Hj' [[H | (k & Hk & H)] _]; [done |].
    assert (k = 0%nat) as -> by lia. vm_compute in H. by apply H.
  - intros k Hk [[H _] | [H _]]; done.
Defined.

(** ** A burst without minimum *)

Lemma find_limits_loop_no_min (bymax tmax : Z) (rest : list GstBuffer) :
  ∀ (s : scan) (mi ma : Z) (r : bool),
    sc_bytes_min s = -1 → sc_time_min s = -1 →
    (sc_min_idx s = -1 ∧ sc_i s = 0 ∧ rest ≠ []) ∨ sc_min_idx s = 0 →
    find_limits_loop bymax tmax rest s = (mi, ma, r) →
    mi = 0.
Proof.
  induction rest as [|buf rest IH]; intros s mi ma r Hb Ht Hmin; simpl.
  - intros [= <- _ _]. by destruct Hmin as [(_ & _ & ?) | ?].
  - assert (Hcheck : scan_check_min s = 0).
    { unfold scan_check_min. rewrite Hb, Ht. simpl.
      destruct Hmin as [(-> & -> & _) | ->]; done. }
    destruct (sc_max_hit s); [by intros [= <- _ _] |].
    apply IH; simpl; [by rewrite Hb | | by right].
    rewrite Ht. simpl. by rewrite andb_false_r.
Qed.

(** A burst client whose minimum has no unit, as the clients that [add]
    registers, starts at the newest buffer, whatever its maximum. *)
Theorem new_client_burst_without_min (q : list GstBuffer) (c : GstTCPClient) :
  sync_method (mh c) = GST_SYNC_METHOD_BURST →
  burst_min_unit c = GST_TCP_UNIT_TYPE_UNDEFINED →
  (0 < length q)%nat → Z.of_nat (length q) ≤ G_MAXINT →
  gst_multi_fd_sink_new_client q c = Some (0, c).
Proof.
  intros Hsync Hunit Hpos Hq.
  unfold gst_multi_fd_sink_new_client, count_burst_unit.
  rewrite Hsync, Hunit.
  destruct (snd (assign_value (burst_max_unit c) _ _)) as [[bymax bumax] tmax].
  simpl.
  destruct (find_limits q (-1) (-1) (to_gint64 GST_CLOCK_TIME_NONE) bymax bumax
              (to_gint64 tmax)) as [lim|] eqn:Hlim.
  - simpl. f_equal. f_equal.
    pose proof (find_limits_max_idx _ _ _ _ _ _ _ _ Hlim) as Hmax.
    assert (Hmin : min_idx lim = 0).
    { revert Hlim. unfold find_limits.
      rewrite (queue_len_length q Hq), Nat2Z.id, firstn_all.
      destruct (Z.ltb_spec 0 (Z.of_nat (length q))); [simpl | lia].
      destruct (find_limits_loop _ _ _ _) as [[mi ma] r] eqn:Hloop.
      apply find_limits_loop_no_min in Hloop; [| done | done |].
      - subst mi. by intros [= <-].
      - left. split; [done |]. split; [done |]. by destruct q. }
    unfold burst_start. rewrite Hmin, MAX_max.
    destruct (_ && _) eqn:Hcase; [| done].
    apply andb_prop in Hcase as [_ Hle%Z.leb_le]. lia.
  - exfalso.
    destruct (find_limits_is_Some q (-1) (-1) (to_gint64 GST_CLOCK_TIME_NONE)
                bymax bumax (to_gint64 tmax)) as [lim Hsome].
    + rewrite (queue_len_length q Hq). lia.
    + congruence.
Qed.

Lemma new_client_burst_without_min_witness :
  let c :=
    {| mh := gst_multi_handle_sink_client_init GST_SYNC_METHOD_BURST 0;
       fd := 7; is_socket := true;
       burst_min_unit := GST_TCP_UNIT_TYPE_UNDEFINED; burst_min_value := 0;
       burst_max_unit := GST_TCP_UNIT_TYPE_BYTES; burst_max_value := 700 |} in
  let q := [Example.delta 500; Example.delta 500; Example.delta 500] in
  (sync_method (mh c) = GST_SYNC_METHOD_BURST
   ∧ burst_min_unit c = GST_TCP_UNIT_TYPE_UNDEFINED)
  ∧ gst_multi_fd_sink_new_client q c = Some (0, c).
Proof.
  intros c q. split; [by split |].
  apply (new_client_burst_without_min q c).
  - reflexivity.
  - reflexivity.
  - simpl. lia.
  - vm_compute. discriminate.
Defined.

(** ** Where the recover policy puts a client *)

Lemma resync_keyframe_scan_is_Some (q : list GstBuffer) (n : nat) :
  (n ≤ length q)%nat → is_Some (resync_keyframe_scan q n).
Proof.
  induction n as [|n IH]; intros Hn; simpl; [by eexists |].
  destruct (lookup_lt_is_Some_2 q n) as [buf ->]; [lia |].
  destruct (is_sync_frame buf); [by eexists | apply IH; lia].
Qed.

Lemma resync_keyframe_scan_found (q : list GstBuffer) (n : nat) (r : Z) :
  resync_keyframe_scan q n = Some r → 0 ≤ r →
  ∃ buf : GstBuffer,
    q !! Z.to_nat r = Some buf ∧ is_sync_frame buf = true ∧ r < Z.of_nat n
    ∧ ∀ (i : nat) (buf' : GstBuffer),
        r < Z.of_nat i < Z.of_nat n → q !! i = Some buf' →
        is_sync_frame buf' = false.
Proof.
  induction n as [|n IH]; simpl; [intros [= <-]; lia |].
  destruct (q !! n) as [buf|] eqn:Hbuf; [| done].
  destruct (is_sync_frame buf) eqn:Hsync.
  - intros [= <-] _. exists buf. rewrite Nat2Z.id.
    split; [done |]. split; [done |]. split; [lia |]. intros i buf' Hi. lia.
  - intros Hscan Hr. destruct (IH Hscan Hr) as (b & Hb & Hs & Hlt & Hbetween).
    exists b. split; [done |]. split; [done |]. split; [lia |].
    intros i buf' Hi Hbuf'. destruct (decide (i = n)) as [-> | Hne].
    + congruence.
    + apply (Hbetween i buf'); [lia | done].
Qed.

(** Past a positive soft maximum, every recover policy gives a position:
    -1 or an index not above the position of the client, so that a
    client is never moved toward older buffers. *)
Theorem recover_client_not_older (p : SinkProps) (q : list GstBuffer)
    (c : GstTCPClient) :
  (0 < length q)%nat → Z.of_nat (length q) ≤ G_MAXINT →
  0 < get_buffers_max (unit_type p) q (units_soft_max p) ≤ bufpos (mh c) →
  ∃ newpos : Z,
    gst_multi_fd_sink_recover_client p q c = Some newpos
    ∧ -1 ≤ newpos ≤ bufpos (mh c).
Proof.
  intros Hpos Hq Hsoft.
  assert (Hsome : is_Some (gst_multi_fd_sink_recover_client p q c)).
  { unfold gst_multi_fd_sink_recover_client.
    destruct (recover_policy p); try by eexists.
    rewrite (resync_keyframe_start_min p q Hpos Hq) by lia.
    set (start := Z.min _ _).
    destruct (Z.ltb_spec start 0) as [| Hstart]; [by eexists |].
    apply resync_keyframe_scan_is_Some. lia. }
  destruct Hsome as [newpos Hnew]. exists newpos. split; [done |].
  by apply (recover_client_range p q c newpos Hpos Hq Hsoft).
Qed.

Lemma recover_client_not_older_witness :
  let p := mkProps GST_TCP_UNIT_TYPE_BUFFERS (-1) 2
             GST_RECOVER_POLICY_RESYNC_SOFT_LIMIT 0 GST_SYNC_METHOD_LATEST
             GST_TCP_UNIT_TYPE_UNDEFINED 0 (-1) (-1) GST_CLOCK_TIME_NONE (-1)
             true true in
  let q := replicate 5 (Example.delta 100) in
  let c := Example.served_client 7 0 4 in
  gst_multi_fd_sink_recover_client p q c = Some 2
  ∧ ∃ newpos : Z,
      gst_multi_fd_sink_recover_client p q c = Some newpos
      ∧ -1 ≤ newpos ≤ bufpos (mh c).
Proof.
  intros p q c. split; [reflexivity |].
  apply (recover_client_not_older p q c).
  - simpl. lia.
  - vm_compute. discriminate.
  - vm_compute. split; [reflexivity | discriminate].
Defined.

(** With the keyframe policy, past a positive soft maximum, a position
    that is not -1 is the index of a sync frame at or below
    [min (len - 1, soft_max - 1)], the nearest one: the buffers between it
    and that index are no sync frames. *)
Theorem recover_resync_keyframe_nearest (p : SinkProps) (q : list GstBuffer)
    (c : GstTCPClient) (newpos : Z) :
  recover_policy p = GST_RECOVER_POLICY_RESYNC_KEYFRAME →
  (0 < length q)%nat → Z.of_nat (length q) ≤ G_MAXINT →
  0 < get_buffers_max (unit_type p) q (units_soft_max p) →
  gst_multi_fd_sink_recover_client p q c = Some newpos → 0 ≤ newpos →
  ∃ buf : GstBuffer,
    q !! Z.to_nat newpos = Some buf ∧ is_sync_frame buf = true
    ∧ newpos ≤ Z.min (Z.of_nat (length q) - 1)
                 (get_buffers_max (unit_type p) q (units_soft_max p) - 1)
    ∧ ∀ (i : nat) (buf' : GstBuffer),
        newpos < Z.of_nat i
        ≤ Z.min (Z.of_nat (length q) - 1)
            (get_buffers_max (unit_type p) q (units_soft_max p) - 1) →
        q !! i = Some buf' → is_sync_frame buf' = false.
Proof.
  intros Hpol Hpos Hq Hsoft. unfold gst_multi_fd_sink_recover_client.
  rewrite Hpol, (resync_keyframe_start_min p q Hpos Hq Hsoft).
  set (start := Z.min _ _).
  destruct (Z.ltb_spec start 0) as [| Hstart]; [intros [= <-]; lia |].
  intros Hscan Hnew.
  destruct (resync_keyframe_scan_found q _ newpos Hscan Hnew)
    as (buf & Hbuf & Hsync & Hlt & Hbetween).
  exists buf. split; [done |]. split; [done |]. split; [lia |].
  intros i buf' Hi. apply Hbetween. lia.
Qed.

Lemma recover_resync_keyframe_nearest_witness :
  let p := mkProps GST_TCP_UNIT_TYPE_BUFFERS (-1) 4
             GST_RECOVER_POLICY_RESYNC_KEYFRAME 0 GST_SYNC_METHOD_LATEST
             GST_TCP_UNIT_TYPE_UNDEFINED 0 (-1) (-1) GST_CLOCK_TIME_NONE (-1)
             true true in
  let q := [Example.delta 1; Example.key 1; Example.delta 1; Example.delta 1;
            Example.key 1; Example.delta 1] in
  let c := Example.served_client 7 0 5 in
  gst_multi_fd_sink_recover_client p q c = Some 1
  ∧ ∃ buf : GstBuffer, q !! Z.to_nat 1 = Some buf ∧ is_sync_frame buf = true.
Proof.
  intros p q c.
  assert (H : gst_multi_fd_sink_recover_client p q c = Some 1) by reflexivity.
  split; [exact H |].
  destruct (recover_resync_keyframe_nearest p q c 1) as (buf & Hbuf & Hs & _).
  - reflexivity.
  - simpl. lia.
  - vm_compute. discriminate.
  - vm_compute. reflexivity.
  - exact H.
  - lia.
  - by exists buf.
Defined.

(** ** The client table stays consistent *)

Lemma elem_of_g_list_remove (ls : list loc) (l x : loc) :
  NoDup ls → x ∈ g_list_remove ls l ↔ x ∈ ls ∧ x ≠ l.
Proof.
  induction ls as [|y ls IH]; intros Hnd; simpl.
  - split; [by intros ?%elem_of_nil | by intros [?%elem_of_nil _]].
  - apply NoDup_cons in Hnd as [Hy Hnd].
    destruct (decide (y = l)) as [-> | Hne].
    + split.
      * intros Hx. split; [by right |]. by intros ->.
      * intros [[-> | Hx]%elem_of_cons Hxl]; done.
    + rewrite !elem_of_cons, (IH Hnd). split.
      * intros [-> | [Hx Hxl]]; [by split; [left |] | by split; [right |]].
      * intros [[-> | Hx] Hxl]; [by left | by right].
Qed.

Lemma NoDup_g_list_remove (ls : list loc) (l : loc) :
  NoDup ls → NoDup (g_list_remove ls l).
Proof.
  induction ls as [|y ls IH]; intros Hnd; simpl; [done |].
  apply NoDup_cons in Hnd as [Hy Hnd].
  destruct (decide (y = l)); [done |].
  apply NoDup_cons. split; [| by apply IH].
  rewrite (elem_of_g_list_remove ls l y Hnd). by intros [? _].
Qed.

(** Writing a client back with the descriptor it had keeps the table
    consistent. *)
Lemma update_client_consistent (l : loc) (c c' : GstTCPClient)
    (s : GstMultiFdSink) :
  table_consistent s → store s !! l = Some c → fd c' = fd c →
  table_consistent (update_client l c' s).
Proof.
  intros [Hnd Hlist Hhash Hpoll] Hc Hfd.
  destruct s as [p o q cl m h k fds sh prev pc bq bts bs tr]. simpl in *.
  constructor; simpl; try done.
  - intros l'. rewrite Hlist. destruct (decide (l' = l)) as [-> | Hne].
    + rewrite lookup_insert_eq, Hc. split; by eexists.
    + by rewrite lookup_insert_ne.
  - intros fdn l'. rewrite Hhash. destruct (decide (l' = l)) as [-> | Hne].
    + rewrite lookup_insert_eq, Hc. split.
      * intros (c0 & [= <-] & Hf). exists c'. split; [done | congruence].
      * intros (c0 & [= <-] & Hf). exists c. split; [done | congruence].
    + by rewrite lookup_insert_ne.
Qed.

(** So does a change of the interest registered for a descriptor. *)
Lemma gst_poll_fd_ctl_write_consistent (fdn : Z) (active : bool)
    (s : GstMultiFdSink) :
  table_consistent s → table_consistent (gst_poll_fd_ctl_write fdn active s).
Proof.
  intros [Hnd Hlist Hhash Hpoll].
  destruct s as [p o q cl m h k fds sh prev pc bq bts bs tr]. simpl in *.
  constructor; simpl; try done.
  intros f. rewrite <- Hpoll. rewrite lookup_alter.
  destruct (decide (fdn = f)) as [-> | Hne]; [| done].
  by rewrite fmap_is_Some.
Qed.

Lemma emit_consistent (e : Event) (s : GstMultiFdSink) :
  table_consistent s → table_consistent (emit e s).
Proof. intros [? ? ? ?]. by destruct s. Qed.

(** The removal procedure keeps the table consistent. *)
Lemma remove_client_link_consistent (now : Z) (l : loc)
    (s s' : GstMultiFdSink) :
  table_consistent s →
  gst_multi_fd_sink_remove_client_link now l s = Some s' →
  table_consistent s'.
Proof.
  intros Hcons. unfold gst_multi_fd_sink_remove_client_link.
  destruct (store s !! l) as [c|] eqn:Hc; [simpl | done].
  destruct (currently_removing (mh c)); [by intros [= <-] |].
  intros [= <-]. destruct Hcons as [Hnd Hlist Hhash Hpoll].
  destruct s as [p o q cl m h k fds sh prev pc bq bts bs tr]. simpl in *.
  assert (Hfd : h !! fd c = Some l) by (apply Hhash; by exists c).
  constructor; simpl.
  - by apply NoDup_g_list_remove.
  - intros l'. rewrite (elem_of_g_list_remove cl l l' Hnd), Hlist.
    destruct (decide (l' = l)) as [-> | Hne].
    + rewrite lookup_delete_eq. split; [by intros [_ ?] | by intros [? ?]].
    + rewrite lookup_delete_ne, lookup_insert_ne by done.
      split; [by intros [? _] | by intros ?].
  - intros fdn l'. destruct (decide (l' = l)) as [-> | Hne].
    + rewrite lookup_delete_eq. split; [| by intros (? & ? & _)].
      destruct (decide (fdn = fd c)) as [-> | Hf].
      * by rewrite lookup_delete_eq.
      * rewrite lookup_delete_ne by done. intros Hl.
        apply Hhash in Hl as (c0 & Hc0 & Hfd0). congruence.
    + rewrite (lookup_delete_ne _ l l'), lookup_insert_ne by done.
      destruct (decide (fdn = fd c)) as [-> | Hf].
      * rewrite lookup_delete_eq. split; [done |].
        intros Hex. apply Hhash in Hex. congruence.
      * rewrite lookup_delete_ne by done. apply Hhash.
  - intros fdn. destruct (decide (fdn = fd c)) as [-> | Hf].
    + rewrite !lookup_delete_eq. split; by intros [? ?].
    + rewrite !lookup_delete_ne by done. apply Hpoll.
Qed.

(** [add_full] with limits that pass and a descriptor that is not in the
    table, field by field. *)
Lemma add_full_fresh (env : AddEnv) (fdn : Z) (sync : GstSyncMethod)
    (min_unit : GstTCPUnitType) (min_value : Z) (max_unit : GstTCPUnitType)
    (max_value : Z) (s : GstMultiFdSink) :
  wrong_limits min_unit min_value max_unit max_value = false →
  fd_hash s !! fdn = None →
  let l := fresh (dom (store s)) in
  let c :=
    {| mh := gst_multi_handle_sink_client_init sync (env_now env);
       fd := fdn; is_socket := env_is_sock env;
       burst_min_unit := min_unit; burst_min_value := min_value;
       burst_max_unit := max_unit; burst_max_value := max_value |} in
  let s' :=
    gst_multi_fd_sink_add_full env fdn sync min_unit min_value max_unit
      max_value s in
  store s' = <[l := c]> (store s)
  ∧ clients s' = l :: clients s
  ∧ fd_hash s' = <[fdn := l]> (fd_hash s)
  ∧ fdset s'
    = <[fdn := mkPollFD (handle_read (props s) && negb (env_wronly env)) false]>
        (fdset s)
  ∧ clients_cookie s' = to_guint (clients_cookie s + 1)
  ∧ bufqueue s' = bufqueue s
  ∧ props s' = props s
  ∧ ∃ evs : list Event,
      trace s'
      = trace s ++ SetNonBlocking fdn :: evs
          ++ [PollRestart; SIGNAL_CLIENT_ADDED fdn].
Proof.
  intros Hlim Hnone l c s'. subst s'.
  unfold gst_multi_fd_sink_add_full. rewrite Hlim.
  destruct s as [p o q cl m h k fds sh prev pc bq bts bs tr].
  simpl in *. rewrite Hnone. fold l.
  destruct env as [now wr sock sa]. simpl in *.
  destruct (handle_read p && negb wr) eqn:Hrd;
    destruct sock; simpl;
    unfold setup_dscp_client; simpl;
    repeat match goal with
      | |- context [if ?b then _ else _] => destruct b; simpl
      | |- context [match ?x with None => _ | Some _ => _ end] =>
          destruct x; simpl
      | |- context [match ?x with AF_INET => _ | _ => _ end] =>
          destruct x as [|[|]|]; simpl
      end;
    rewrite ?insert_insert_eq, ?alter_insert_eq; simpl;
    repeat split; try done;
    rewrite <- ?app_assoc; simpl;
    first [ by exists []
          | by eexists [_] ].
Qed.

(** Adding a client keeps the table consistent, whatever the descriptor
    and the limits: a rejected call changes nothing but the trace, an
    accepted one puts the new client in the store, the list, the hash and
    the poll set at once. *)
Theorem add_full_keeps_table_consistent (env : AddEnv) (fdn : Z)
    (sync : GstSyncMethod) (min_unit : GstTCPUnitType) (min_value : Z)
    (max_unit : GstTCPUnitType) (max_value : Z) (s : GstMultiFdSink) :
  table_consistent s →
  table_consistent
    (gst_multi_fd_sink_add_full env fdn sync min_unit min_value max_unit
       max_value s).
Proof.
  intros Hcons.
  destruct (wrong_limits min_unit min_value max_unit max_value) eqn:Hlim.
  { unfold gst_multi_fd_sink_add_full. by rewrite Hlim. }
  destruct (fd_hash s !! fdn) as [l0|] eqn:Hh.
  { rewrite add_full_duplicate by (done || by eexists).
    by apply emit_consistent. }
  destruct (add_full_fresh env fdn sync min_unit min_value max_unit max_value
              s Hlim Hh) as (Hst & Hcl & Hfh & Hfs & _).
  set (s' := gst_multi_fd_sink_add_full env fdn sync min_unit min_value
               max_unit max_value s) in *.
  set (l := fresh (dom (store s))) in *.
  assert (Hfresh : store s !! l = None)
    by (apply not_elem_of_dom, is_fresh).
  destruct Hcons as [Hnd Hlist Hhash Hpoll].
  constructor.
  - rewrite Hcl. apply NoDup_cons. split; [| done].
    rewrite Hlist, Hfresh. by intros [? ?].
  - intros l'. rewrite Hcl, Hst, elem_of_cons, Hlist.
    destruct (decide (l' = l)) as [-> | Hne].
    + rewrite lookup_insert_eq. split; [by eexists | by left].
    + rewrite lookup_insert_ne by done. split; [by intros [? | ?] | by right].
  - intros f l'. rewrite Hfh, Hst.
    destruct (decide (f = fdn)) as [-> | Hf].
    + rewrite lookup_insert_eq. split.
      * intros [= <-]. rewrite lookup_insert_eq. by eexists.
      * intros (c' & Hc' & Hfd').
        destruct (decide (l' = l)) as [-> | Hne]; [done |].
        rewrite lookup_insert_ne in Hc' by done.
        assert (Hl' : fd_hash s !! fdn = Some l')
          by (apply Hhash; by exists c').
        congruence.
    + rewrite lookup_insert_ne by done. rewrite Hhash.
      destruct (decide (l' = l)) as [-> | Hne].
      * rewrite lookup_insert_eq, Hfresh. split.
        -- by intros (? & ? & _).
        -- intros (c' & [= <-] & Hfd'). simpl in Hfd'. congruence.
      * by rewrite lookup_insert_ne.
  - intros f. rewrite Hfs, Hfh.
    destruct (decide (f = fdn)) as [-> | Hf].
    + rewrite !lookup_insert_eq. split; by eexists.
    + rewrite !lookup_insert_ne by done. apply Hpoll.
Qed.

Lemma table_consistent_check_sound (s : GstMultiFdSink) :
  table_consistent_check s = true → table_consistent s.
Proof.
  unfold table_consistent_check. rewrite !andb_true_iff.
  intros [[[[Hnd Hdom] Hh] Hst] Hfs].
  apply bool_decide_eq_true in Hnd, Hdom, Hh, Hst, Hfs.
  constructor.
  - done.
  - intros l. rewrite <- elem_of_dom, <- Hdom. by rewrite elem_of_list_to_set.
  - intros f l. split.
    + intros Hl. specialize (Hh f l Hl). simpl in Hh.
      destruct (store s !! l) as [c|]; [| done].
      exists c. split; [done |]. by injection Hh.
    + intros (c & Hc & <-). exact (Hst l c Hc).
  - intros f. by rewrite <- !elem_of_dom, Hfs.
Qed.

Lemma add_full_keeps_table_consistent_witness :
  let s := Example.sink_with Example.default_props [Example.delta 1]
             [Example.served_client 7 0 0] in
  let env := mkAddEnv 5 false true (Some AF_INET) in
  table_consistent s
  ∧ table_consistent
      (gst_multi_fd_sink_add_full env 9 GST_SYNC_METHOD_BURST
         GST_TCP_UNIT_TYPE_BUFFERS 2 GST_TCP_UNIT_TYPE_BUFFERS 5 s).
Proof.
  intros s env.
  assert (H : table_consistent s)
    by (apply table_consistent_check_sound; vm_compute; reflexivity).
  split; [exact H |].
  exact (add_full_keeps_table_consistent env 9 GST_SYNC_METHOD_BURST
           GST_TCP_UNIT_TYPE_BUFFERS 2 GST_TCP_UNIT_TYPE_BUFFERS 5 s H).
Defined.

(** ** Adding and looking up *)

(** After [add_full] with limits that pass and a descriptor that is not
    in the table, the hash leads from the descriptor to the new client:
    it is the first of the list, has the descriptor, the sync method and
    the burst limits of the call, is OK and waits for its first buffer
    (position -1); the descriptor is in the poll set, for reading when
    reads are handled and the descriptor is not write-only, never for
    writing; every other client is as before and client-added is the last
    notification. *)
Theorem add_full_registers (env : AddEnv) (fdn : Z) (sync : GstSyncMethod)
    (min_unit : GstTCPUnitType) (min_value : Z) (max_unit : GstTCPUnitType)
    (max_value : Z) (s : GstMultiFdSink) :
  wrong_limits min_unit min_value max_unit max_value = false →
  fd_hash s !! fdn = None →
  let s' :=
    gst_multi_fd_sink_add_full env fdn sync min_unit min_value max_unit
      max_value s in
  ∃ (l : loc) (c : GstTCPClient),
    fd_hash s' !! fdn = Some l
    ∧ store s' !! l = Some c
    ∧ clients s' = l :: clients s
    ∧ fd c = fdn
    ∧ sync_method (mh c) = sync
    ∧ (burst_min_unit c, burst_min_value c) = (min_unit, min_value)
    ∧ (burst_max_unit c, burst_max_value c) = (max_unit, max_value)
    ∧ status (mh c) = GST_CLIENT_STATUS_OK
    ∧ bufpos (mh c) = -1
    ∧ fdset s' !! fdn
      = Some (mkPollFD (handle_read (props s) && negb (env_wronly env)) false)
    ∧ (∀ l' : loc, l' ≠ l → store s' !! l' = store s !! l')
    ∧ (∀ f : Z, f ≠ fdn → fd_hash s' !! f = fd_hash s !! f)
    ∧ last (trace s') = Some (SIGNAL_CLIENT_ADDED fdn).
Proof.
  intros Hlim Hh s'.
  destruct (add_full_fresh env fdn sync min_unit min_value max_unit max_value
              s Hlim Hh) as (Hst & Hcl & Hfh & Hfs & _ & _ & _ & evs & Htr).
  fold s' in Hst, Hcl, Hfh, Hfs, Htr.
  eexists _, _. rewrite Hst, Hcl, Hfh, Hfs, Htr.
  rewrite !lookup_insert_eq. repeat split; try reflexivity.
  - intros l' Hne. by rewrite lookup_insert_ne.
  - intros f Hne. by rewrite lookup_insert_ne.
  - replace (trace s ++ SetNonBlocking fdn :: evs
               ++ [PollRestart; SIGNAL_CLIENT_ADDED fdn])
      with ((trace s ++ SetNonBlocking fdn :: evs ++ [PollRestart])
              ++ [SIGNAL_CLIENT_ADDED fdn]).
    + by rewrite last_snoc.
    + rewrite <- app_assoc. simpl. by rewrite <- app_assoc.
Qed.

Lemma add_full_registers_witness :
  let s := Example.sink_with Example.default_props [Example.delta 1]
             [Example.served_client 7 0 0] in
  let env := mkAddEnv 5 false true (Some AF_INET) in
  let s' :=
    gst_multi_fd_sink_add_full env 9 GST_SYNC_METHOD_BURST
      GST_TCP_UNIT_TYPE_BUFFERS 2 GST_TCP_UNIT_TYPE_BUFFERS 5 s in
  wrong_limits GST_TCP_UNIT_TYPE_BUFFERS 2 GST_TCP_UNIT_TYPE_BUFFERS 5 = false
  ∧ fd_hash s !! 9 = None
  ∧ ∃ (l : loc) (c : GstTCPClient),
      fd_hash s' !! 9 = Some l
      ∧ store s' !! l = Some c
      ∧ clients s' = l :: clients s
      ∧ fd c = 9
      ∧ sync_method (mh c) = GST_SYNC_METHOD_BURST
      ∧ (burst_min_unit c, burst_min_value c) = (GST_TCP_UNIT_TYPE_BUFFERS, 2)
      ∧ (burst_max_unit c, burst_max_value c) = (GST_TCP_UNIT_TYPE_BUFFERS, 5)
      ∧ status (mh c) = GST_CLIENT_STATUS_OK
      ∧ bufpos (mh c) = -1
      ∧ fdset s' !! 9
        = Some (mkPollFD (handle_read (props s) && negb (env_wronly env)) false)
      ∧ (∀ l' : loc, l' ≠ l → store s' !! l' = store s !! l')
      ∧ (∀ f : Z, f ≠ 9 → fd_hash s' !! f = fd_hash s !! f)
      ∧ last (trace s') = Some (SIGNAL_CLIENT_ADDED 9).
Proof.
  intros s env s'.
  assert (H1 : wrong_limits GST_TCP_UNIT_TYPE_BUFFERS 2
                 GST_TCP_UNIT_TYPE_BUFFERS 5 = false) by reflexivity.
  assert (H2 : fd_hash s !! 9 = None) by reflexivity.
  split; [exact H1 |]. split; [exact H2 |].
  exact (add_full_registers env 9 GST_SYNC_METHOD_BURST
           GST_TCP_UNIT_TYPE_BUFFERS 2 GST_TCP_UNIT_TYPE_BUFFERS 5 s H1 H2).
Defined.

(** ** Removing *)

(** [remove] keeps the table consistent. *)
Theorem remove_keeps_table_consistent (now fdn : Z) (s s' : GstMultiFdSink) :
  table_consistent s →
  gst_multi_fd_sink_remove now fdn s = Some s' →
  table_consistent s'.
Proof.
  intros Hcons. unfold gst_multi_fd_sink_remove.
  destruct (fd_hash s !! fdn) as [l|]; [| by intros [= <-]].
  destruct (store s !! l) as [c|] eqn:Hc; [simpl | done].
  destruct (negb _); [by intros [= <-] |].
  destruct (gst_multi_fd_sink_remove_client_link now l _) as [s1|] eqn:Hrm;
    [simpl | done].
  intros [= <-]. apply emit_consistent.
  eapply remove_client_link_consistent; [| exact Hrm].
  by apply (update_client_consistent l c).
Qed.

Lemma remove_keeps_table_consistent_witness :
  let s := Example.sink_with Example.default_props [Example.delta 1]
             [Example.served_client 7 0 0; Example.served_client 8 0 0] in
  table_consistent s
  ∧ (∃ s', gst_multi_fd_sink_remove 5 7 s = Some s' ∧ table_consistent s').
Proof.
  intros s.
  assert (H : table_consistent s)
    by (apply table_consistent_check_sound; vm_compute; reflexivity).
  split; [exact H |].
  eexists. split; [vm_compute; reflexivity |].
  apply (remove_keeps_table_consistent 5 7 s _ H). vm_compute. reflexivity.
Defined.

(** [remove] of a descriptor whose client is OK takes the client out of
    the hash, the store, the list and the poll set, bumps the cookie,
    leaves every other client where and as it was, and notifies
    client-removed with the status Removed, then client-fd-removed, then
    wakes the poll loop. *)
Theorem remove_unregisters (now fdn : Z) (l : loc) (c : GstTCPClient)
    (s : GstMultiFdSink) :
  table_consistent s →
  fd_hash s !! fdn = Some l →
  store s !! l = Some c →
  status (mh c) = GST_CLIENT_STATUS_OK →
  currently_removing (mh c) = false →
  ∃ s' : GstMultiFdSink,
    gst_multi_fd_sink_remove now fdn s = Some s'
    ∧ fd_hash s' !! fdn = None
    ∧ store s' !! l = None
    ∧ (l ∉ clients s')
    ∧ fdset s' !! fdn = None
    ∧ clients_cookie s' = to_guint (clients_cookie s + 1)
    ∧ (∀ l' : loc, l' ≠ l →
         (store s' !! l' = store s !! l') ∧ (l' ∈ clients s' ↔ l' ∈ clients s))
    ∧ (∀ f : Z, f ≠ fdn →
         fd_hash s' !! f = fd_hash s !! f ∧ fdset s' !! f = fdset s !! f)
    ∧ trace s'
      = trace s ++ [SIGNAL_CLIENT_REMOVED fdn GST_CLIENT_STATUS_REMOVED;
                    SIGNAL_CLIENT_FD_REMOVED fdn; PollRestart].
Proof.
  intros Hcons Hh Hc Hok Hrem.
  assert (Hfd : fd c = fdn).
  { apply (tc_hash s Hcons) in Hh as (c0 & Hc0 & Hf). congruence. }
  pose proof (tc_nodup s Hcons) as Hnd.
  unfold gst_multi_fd_sink_remove. rewrite Hh, Hc. simpl.
  rewrite Hok. rewrite bool_decide_eq_true_2 by done. simpl.
  unfold gst_multi_fd_sink_remove_client_link.
  destruct s as [p o q cl m h k fds sh prev pc bq bts bs tr]. simpl in *.
  rewrite lookup_insert_eq. simpl. rewrite Hrem. simpl.
  eexists. split; [reflexivity |]. simpl. rewrite Hfd.
  rewrite !lookup_delete_eq. repeat split; try done.
  - rewrite (elem_of_g_list_remove cl l l Hnd). by intros [_ ?].
  - by rewrite lookup_delete_ne, !lookup_insert_ne.
  - rewrite (elem_of_g_list_remove cl l l' Hnd). by intros [? _].
  - intros Hin. by rewrite (elem_of_g_list_remove cl l l' Hnd).
  - by rewrite lookup_delete_ne.
  - by rewrite lookup_delete_ne.
  - by rewrite <- !app_assoc.
Qed.

Lemma remove_unregisters_witness :
  let s := Example.sink_with Example.default_props [Example.delta 1]
             [Example.served_client 7 0 0; Example.served_client 8 0 0] in
  let c := Example.served_client 7 0 0 in
  table_consistent s
  ∧ fd_hash s !! 7 = Some 1%positive
  ∧ store s !! 1%positive = Some c
  ∧ status (mh c) = GST_CLIENT_STATUS_OK
  ∧ currently_removing (mh c) = false
  ∧ ∃ s' : GstMultiFdSink,
      gst_multi_fd_sink_remove 5 7 s = Some s'
      ∧ fd_hash s' !! 7 = None
      ∧ store s' !! 1%positive = None
      ∧ (1%positive ∉ clients s')
      ∧ fdset s' !! 7 = None
      ∧ clients_cookie s' = to_guint (clients_cookie s + 1)
      ∧ (∀ l' : loc, l' ≠ 1%positive →
           (store s' !! l' = store s !! l')
           ∧ (l' ∈ clients s' ↔ l' ∈ clients s))
      ∧ (∀ f : Z, f ≠ 7 →
           fd_hash s' !! f = fd_hash s !! f ∧ fdset s' !! f = fdset s !! f)
      ∧ trace s'
        = trace s ++ [SIGNAL_CLIENT_REMOVED 7 GST_CLIENT_STATUS_REMOVED;
                      SIGNAL_CLIENT_FD_REMOVED 7; PollRestart].
Proof.
  intros s c.
  assert (H1 : table_consistent s)
    by (apply table_consistent_check_sound; vm_compute; reflexivity).
  assert (H2 : fd_hash s !! 7 = Some 1%positive) by reflexivity.
  assert (H3 : store s !! 1%positive = Some c) by reflexivity.
  assert (H4 : status (mh c) = GST_CLIENT_STATUS_OK) by reflexivity.
  assert (H5 : currently_removing (mh c) = false) by reflexivity.
  repeat (split; [assumption |]).
  exact (remove_unregisters 5 7 1%positive c s H1 H2 H3 H4 H5).
Defined.

(** [remove] undoes [add_full]: adding a descriptor that is not in the
    table and removing it again gives back the store, the list, the hash
    and the poll set as they were, and leaves the queue alone; only the
    cookie and the notifications tell that a client came and went. *)
Theorem add_then_remove_restores_table (env : AddEnv) (now fdn : Z)
    (sync : GstSyncMethod) (min_unit : GstTCPUnitType) (min_value : Z)
    (max_unit : GstTCPUnitType) (max_value : Z) (s : GstMultiFdSink) :
  table_consistent s →
  wrong_limits min_unit min_value max_unit max_value = false →
  fd_hash s !! fdn = None →
  ∃ s' : GstMultiFdSink,
    gst_multi_fd_sink_remove now fdn
      (gst_multi_fd_sink_add_full env fdn sync min_unit min_value max_unit
         max_value s)
    = Some s'
    ∧ store s' = store s
    ∧ clients s' = clients s
    ∧ fd_hash s' = fd_hash s
    ∧ fdset s' = fdset s
    ∧ bufqueue s' = bufqueue s
    ∧ clients_cookie s' = to_guint (to_guint (clients_cookie s + 1) + 1).
Proof.
  intros Hcons Hlim Hh.
  destruct (add_full_fresh env fdn sync min_unit min_value max_unit max_value
              s Hlim Hh) as (Hst & Hcl & Hfh & Hfs & Hck & Hq & _).
  set (s1 := gst_multi_fd_sink_add_full env fdn sync min_unit min_value
               max_unit max_value s) in *.
  set (l := fresh (dom (store s))) in *.
  assert (Hfresh : store s !! l = None)
    by (apply not_elem_of_dom, is_fresh).
  assert (Hpoll : fdset s !! fdn = None).
  { apply eq_None_not_Some. rewrite (tc_poll s Hcons), Hh. by intros [? ?]. }
  unfold gst_multi_fd_sink_remove.
  rewrite Hfh, lookup_insert_eq, Hst, lookup_insert_eq. simpl.
  unfold gst_multi_fd_sink_remove_client_link. simpl.
  rewrite lookup_insert_eq. simpl.
  eexists. split; [reflexivity |]. simpl.
  rewrite Hst, Hcl, Hfh, Hfs, Hck, Hq. simpl.
  rewrite decide_True by done.
  rewrite !insert_insert_eq, !delete_insert_eq.
  by rewrite !delete_id.
Qed.

Lemma add_then_remove_restores_table_witness :
  let s := Example.sink_with Example.default_props [Example.delta 1]
             [Example.served_client 7 0 0] in
  let env := mkAddEnv 5 false true (Some AF_INET) in
  table_consistent s
  ∧ wrong_limits GST_TCP_UNIT_TYPE_BUFFERS 2 GST_TCP_UNIT_TYPE_BUFFERS 5 = false
  ∧ fd_hash s !! 9 = None
  ∧ ∃ s' : GstMultiFdSink,
      gst_multi_fd_sink_remove 6 9
        (gst_multi_fd_sink_add_full env 9 GST_SYNC_METHOD_BURST
           GST_TCP_UNIT_TYPE_BUFFERS 2 GST_TCP_UNIT_TYPE_BUFFERS 5 s)
      = Some s'
      ∧ store s' = store s
      ∧ clients s' = clients s
      ∧ fd_hash s' = fd_hash s
      ∧ fdset s' = fdset s
      ∧ bufqueue s' = bufqueue s
      ∧ clients_cookie s' = to_guint (to_guint (clients_cookie s + 1) + 1).
Proof.
  intros s env.
  assert (H1 : table_consistent s)
    by (apply table_consistent_check_sound; vm_compute; reflexivity).
  assert (H2 : wrong_limits GST_TCP_UNIT_TYPE_BUFFERS 2
                 GST_TCP_UNIT_TYPE_BUFFERS 5 = false) by reflexivity.
  assert (H3 : fd_hash s !! 9 = None) by reflexivity.
  repeat (split; [assumption |]).
  exact (add_then_remove_restores_table env 6 9 GST_SYNC_METHOD_BURST
           GST_TCP_UNIT_TYPE_BUFFERS 2 GST_TCP_UNIT_TYPE_BUFFERS 5 s H1 H2 H3).
Defined.

(** [remove_flush] keeps the table consistent. *)
Theorem remove_flush_keeps_table_consistent (fdn : Z) (s s' : GstMultiFdSink) :
  table_consistent s →
  gst_multi_fd_sink_remove_flush fdn s = Some s' →
  table_consistent s'.
Proof.
  intros Hcons. unfold gst_multi_fd_sink_remove_flush.
  destruct (fd_hash s !! fdn) as [l|]; [| by intros [= <-]].
  destruct (store s !! l) as [c|] eqn:Hc; [simpl | done].
  destruct (negb _); intros [= <-]; [done |].
  by apply (update_client_consistent l c).
Qed.

Lemma remove_flush_keeps_table_consistent_witness :
  let s := Example.sink_with Example.default_props [Example.delta 1]
             [Example.served_client 7 0 0; Example.served_client 8 0 0] in
  table_consistent s
  ∧ (∃ s', gst_multi_fd_sink_remove_flush 7 s = Some s' ∧ table_consistent s').
Proof.
  intros s.
  assert (H : table_consistent s)
    by (apply table_consistent_check_sound; vm_compute; reflexivity).
  split; [exact H |].
  eexists. split; [vm_compute; reflexivity |].
  apply (remove_flush_keeps_table_consistent 7 s _ H). vm_compute. reflexivity.
Defined.

(** ** The table while clients are served and buffers queued *)

(** Consistency is about the list, the store, the hash and the poll set
    only. *)
Lemma table_consistent_ext (s s' : GstMultiFdSink) :
  clients s' = clients s → store s' = store s → fd_hash s' = fd_hash s →
  fdset s' = fdset s → table_consistent s → table_consistent s'.
Proof.
  intros Hcl Hst Hfh Hfs [Hnd Hlist Hhash Hpoll].
  constructor; rewrite ?Hcl, ?Hst, ?Hfh, ?Hfs; done.
Qed.

Lemma fd_on_mh (f : GstMultiHandleClient → GstMultiHandleClient)
    (c : GstTCPClient) :
  fd (on_mh f c) = fd c.
Proof. done. Qed.

Lemma new_client_fd (q : list GstBuffer) (c c' : GstTCPClient) (position : Z) :
  gst_multi_fd_sink_new_client q c = Some (position, c') → fd c' = fd c.
Proof.
  unfold gst_multi_fd_sink_new_client. intros H.
  destruct (sync_method (mh c)); simpl in H;
    try (destruct (count_burst_unit _ _ _ _ _); simpl in H; [| done]);
    repeat case_match; by injection H as <- <-.
Qed.

Lemma client_queue_buffer_fd (s : GstMultiFdSink) (buf : GstBuffer)
    (c : GstTCPClient) :
  fd (gst_multi_fd_sink_client_queue_buffer s buf c) = fd c.
Proof.
  unfold gst_multi_fd_sink_client_queue_buffer.
  repeat match goal with
    | |- context [match ?x with _ => _ end] => destruct x; simpl
    end; done.
Qed.

Lemma handle_client_read_fd (ioctl_ret avail : Z) (reads : list Z)
    (c c' : GstTCPClient) (ok : bool) :
  gst_multi_fd_sink_handle_client_read ioctl_ret avail reads c = Some (ok, c') →
  fd c' = fd c.
Proof.
  unfold gst_multi_fd_sink_handle_client_read.
  destruct (ioctl_ret <? 0); [by intros [= _ <-] |].
  destruct (avail =? 0); [by intros [= _ <-] |].
  destruct (avail <? 0); [by intros [= _ <-] |].
  destruct (read_and_drop reads avail) as [[[st|] ret]|]; simpl;
    [by intros [= _ <-] | by intros [= _ <-] | done].
Qed.

(** The first half of an iteration of the write loop leaves the table of
    the sink alone but for the interest in writing. *)
Lemma pick_buffer_table (flushing : bool) (s s' : GstMultiFdSink)
    (c c' : GstTCPClient) (picked : Picked) :
  pick_buffer flushing s c = Some (picked, s', c') →
  fd c' = fd c
  ∧ (s' = s ∨ s' = gst_poll_fd_ctl_write (fd c) false s).
Proof.
  unfold pick_buffer. destruct (sending (mh c)); [| by intros [= _ <- <-]; auto].
  destruct (bufpos (mh c) =? -1).
  { destruct (flushcount (mh c) =? 0); intros [= _ <- <-]; auto. }
  destruct (new_connection (mh c) && negb flushing); simpl.
  - destruct (gst_multi_fd_sink_new_client (bufqueue s) c) as [[position c1]|]
      eqn:Hnew; [simpl | done].
    apply new_client_fd in Hnew.
    destruct (0 <=? position); simpl.
    + destruct (flushcount (mh c1) =? 0); [by intros [= _ <- <-]; auto |].
      destruct (g_array_index _ _); [simpl | done].
      intros [= _ <- <-]. rewrite fd_on_mh, client_queue_buffer_fd.
      repeat case_match; rewrite ?fd_on_mh; auto.
    + intros [= _ <- <-]. rewrite Hnew. auto.
  - destruct (flushcount (mh c) =? 0); [by intros [= _ <- <-]; auto |].
    destruct (g_array_index _ _); [simpl | done].
    intros [= _ <- <-]. rewrite fd_on_mh, client_queue_buffer_fd.
    repeat case_match; rewrite ?fd_on_mh; auto.
Qed.

Lemma pick_buffer_consistent (flushing : bool) (s s' : GstMultiFdSink)
    (c c' : GstTCPClient) (picked : Picked) :
  pick_buffer flushing s c = Some (picked, s', c') →
  fd c' = fd c ∧ store s' = store s
  ∧ (table_consistent s → table_consistent s').
Proof.
  intros H. apply pick_buffer_table in H as [Hfd [-> | ->]].
  - done.
  - split; [done |]. split; [by destruct s |].
    apply gst_poll_fd_ctl_write_consistent.
Qed.

(** So does the write handler, which also counts the bytes. *)
Lemma handle_client_write_loop_consistent (flushing : bool) (now : Z)
    (writes : list WriteResult) :
  ∀ (s s' : GstMultiFdSink) (c c' : GstTCPClient) (ok : bool),
    handle_client_write_loop flushing now writes s c = Some (ok, s', c') →
    fd c' = fd c ∧ store s' = store s
    ∧ (table_consistent s → table_consistent s').
Proof.
  induction writes as [|w writes IH]; intros s s' c c' ok; simpl.
  - destruct (pick_buffer flushing s c) as [[[picked s1] c1]|] eqn:Hpick;
      [simpl | done].
    apply pick_buffer_consistent in Hpick.
    destruct picked; [by intros [= _ <- <-] |].
    by destruct (sending (mh c1)).
  - destruct (pick_buffer flushing s c) as [[[picked s1] c1]|] eqn:Hpick;
      [simpl | done].
    apply pick_buffer_consistent in Hpick as (Hfd & Hst & Hcons).
    destruct picked; [by intros [= _ <- <-] |].
    destruct (sending (mh c1)) as [|head tail]; [done |].
    destruct (wrote w <? 0).
    { destruct (write_errno w); by intros [= _ <- <-]. }
    destruct (wrote w <? _) eqn:Hpartial.
    + intros [= _ <- <-]. simpl. split; [done |]. split; [by destruct s1 |].
      intros H. apply (table_consistent_ext s1); auto; by destruct s1.
    + intros H. apply IH in H as (Hfd' & Hst' & Hcons').
      simpl in *. split; [congruence |].
      split; [rewrite Hst'; by destruct s1 |].
      intros Hs. apply Hcons'.
      apply (table_consistent_ext s1); auto; by destruct s1.
Qed.

(** Serving a client keeps the table consistent, whatever the poll set
    reports for it and whatever the reads and writes give: the client is
    written back under its descriptor or taken out of the list, the hash
    and the poll set together. *)
Theorem handle_clients_client_keeps_table_consistent (ev : PollEvents)
    (env : ServeEnv) (l : loc) (s s' : GstMultiFdSink) :
  table_consistent s →
  handle_clients_client ev env l s = Some s' →
  table_consistent s'.
Proof.
  intros Hcons. unfold handle_clients_client.
  destruct (store s !! l) as [c|] eqn:Hc; [simpl | done].
  destruct (negb _ && negb _).
  { by apply remove_client_link_consistent. }
  destruct (has_closed ev).
  { apply remove_client_link_consistent.
    by apply (update_client_consistent l c). }
  destruct (has_error ev).
  { apply remove_client_link_consistent.
    by apply (update_client_consistent l c). }
  assert (Hread :
    ∀ (ok : bool) (c1 : GstTCPClient),
      fd c1 = fd c →
      (if negb ok
       then gst_multi_fd_sink_remove_client_link (srv_now env) l
              (update_client l c1 s)
       else
         if can_write ev
         then
           '(ok, s, c) ←
             gst_multi_fd_sink_handle_client_write (srv_now env)
               (srv_writes env) (update_client l c1 s) c1;
           let s := update_client l c s in
           if negb ok
           then gst_multi_fd_sink_remove_client_link (srv_now env) l s
           else Some s
         else Some (update_client l c1 s)) = Some s' →
      table_consistent s').
  { intros ok c1 Hfd1.
    assert (Hs1 : table_consistent (update_client l c1 s))
      by by apply (update_client_consistent l c).
    destruct ok; simpl; [| by apply remove_client_link_consistent].
    destruct (can_write ev); [| by intros [= <-]].
    unfold gst_multi_fd_sink_handle_client_write.
    destruct (handle_client_write_loop _ _ _ _ _) as [[[ok2 s2] c2]|] eqn:Hw;
      [simpl | done].
    apply handle_client_write_loop_consistent in Hw as (Hfd2 & Hst2 & Hcons2).
    assert (Hs2 : table_consistent (update_client l c2 s2)).
    { apply (update_client_consistent l c1); [by apply Hcons2 | | done].
      rewrite Hst2. destruct s. simpl. by rewrite lookup_insert_eq. }
    destruct ok2; simpl; [by intros [= <-] |].
    by apply remove_client_link_consistent. }
  destruct (can_read ev).
  - destruct (gst_multi_fd_sink_handle_client_read _ _ _ _) as [[ok c1]|]
      eqn:Hrd; [simpl | done].
    apply handle_client_read_fd in Hrd. by apply Hread.
  - simpl. by apply (Hread true c).
Qed.

Lemma handle_clients_client_keeps_table_consistent_witness :
  let s := Example.sink_with Example.default_props
             [Example.delta 3; Example.delta 2]
             [Example.served_client 7 0 1; Example.served_client 8 0 0] in
  let ev := mkPollEvents false false true true in
  let env := mkServeEnv 9 0 4 [4] [mkWrite 2 EAGAIN; mkWrite (-1) ECONNRESET] in
  table_consistent s
  ∧ (∃ s', handle_clients_client ev env 1%positive s = Some s'
           ∧ clients s' = [2%positive]
           ∧ table_consistent s').
Proof.
  intros s ev env.
  assert (H : table_consistent s)
    by (apply table_consistent_check_sound; vm_compute; reflexivity).
  split; [exact H |].
  eexists. split; [vm_compute; reflexivity |]. split; [reflexivity |].
  apply (handle_clients_client_keeps_table_consistent ev env 1%positive s _ H).
  vm_compute. reflexivity.
Defined.

Lemma queue_buffer_client_consistent (now max_buffers soft_max_buffers : Z)
    (l : loc) (w w' : walk) :
  table_consistent (w_sink w) →
  queue_buffer_client now max_buffers soft_max_buffers l w = Some w' →
  table_consistent (w_sink w').
Proof.
  intros Hcons. unfold queue_buffer_client.
  destruct (store (w_sink w) !! l) as [c|] eqn:Hc; [simpl | done].
  set (c1 := on_mh (set_bufpos (to_gint (bufpos (mh c) + 1))) c).
  assert (Hrec :
    ∀ c2 : GstTCPClient,
      (if (0 <? soft_max_buffers) && (soft_max_buffers <=? bufpos (mh c1))
       then
         newpos ←
           gst_multi_fd_sink_recover_client (props (w_sink w))
             (bufqueue (w_sink w)) c1;
         (if negb (newpos =? bufpos (mh c1))
          then
            Some
              (on_mh (set_discont true)
                 (on_mh (set_bufpos newpos)
                    (on_mh
                       (set_dropped_buffers
                          (to_guint64
                             (dropped_buffers (mh c1)
                              + to_gint (bufpos (mh c1) - newpos)))) c1)))
          else Some c1)
       else Some c1) = Some c2 →
      fd c2 = fd c).
  { intros c2. destruct (_ && _); [| by intros [= <-]].
    destruct (gst_multi_fd_sink_recover_client _ _ _) as [newpos|];
      [simpl | done].
    destruct (negb _); by intros [= <-]. }
  destruct (if (0 <? soft_max_buffers) && _ then _ else _) as [c2|];
    [simpl | done].
  specialize (Hrec c2 eq_refl) as Hc2.
  destruct (_ || _).
  - destruct (gst_multi_fd_sink_remove_client_link _ _ _) as [s1|] eqn:Hrm;
      [simpl | done].
    intros [= <-]. simpl.
    eapply remove_client_link_consistent; [| exact Hrm].
    by apply (update_client_consistent l c).
  - assert (Hs : table_consistent (update_client l c2 (w_sink w)))
      by by apply (update_client_consistent l c).
    destruct (_ || _); intros [= <-]; simpl; [| done].
    by apply gst_poll_fd_ctl_write_consistent.
Qed.

Lemma queue_buffer_walk_consistent (now max_buffers soft_max_buffers cookie : Z)
    (links : list loc) :
  ∀ (w w' : walk) (restart : bool),
    table_consistent (w_sink w) →
    queue_buffer_walk now max_buffers soft_max_buffers cookie links w
    = Some (w', restart) →
    table_consistent (w_sink w').
Proof.
  induction links as [|l links IH]; intros w w' restart Hcons; simpl.
  - by intros [= <- _].
  - destruct (negb _); [by intros [= <- _] |].
    destruct (queue_buffer_client _ _ _ _ _) as [w1|] eqn:Hw1; [simpl | done].
    apply IH. by eapply queue_buffer_client_consistent.
Qed.

Lemma queue_buffer_clients_consistent (now max_buffers soft_max_buffers : Z)
    (n : nat) :
  ∀ w w' : walk,
    table_consistent (w_sink w) →
    queue_buffer_clients n now max_buffers soft_max_buffers w = Some w' →
    table_consistent (w_sink w').
Proof.
  induction n as [|n IH]; intros w w' Hcons; simpl;
    destruct (queue_buffer_walk _ _ _ _ _ _) as [[w1 [|]]|] eqn:Hwalk;
    try done;
    apply queue_buffer_walk_consistent in Hwalk; try done.
  - by intros [= <-].
  - by apply IH.
  - by intros [= <-].
Qed.

Lemma queue_buffer_consistent (now : Z) (buf : GstBuffer)
    (s s' : GstMultiFdSink) :
  table_consistent s →
  gst_multi_fd_sink_queue_buffer now buf s = Some s' →
  table_consistent s'.
Proof.
  intros Hcons. unfold gst_multi_fd_sink_queue_buffer.
  destruct (queue_buffer_clients _ _ _ _ _) as [w|] eqn:Hw; [simpl | done].
  apply queue_buffer_clients_consistent in Hw;
    [| by apply (table_consistent_ext s); destruct s].
  destruct (find_limits _ _ _ _ _ _ _) as [lim|]; [simpl | done].
  intros [= <-].
  destruct (w_need_signal w); [apply emit_consistent |];
    by apply (table_consistent_ext (w_sink w)); destruct (w_sink w).
Qed.

(** [render] keeps the table consistent: a header buffer does not touch
    the clients, and for a data buffer every client that is moved is
    written back under its descriptor, every client that is dropped as
    slow is taken out of the list, the hash and the poll set together,
    also across the restarts of the client loop. *)
Theorem render_keeps_table_consistent (now : Z) (buf : GstBuffer)
    (s s' : GstMultiFdSink) (ret : GstFlowReturn) :
  table_consistent s →
  gst_multi_fd_sink_render now buf s = Some (ret, s') →
  table_consistent s'.
Proof.
  intros Hcons. unfold gst_multi_fd_sink_render.
  destruct (negb (sink_open s)); [by intros [= _ <-] |].
  destruct (buf_header buf); simpl.
  - intros [= _ <-].
    apply (table_consistent_ext s); try done;
      destruct (negb _); by destruct s.
  - destruct (gst_multi_fd_sink_queue_buffer _ _ _) as [s1|] eqn:Hq;
      [simpl | done].
    intros [= _ <-]. apply queue_buffer_consistent in Hq.
    + apply (table_consistent_ext s1); by destruct s1.
    + apply (table_consistent_ext s); by destruct s.
Qed.

Lemma render_keeps_table_consistent_witness :
  let p := mkProps GST_TCP_UNIT_TYPE_BUFFERS 2 (-1) GST_RECOVER_POLICY_NONE 0
             GST_SYNC_METHOD_LATEST GST_TCP_UNIT_TYPE_UNDEFINED 0 (-1) (-1)
             GST_CLOCK_TIME_NONE (-1) true true in
  let s := Example.sink_with p
             [Example.delta 3; Example.delta 2]
             [Example.served_client 7 0 1; Example.served_client 8 0 0] in
  table_consistent s
  ∧ (∃ s', gst_multi_fd_sink_render 9 (Example.delta 1) s
           = Some (GST_FLOW_OK, s')
           ∧ clients s' = [2%positive]
           ∧ table_consistent s').
Proof.
  intros p s.
  assert (H : table_consistent s)
    by (apply table_consistent_check_sound; vm_compute; reflexivity).
  split; [exact H |].
  eexists. split; [vm_compute; reflexivity |]. split; [reflexivity |].
  apply (render_keeps_table_consistent 9 (Example.delta 1) s _ GST_FLOW_OK H).
  vm_compute. reflexivity.
Defined.

(** ** [render] returns *)

Lemma remove_client_link_frame (now : Z) (l : loc) (s s' : GstMultiFdSink) :
  gst_multi_fd_sink_remove_client_link now l s = Some s' →
  props s' = props s ∧ bufqueue s' = bufqueue s.
Proof.
  unfold gst_multi_fd_sink_remove_client_link.
  destruct (store s !! l) as [c|]; [simpl | done].
  destruct (currently_removing (mh c)); intros [= <-]; by destruct s.
Qed.

(** The body of the client loop leaves the properties and the queue
    alone. *)
Lemma queue_buffer_client_frame (now max_buffers soft_max_buffers : Z)
    (l : loc) (w w' : walk) :
  queue_buffer_client now max_buffers soft_max_buffers l w = Some w' →
  props (w_sink w') = props (w_sink w)
  ∧ bufqueue (w_sink w') = bufqueue (w_sink w).
Proof.
  unfold queue_buffer_client.
  destruct (store (w_sink w) !! l) as [c|]; [simpl | done].
  match goal with |- context [mbind _ ?x] => destruct x as [c'|] end;
    [simpl | done].
  destruct (_ || _).
  - destruct (gst_multi_fd_sink_remove_client_link _ _ _) as [s'|] eqn:Hrm;
      [simpl | done].
    intros [= <-]. simpl.
    apply remove_client_link_frame in Hrm. by destruct (w_sink w).
  - destruct (_ || _); intros [= <-]; by destruct (w_sink w).
Qed.

Lemma queue_buffer_walk_frame (now max_buffers soft_max_buffers cookie : Z)
    (links : list loc) :
  ∀ (w w' : walk) (restart : bool),
    queue_buffer_walk now max_buffers soft_max_buffers cookie links w
    = Some (w', restart) →
    props (w_sink w') = props (w_sink w)
    ∧ bufqueue (w_sink w') = bufqueue (w_sink w).
Proof.
  induction links as [|l links IH]; intros w w' restart; simpl.
  - by intros [= <- _].
  - destruct (negb _); [by intros [= <- _] |].
    destruct (queue_buffer_client _ _ _ _ _) as [w1|] eqn:Hw1; [simpl | done].
    apply queue_buffer_client_frame in Hw1 as [Hp Hq].
    intros H. apply IH in H as [Hp' Hq']. split; congruence.
Qed.

Lemma queue_buffer_clients_frame (now max_buffers soft_max_buffers : Z)
    (n : nat) :
  ∀ w w' : walk,
    queue_buffer_clients n now max_buffers soft_max_buffers w = Some w' →
    props (w_sink w') = props (w_sink w)
    ∧ bufqueue (w_sink w') = bufqueue (w_sink w).
Proof.
  induction n as [|n IH]; intros w w'; simpl;
    destruct (queue_buffer_walk _ _ _ _ _ _) as [[w1 [|]]|] eqn:Hwalk;
    try done;
    apply queue_buffer_walk_frame in Hwalk as [Hp Hq].
  - by intros [= <-].
  - intros H. apply IH in H as [Hp' Hq']. split; congruence.
  - by intros [= <-].
Qed.

Section producer_returns.

Variables (now max_buffers soft_max_buffers : Z) (q : list GstBuffer)
  (p : SinkProps).

(** The soft maximum is unset or what [get_buffers_max] gives on the
    queue [q], which is not empty. *)
Hypothesis Hsoft :
  soft_max_buffers ≤ 0
  ∨ soft_max_buffers = get_buffers_max (unit_type p) q (units_soft_max p).
Hypothesis Hq : Z.of_nat (length q) ≤ G_MAXINT.
Hypothesis Hq_pos : (0 < length q)%nat.

(** Past the soft maximum every recover policy gives a position: the
    keyframe policy reads the queue at its indices only. *)
Lemma recover_client_is_Some (c : GstTCPClient) :
  0 < soft_max_buffers →
  is_Some (gst_multi_fd_sink_recover_client p q c).
Proof.
  intros Hpos. destruct Hsoft as [| Heq]; [lia |].
  unfold gst_multi_fd_sink_recover_client.
  destruct (recover_policy p); try by eexists.
  rewrite (resync_keyframe_start_min p q Hq_pos Hq) by lia.
  set (start := Z.min _ _).
  destruct (Z.ltb_spec start 0) as [| Hstart]; [by eexists |].
  apply resync_keyframe_scan_is_Some. lia.
Qed.

(** The body of the client loop returns for a client that is in the
    store. *)
Lemma queue_buffer_client_is_Some (l : loc) (w : walk) :
  props (w_sink w) = p → bufqueue (w_sink w) = q →
  is_Some (store (w_sink w) !! l) →
  is_Some (queue_buffer_client now max_buffers soft_max_buffers l w).
Proof.
  intros Hp Hqueue [c Hc]. unfold queue_buffer_client.
  rewrite Hc, Hp, Hqueue. simpl.
  destruct (Z.ltb_spec 0 soft_max_buffers) as [Hpos |]; simpl;
    [destruct (_ <=? _); simpl;
       [match goal with
        | |- context [gst_multi_fd_sink_recover_client p q ?c1] =>
            destruct (recover_client_is_Some c1 Hpos) as [newpos ->]
        end; simpl; destruct (negb _); simpl |] |].
  all: destruct (_ || _);
    [unfold gst_multi_fd_sink_remove_client_link;
     destruct (w_sink w); simpl; rewrite lookup_insert_eq; simpl;
     case_match; simpl; by eexists
    | destruct (_ || _); by eexists].
Qed.

(** A walk returns when the links it is given are clients of the list as
    long as the cookie is the one it started with. *)
Lemma queue_buffer_walk_is_Some (cookie : Z) (links : list loc) :
  ∀ w : walk,
    props (w_sink w) = p → bufqueue (w_sink w) = q →
    table_consistent (w_sink w) →
    (cookie = clients_cookie (w_sink w) →
     ∀ l : loc, l ∈ links → l ∈ clients (w_sink w)) →
    is_Some
      (queue_buffer_walk now max_buffers soft_max_buffers cookie links w).
Proof.
  induction links as [|l links IH]; intros w Hp Hqueue Hcons Hin; simpl;
    [by eexists |].
  destruct (Z.eqb_spec cookie (clients_cookie (w_sink w))) as [Heq | Hne];
    simpl; [| by eexists].
  assert (Hl : is_Some (store (w_sink w) !! l)).
  { apply (tc_list _ Hcons), (Hin Heq). by left. }
  destruct (queue_buffer_client_is_Some l w Hp Hqueue Hl) as [w1 Hw1].
  rewrite Hw1. simpl.
  destruct (queue_buffer_client_frame _ _ _ _ _ _ Hw1) as [Hp1 Hq1].
  apply IH; [congruence | congruence | |].
  - by eapply queue_buffer_client_consistent.
  - intros Heq1 l' Hl'.
    destruct (queue_buffer_client_clients _ _ _ _ _ _ Hw1)
      as [[Hcl _] | [_ Hck]].
    + rewrite Hcl. apply (Hin Heq). by right.
    + rewrite Hck, <- Heq in Heq1. symmetry in Heq1.
      by apply cookie_bump_differs in Heq1.
Qed.

(** The client loop returns, with the restarts it is given. *)
Lemma queue_buffer_clients_is_Some (n : nat) :
  ∀ w : walk,
    (length (clients (w_sink w)) ≤ n)%nat →
    props (w_sink w) = p → bufqueue (w_sink w) = q →
    table_consistent (w_sink w) →
    is_Some (queue_buffer_clients n now max_buffers soft_max_buffers w).
Proof.
  induction n as [|n IH]; intros w Hlen Hp Hqueue Hcons; simpl;
    destruct (queue_buffer_walk_is_Some (clients_cookie (w_sink w))
                (clients (w_sink w)) w Hp Hqueue Hcons ltac:(done))
      as [[w1 restart] Hwalk];
    rewrite Hwalk; (destruct restart; [| by eexists]).
  - apply (queue_buffer_walk_restart _ _ _ _ []) in Hwalk; [lia | done].
  - pose proof Hwalk as Hwalk'.
    apply (queue_buffer_walk_restart _ _ _ _ []) in Hwalk; [| done].
    destruct (queue_buffer_walk_frame _ _ _ _ _ _ _ _ Hwalk') as [Hp1 Hq1].
    apply IH; [lia | congruence | congruence |].
    by eapply queue_buffer_walk_consistent.
Qed.

End producer_returns.

(** [render] returns for every buffer, on every sink with a consistent
    table and a queue of fewer than [G_MAXINT] buffers: no client
    structure is missed, no read leaves the queue, the assertion of
    [find_limits] holds, and the client loop restarts at most as many
    times as there are clients.  The result is [GST_FLOW_OK] on an open
    sink. *)
Theorem render_returns (now : Z) (buf : GstBuffer) (s : GstMultiFdSink) :
  table_consistent s →
  Z.of_nat (length (bufqueue s)) < G_MAXINT →
  ∃ s' : GstMultiFdSink,
    gst_multi_fd_sink_render now buf s
    = Some (if sink_open s then GST_FLOW_OK else GST_FLOW_FLUSHING, s').
Proof.
  intros Hcons Hlen. unfold gst_multi_fd_sink_render.
  destruct (sink_open s) eqn:Hopen; simpl; [| by eexists].
  destruct (buf_header buf); simpl; [by eexists |].
  set (s0 := set_previous_buffer_in_caps false s).
  assert (Hcons0 : table_consistent s0)
    by (apply (table_consistent_ext s); by destruct s).
  assert (Hlen0 : bufqueue s0 = bufqueue s) by (by destruct s).
  unfold gst_multi_fd_sink_queue_buffer. cbv zeta.
  set (q := buf :: bufqueue s0).
  set (s1 := set_bufqueue q s0).
  assert (Hp1 : props s1 = props s0) by (by destruct s0).
  assert (Hq1 : bufqueue s1 = q) by (by destruct s0).
  assert (Hcons1 : table_consistent s1)
    by (apply (table_consistent_ext s0); by destruct s0).
  assert (Hqlen : Z.of_nat (length q) ≤ G_MAXINT)
    by (subst q; rewrite Hlen0; simpl; lia).
  assert (Hqpos : (0 < length q)%nat) by (subst q; simpl; lia).
  rewrite Hq1, Hp1.
  set (hard := if 0 <? units_max (props s0) then _ else _).
  set (soft := if 0 <? units_soft_max (props s0) then _ else _).
  assert (Hsoft : soft ≤ 0
                  ∨ soft = get_buffers_max (unit_type (props s0)) q
                             (units_soft_max (props s0))).
  { destruct (Z.ltb_spec 0 (units_soft_max (props s0))); subst soft;
      [by right | by left]. }
  destruct (queue_buffer_clients_is_Some now hard soft q (props s0) Hsoft
              Hqlen Hqpos (length (clients s1)) (mkWalk s1 false 0)
              ltac:(done) Hp1 Hq1 Hcons1) as [w Hw].
  rewrite Hw. simpl.
  apply queue_buffer_clients_frame in Hw as [_ Hqw].
  change (bufqueue (w_sink w) = bufqueue s1) in Hqw.
  rewrite Hqw, Hq1.
  match goal with
  | |- context [find_limits q ?a ?b ?c ?d ?e ?f] =>
      destruct (find_limits_is_Some q a b c d e f) as [lim ->]
  end.
  { rewrite (queue_len_length q Hqlen). lia. }
  simpl. by eexists.
Qed.

Lemma render_returns_witness :
  let p := mkProps GST_TCP_UNIT_TYPE_BUFFERS 2 (-1) GST_RECOVER_POLICY_NONE 0
             GST_SYNC_METHOD_LATEST GST_TCP_UNIT_TYPE_UNDEFINED 0 (-1) (-1)
             GST_CLOCK_TIME_NONE (-1) true true in
  let s := Example.sink_with p
             [Example.delta 3; Example.delta 2]
             [Example.served_client 7 0 1; Example.served_client 8 0 0] in
  table_consistent s
  ∧ Z.of_nat (length (bufqueue s)) < G_MAXINT
  ∧ ∃ s' : GstMultiFdSink,
      gst_multi_fd_sink_render 9 (Example.delta 1) s
      = Some (if sink_open s then GST_FLOW_OK else GST_FLOW_FLUSHING, s').
Proof.
  intros p s.
  assert (H1 : table_consistent s)
    by (apply table_consistent_check_sound; vm_compute; reflexivity).
  assert (H2 : Z.of_nat (length (bufqueue s)) < G_MAXINT) by reflexivity.
  split; [exact H1 |]. split; [exact H2 |].
  exact (render_returns 9 (Example.delta 1) s H1 H2).
Defined.

Lemma table_consistent_wf (s : GstMultiFdSink) :
  table_consistent s → table_wf s.
Proof. intros [Hnd Hlist _ _]. by split. Qed.

(** ** The queue after [render] *)

(** [render] of a data buffer on an open sink puts the buffer at the
    head of the queue and drops buffers from the old end only: the new
    queue is the [buffers_queued + 1] newest buffers, and never fewer
    than two when there are two. *)
Theorem render_queue_prefix (now : Z) (buf : GstBuffer)
    (s s' : GstMultiFdSink) (ret : GstFlowReturn) :
  sink_open s = true → buf_header buf = false →
  Z.of_nat (length (bufqueue s)) < G_MAXINT →
  gst_multi_fd_sink_render now buf s = Some (ret, s') →
  1 ≤ buffers_queued s'
  ∧ bufqueue s' = take (Z.to_nat (buffers_queued s' + 1)) (buf :: bufqueue s).
Proof.
  intros Hopen Hdata Hlen. unfold gst_multi_fd_sink_render.
  rewrite Hopen, Hdata. simpl.
  set (s0 := set_previous_buffer_in_caps false s).
  assert (Hlen0 : bufqueue s0 = bufqueue s) by (by destruct s).
  rewrite <- Hlen0.
  unfold gst_multi_fd_sink_queue_buffer. cbv zeta.
  set (q := buf :: bufqueue s0).
  set (s1 := set_bufqueue q s0).
  assert (Hq1 : bufqueue s1 = q) by (by destruct s0).
  assert (Hqlen : Z.of_nat (length q) ≤ G_MAXINT)
    by (subst q; rewrite Hlen0; simpl; lia).
  destruct (queue_buffer_clients _ _ _ _ _) as [w|] eqn:Hw; [simpl | done].
  apply queue_buffer_clients_frame in Hw as [_ Hqw].
  change (bufqueue (w_sink w) = bufqueue s1) in Hqw.
  rewrite Hqw, Hq1.
  destruct (find_limits q _ _ _ _ _ _) as [lim|] eqn:Hlim; [simpl | done].
  apply (find_limits_range _ _ _ _ _ _ _ _ Hqlen) in Hlim as [Hmin _].
  set (usage := if _ || _ then _ else _).
  assert (Husage : 1 ≤ usage).
  { subst usage.
    assert (to_gint (min_idx lim + 1) = min_idx lim + 1) as Hinc
      by (apply to_gint_id; unfold G_MININT, G_MAXINT in *; lia).
    rewrite !MAX_max, Hinc.
    destruct (_ || _); [| lia].
    destruct (first_sync_point _ _); rewrite ?MAX_max; lia. }
  rewrite (queue_len_length q Hqlen), Nat2Z.id, trim_queue_take by lia.
  intros [= _ <-].
  destruct (w_need_signal w); destruct (w_sink w); simpl; done.
Qed.

Lemma render_queue_prefix_witness :
  let p := mkProps GST_TCP_UNIT_TYPE_BUFFERS 2 (-1) GST_RECOVER_POLICY_NONE 0
             GST_SYNC_METHOD_LATEST GST_TCP_UNIT_TYPE_UNDEFINED 0 (-1) (-1)
             GST_CLOCK_TIME_NONE (-1) true true in
  let s := Example.sink_with p
             [Example.delta 3; Example.delta 2; Example.delta 5]
             [Example.served_client 7 0 1; Example.served_client 8 0 0] in
  ∃ s' : GstMultiFdSink,
    gst_multi_fd_sink_render 9 (Example.delta 1) s = Some (GST_FLOW_OK, s')
    ∧ bufqueue s' = [Example.delta 1; Example.delta 3]
    ∧ 1 ≤ buffers_queued s'
    ∧ bufqueue s'
      = take (Z.to_nat (buffers_queued s' + 1))
          (Example.delta 1 :: bufqueue s).
Proof.
  intros p s. eexists. split; [vm_compute; reflexivity |].
  split; [reflexivity |].
  apply (render_queue_prefix 9 (Example.delta 1) s _ GST_FLOW_OK).
  - reflexivity.
  - reflexivity.
  - reflexivity.
  - vm_compute. reflexivity.
Defined.

(** ** Positions, on both sides *)

(** With neither hard maximum nor timeout set, [render] keeps every
    client at -1 or at an index of the queue: the buffers it drops are
    older than the position of every client. *)
Theorem render_keeps_positions (now : Z) (buf : GstBuffer)
    (s s' : GstMultiFdSink) (ret : GstFlowReturn) :
  units_max (props s) ≤ 0 → timeout (props s) ≤ 0 →
  table_wf s → bufpos_invariant s →
  Z.of_nat (length (bufqueue s)) < G_MAXINT →
  gst_multi_fd_sink_render now buf s = Some (ret, s') →
  bufpos_invariant s'.
Proof.
  intros Hhard Htimeout Hwf Hinv Hlen. unfold gst_multi_fd_sink_render.
  destruct (negb (sink_open s)); [by intros [= _ <-] |].
  destruct (buf_header buf); simpl.
  - intros [= _ <-]. destruct (negb _); by destruct s.
  - destruct (gst_multi_fd_sink_queue_buffer _ _ _) as [s1|] eqn:Hq;
      [simpl | done].
    intros [= _ <-].
    apply queue_buffer_keeps_positions in Hq; by destruct s.
Qed.

Lemma render_keeps_positions_witness :
  let s := Example.sink_with Example.default_props
             [Example.delta 3; Example.delta 2]
             [Example.served_client 7 0 1; Example.served_client 8 0 (-1)] in
  ∃ s' : GstMultiFdSink,
    gst_multi_fd_sink_render 9 (Example.delta 1) s = Some (GST_FLOW_OK, s')
    ∧ bufpos_invariant s'.
Proof.
  intros s. eexists. split; [vm_compute; reflexivity |].
  apply (render_keeps_positions 9 (Example.delta 1) s _ GST_FLOW_OK).
  - vm_compute. discriminate.
  - vm_compute. discriminate.
  - apply table_consistent_wf, table_consistent_check_sound.
    vm_compute. reflexivity.
  - apply (@bool_decide_unpack _ (bufpos_invariant_dec s)). vm_compute. exact I.
  - reflexivity.
  - vm_compute. reflexivity.
Defined.

Lemma update_client_positions (l : loc) (c : GstTCPClient)
    (s : GstMultiFdSink) :
  bufpos_valid (bufqueue s) c → bufpos_invariant s →
  bufpos_invariant (update_client l c s).
Proof.
  intros Hc Hinv. unfold bufpos_invariant.
  destruct s; simpl in *. by apply map_Forall_insert_2.
Qed.

Lemma remove_client_link_positions (now : Z) (l : loc)
    (s s' : GstMultiFdSink) :
  bufpos_invariant s →
  gst_multi_fd_sink_remove_client_link now l s = Some s' →
  bufpos_invariant s' ∧ bufqueue s' = bufqueue s.
Proof.
  intros Hinv. unfold gst_multi_fd_sink_remove_client_link.
  destruct (store s !! l) as [c|]; [simpl | done].
  destruct (currently_removing (mh c)); intros [= <-]; [done |].
  unfold bufpos_invariant in *. destruct s; simpl in *.
  split; [| done].
  rewrite delete_insert_eq. by apply map_Forall_delete.
Qed.

Lemma handle_client_read_bufpos (ioctl_ret avail : Z) (reads : list Z)
    (c c' : GstTCPClient) (ok : bool) :
  gst_multi_fd_sink_handle_client_read ioctl_ret avail reads c = Some (ok, c') →
  bufpos (mh c') = bufpos (mh c).
Proof.
  unfold gst_multi_fd_sink_handle_client_read.
  destruct (ioctl_ret <? 0); [by intros [= _ <-] |].
  destruct (avail =? 0); [by intros [= _ <-] |].
  destruct (avail <? 0); [by intros [= _ <-] |].
  destruct (read_and_drop reads avail) as [[[st|] ret]|]; simpl;
    [by intros [= _ <-] | by intros [= _ <-] | done].
Qed.

(** Serving a client keeps every client of the store at -1 or at an
    index of the queue, and leaves the queue as it is: a write moves the
    client down by the buffers it takes, a new client is placed inside
    the queue, and a removed client leaves the store. *)
Theorem handle_clients_client_keeps_positions (ev : PollEvents)
    (env : ServeEnv) (l : loc) (s s' : GstMultiFdSink) :
  bufpos_invariant s →
  Z.of_nat (length (bufqueue s)) ≤ G_MAXINT →
  handle_clients_client ev env l s = Some s' →
  bufpos_invariant s' ∧ bufqueue s' = bufqueue s.
Proof.
  intros Hinv Hlen. unfold handle_clients_client.
  destruct (store s !! l) as [c|] eqn:Hc; [simpl | done].
  pose proof (Hinv l c Hc) as Hvalid. simpl in Hvalid.
  assert (Hupd :
    ∀ c1 : GstTCPClient,
      bufpos (mh c1) = bufpos (mh c) →
      bufpos_invariant (update_client l c1 s)
      ∧ bufqueue (update_client l c1 s) = bufqueue s
      ∧ bufpos_valid (bufqueue (update_client l c1 s)) c1).
  { intros c1 Hpos.
    assert (bufpos_valid (bufqueue s) c1)
      by (unfold bufpos_valid in *; by rewrite Hpos).
    split; [by apply update_client_positions |]. by destruct s. }
  assert (Hrm :
    ∀ c1 : GstTCPClient,
      bufpos (mh c1) = bufpos (mh c) →
      gst_multi_fd_sink_remove_client_link (srv_now env) l
        (update_client l c1 s) = Some s' →
      bufpos_invariant s' ∧ bufqueue s' = bufqueue s).
  { intros c1 Hpos Hrem. destruct (Hupd c1 Hpos) as (Hi & Hq & _).
    apply remove_client_link_positions in Hrem as [Hi' Hq']; [| done].
    split; [done | congruence]. }
  destruct (negb _ && negb _).
  { intros Hrem.
    apply remove_client_link_positions in Hrem as [Hi' Hq']; done. }
  destruct (has_closed ev); [by apply Hrm |].
  destruct (has_error ev); [by apply Hrm |].
  assert (Hread :
    ∀ (ok : bool) (c1 : GstTCPClient),
      bufpos (mh c1) = bufpos (mh c) →
      (if negb ok
       then gst_multi_fd_sink_remove_client_link (srv_now env) l
              (update_client l c1 s)
       else
         if can_write ev
         then
           '(ok, s, c) ←
             gst_multi_fd_sink_handle_client_write (srv_now env)
               (srv_writes env) (update_client l c1 s) c1;
           let s := update_client l c s in
           if negb ok
           then gst_multi_fd_sink_remove_client_link (srv_now env) l s
           else Some s
         else Some (update_client l c1 s)) = Some s' →
      bufpos_invariant s' ∧ bufqueue s' = bufqueue s).
  { intros ok c1 Hpos. destruct (Hupd c1 Hpos) as (Hi1 & Hq1 & Hv1).
    destruct ok; simpl; [| by apply Hrm].
    destruct (can_write ev); [| by intros [= <-]].
    destruct (gst_multi_fd_sink_handle_client_write _ _ _ _)
      as [[[ok2 s2] c2]|] eqn:Hw; [simpl | done].
    pose proof Hw as Hw'.
    apply handle_client_write_bufpos_valid in Hw as [Hq2 Hv2];
      [| by rewrite Hq1 | done].
    unfold gst_multi_fd_sink_handle_client_write in Hw'.
    apply handle_client_write_loop_consistent in Hw' as (_ & Hst2 & _).
    assert (Hi2 : bufpos_invariant s2).
    { unfold bufpos_invariant. rewrite Hst2, Hq2. exact Hi1. }
    assert (Hi3 : bufpos_invariant (update_client l c2 s2))
      by by apply update_client_positions.
    assert (Hq3 : bufqueue (update_client l c2 s2) = bufqueue s)
      by (rewrite <- Hq1, <- Hq2; by destruct s2).
    destruct ok2; simpl; [intros [= <-]; by split |].
    intros Hrem.
    apply remove_client_link_positions in Hrem as [Hi' Hq']; [| done].
    split; [done | congruence]. }
  destruct (can_read ev).
  - destruct (gst_multi_fd_sink_handle_client_read _ _ _ _) as [[ok c1]|]
      eqn:Hrd; [simpl | done].
    apply handle_client_read_bufpos in Hrd. by apply Hread.
  - simpl. by apply (Hread true c).
Qed.

Lemma handle_clients_client_keeps_positions_witness :
  let s := Example.sink_with Example.default_props
             [Example.delta 3; Example.delta 2]
             [Example.served_client 7 0 1; Example.served_client 8 0 0] in
  let ev := mkPollEvents false false true true in
  let env := mkServeEnv 9 0 4 [4] [mkWrite 2 EAGAIN; mkWrite 1 EAGAIN] in
  ∃ s' : GstMultiFdSink,
    handle_clients_client ev env 1%positive s = Some s'
    ∧ (bufpos <$> (mh <$> store s' !! 1%positive)) = Some (-1)
    ∧ bufpos_invariant s' ∧ bufqueue s' = bufqueue s.
Proof.
  intros s ev env. eexists. split; [vm_compute; reflexivity |].
  split; [reflexivity |].
  apply (handle_clients_client_keeps_positions ev env 1%positive s).
  - apply (@bool_decide_unpack _ (bufpos_invariant_dec s)). vm_compute. exact I.
  - vm_compute. discriminate.
  - vm_compute. reflexivity.
Defined.

(** ** What the read handler does to a client *)

(** The read handler changes nothing but the status, and the status only
    when it returns FALSE: to Closed when [ioctl] reports no byte, to
    Error otherwise. *)
Theorem handle_client_read_outcome (ioctl_ret avail : Z) (reads : list Z)
    (c c' : GstTCPClient) (ok : bool) :
  gst_multi_fd_sink_handle_client_read ioctl_ret avail reads c = Some (ok, c') →
  (ok = true ∧ c' = c ∧ 0 ≤ ioctl_ret ∧ 0 < avail)
  ∨ (ok = false
     ∧ c' = on_mh (set_status GST_CLIENT_STATUS_CLOSED) c
     ∧ 0 ≤ ioctl_ret ∧ avail = 0)
  ∨ (ok = false
     ∧ c' = on_mh (set_status GST_CLIENT_STATUS_ERROR) c
     ∧ (ioctl_ret < 0 ∨ avail ≠ 0)).
Proof.
  unfold gst_multi_fd_sink_handle_client_read.
  destruct (Z.ltb_spec ioctl_ret 0) as [Hio | Hio];
    [intros [= <- <-]; right; right; auto |].
  destruct (Z.eqb_spec avail 0) as [Hzero | Hzero];
    [intros [= <- <-]; right; left; auto |].
  destruct (Z.ltb_spec avail 0) as [Hneg | Hneg];
    [intros [= <- <-]; right; right; auto |].
  destruct (read_and_drop reads avail) as [[st ret]|] eqn:Hrd; [simpl | done].
  assert (Hst : (st = None ∧ ret = true)
                ∨ (st = Some GST_CLIENT_STATUS_ERROR ∧ ret = false)).
  { clear -Hrd. revert avail Hrd.
    induction reads as [|nread reads IH]; intros avail; simpl; [done |].
    destruct (nread <? -1); [intros [= <- <-]; auto |].
    destruct (nread =? 0); [intros [= <- <-]; auto |].
    destruct (0 <? _); [apply IH | intros [= <- <-]; auto]. }
  destruct Hst as [[-> ->] | [-> ->]]; intros [= <- <-].
  - left. repeat split; [done | lia].
  - right. right. auto.
Qed.

Lemma handle_client_read_outcome_witness :
  let c := Example.served_client 7 0 0 in
  gst_multi_fd_sink_handle_client_read 0 600 [512; 0] c
  = Some (false, on_mh (set_status GST_CLIENT_STATUS_ERROR) c)
  ∧ ((false = true ∧ on_mh (set_status GST_CLIENT_STATUS_ERROR) c = c
      ∧ 0 ≤ 0 ∧ 0 < 600)
     ∨ (false = false
        ∧ on_mh (set_status GST_CLIENT_STATUS_ERROR) c
          = on_mh (set_status GST_CLIENT_STATUS_CLOSED) c
        ∧ 0 ≤ 0 ∧ 600 = 0)
     ∨ (false = false
        ∧ on_mh (set_status GST_CLIENT_STATUS_ERROR) c
          = on_mh (set_status GST_CLIENT_STATUS_ERROR) c
        ∧ (0 < 0 ∨ 600 ≠ 0))).
Proof.
  intros c.
  assert (H : gst_multi_fd_sink_handle_client_read 0 600 [512; 0] c
              = Some (false, on_mh (set_status GST_CLIENT_STATUS_ERROR) c))
    by reflexivity.
  split; [exact H |].
  exact (handle_client_read_outcome 0 600 [512; 0] c _ false H).
Defined.

(** When every read gives between 1 and 512 bytes and together they give
    the bytes that [ioctl] reported, the handler drains them and returns
    TRUE with the client unchanged. *)
Theorem handle_client_read_drains (ioctl_ret avail : Z) (reads : list Z)
    (c : GstTCPClient) :
  0 ≤ ioctl_ret → 0 < avail ≤ G_MAXINT →
  Forall (λ nread : Z, 0 < nread ≤ 512) reads →
  avail ≤ foldr Z.add 0 reads →
  gst_multi_fd_sink_handle_client_read ioctl_ret avail reads c
  = Some (true, c).
Proof.
  intros Hio Havail Hreads Hsum.
  unfold gst_multi_fd_sink_handle_client_read.
  destruct (Z.ltb_spec ioctl_ret 0); [lia |].
  destruct (Z.eqb_spec avail 0); [lia |].
  destruct (Z.ltb_spec avail 0); [lia |].
  assert (Hrd : read_and_drop reads avail = Some (None, true));
    [| by rewrite Hrd].
  clear -Havail Hreads Hsum. revert avail Havail Hsum.
  induction Hreads as [|nread reads Hn Hreads IH]; intros avail Havail Hsum;
    simpl in *; [lia |].
  destruct (Z.ltb_spec nread (-1)); [lia |].
  destruct (Z.eqb_spec nread 0); [lia |].
  rewrite to_gint_id by (unfold G_MININT, G_MAXINT in *; lia).
  destruct (Z.ltb_spec 0 (avail - nread)); [| done].
  apply IH; lia.
Qed.

Lemma handle_client_read_drains_witness :
  let c := Example.served_client 7 0 0 in
  0 ≤ 0 ∧ 0 < 600 ≤ G_MAXINT
  ∧ Forall (λ nread : Z, 0 < nread ≤ 512) [512; 88]
  ∧ 600 ≤ foldr Z.add 0 [512; 88]
  ∧ gst_multi_fd_sink_handle_client_read 0 600 [512; 88] c = Some (true, c).
Proof.
  intros c.
  assert (H1 : 0 ≤ 0) by lia.
  assert (H2 : 0 < 600 ≤ G_MAXINT) by (unfold G_MAXINT; lia).
  assert (H3 : Forall (λ nread : Z, 0 < nread ≤ 512) [512; 88])
    by (repeat constructor; lia).
  assert (H4 : 600 ≤ foldr Z.add 0 [512; 88]) by (simpl; lia).
  repeat (split; [assumption |]).
  exact (handle_client_read_drains 0 600 [512; 88] c H1 H2 H3 H4).
Defined.

(** ** Stream headers are sent once *)

Lemma client_queue_buffer_no_caps (s : GstMultiFdSink) (buf : GstBuffer)
    (c : GstTCPClient) :
  caps (mh c) = None →
  sending (mh (gst_multi_fd_sink_client_queue_buffer s buf c))
  = sending (mh c) ++ default [] (caps_streamheader (pad_caps s)) ++ [buf]
  ∧ caps (mh (gst_multi_fd_sink_client_queue_buffer s buf c))
    = Some (pad_caps s).
Proof.
  intros Hcaps. unfold gst_multi_fd_sink_client_queue_buffer. rewrite Hcaps.
  destruct (caps_streamheader (pad_caps s)); simpl; [| done].
  by rewrite <- app_assoc.
Qed.

Lemma client_queue_buffer_same_caps (s : GstMultiFdSink) (buf : GstBuffer)
    (c : GstTCPClient) :
  caps (mh c) = Some (pad_caps s) →
  sending (mh (gst_multi_fd_sink_client_queue_buffer s buf c))
  = sending (mh c) ++ [buf]
  ∧ caps (mh (gst_multi_fd_sink_client_queue_buffer s buf c))
    = Some (pad_caps s).
Proof.
  intros Hcaps. unfold gst_multi_fd_sink_client_queue_buffer. rewrite Hcaps.
  by rewrite bool_decide_eq_true_2.
Qed.

(** The first buffer queued for a client that has no caps recorded is
    preceded in [sending] by the stream header of the pad caps, if they
    have one; the caps are recorded, and a second buffer queued under the
    same pad caps follows the first directly, without the header. *)
Theorem client_queue_buffer_headers_once (s : GstMultiFdSink)
    (b1 b2 : GstBuffer) (c : GstTCPClient) :
  caps (mh c) = None →
  let c1 := gst_multi_fd_sink_client_queue_buffer s b1 c in
  let c2 := gst_multi_fd_sink_client_queue_buffer s b2 c1 in
  sending (mh c1)
  = sending (mh c) ++ default [] (caps_streamheader (pad_caps s)) ++ [b1]
  ∧ caps (mh c1) = Some (pad_caps s)
  ∧ sending (mh c2) = sending (mh c1) ++ [b2]
  ∧ caps (mh c2) = Some (pad_caps s).
Proof.
  intros Hcaps c1 c2.
  destruct (client_queue_buffer_no_caps s b1 c Hcaps) as [Hs1 Hc1].
  destruct (client_queue_buffer_same_caps s b2 c1 Hc1) as [Hs2 Hc2].
  done.
Qed.

Lemma client_queue_buffer_headers_once_witness :
  let caps0 := mkCaps 1 (Some [Example.header 10; Example.header 20]) in
  let s := mkSink Example.default_props true [Example.delta 1] [] ∅ ∅ 0 ∅ []
             false caps0 1 0 0 [] in
  let c := Example.client_at 7 0 0 in
  let c1 := gst_multi_fd_sink_client_queue_buffer s (Example.delta 3) c in
  let c2 := gst_multi_fd_sink_client_queue_buffer s (Example.delta 4) c1 in
  caps (mh c) = None
  ∧ sending (mh c2)
    = [Example.header 10; Example.header 20; Example.delta 3; Example.delta 4]
  ∧ sending (mh c1)
    = sending (mh c) ++ default [] (caps_streamheader (pad_caps s))
        ++ [Example.delta 3]
  ∧ caps (mh c1) = Some (pad_caps s)
  ∧ sending (mh c2) = sending (mh c1) ++ [Example.delta 4]
  ∧ caps (mh c2) = Some (pad_caps s).
Proof.
  intros caps0 s c c1 c2.
  assert (H : caps (mh c) = None) by reflexivity.
  split; [exact H |]. split; [reflexivity |].
  exact (client_queue_buffer_headers_once s (Example.delta 3)
           (Example.delta 4) c H).
Defined.

(** ** What the write handler does to a client *)

Lemma new_client_status (q : list GstBuffer) (c c' : GstTCPClient)
    (position : Z) :
  gst_multi_fd_sink_new_client q c = Some (position, c') →
  status (mh c') = status (mh c) ∧ bytes_sent (mh c') = bytes_sent (mh c).
Proof.
  unfold gst_multi_fd_sink_new_client. intros H.
  destruct (sync_method (mh c)); simpl in H;
    try (destruct (count_burst_unit _ _ _ _ _); simpl in H; [| done]);
    repeat case_match; by injection H as <- <-.
Qed.

Lemma client_queue_buffer_status (s : GstMultiFdSink) (buf : GstBuffer)
    (c : GstTCPClient) :
  status (mh (gst_multi_fd_sink_client_queue_buffer s buf c)) = status (mh c)
  ∧ bytes_sent (mh (gst_multi_fd_sink_client_queue_buffer s buf c))
    = bytes_sent (mh c).
Proof.
  unfold gst_multi_fd_sink_client_queue_buffer.
  destruct (match caps (mh c) with Some _ => _ | None => _ end); [| done].
  by destruct (caps_streamheader (pad_caps s)).
Qed.

(** The first half of an iteration of the write loop sets the status to
    Removed when it returns FALSE and leaves it alone otherwise; it counts
    no byte. *)
Lemma pick_buffer_status (flushing : bool) (s s' : GstMultiFdSink)
    (c c' : GstTCPClient) (picked : Picked) :
  pick_buffer flushing s c = Some (picked, s', c') →
  match picked with
  | PickReturn false => status (mh c') = GST_CLIENT_STATUS_REMOVED
  | _ => status (mh c') = status (mh c)
  end
  ∧ bytes_sent (mh c') = bytes_sent (mh c)
  ∧ bytes_served s' = bytes_served s.
Proof.
  unfold pick_buffer. destruct (sending (mh c)); [| by intros [= <- <- <-]].
  destruct (bufpos (mh c) =? -1).
  { destruct (flushcount (mh c) =? 0); intros [= <- <- <-];
      by destruct s. }
  assert (Hgo :
    ∀ c1 : GstTCPClient,
      status (mh c1) = status (mh c) → bytes_sent (mh c1) = bytes_sent (mh c) →
      (if flushcount (mh c1) =? 0
       then
         Some (PickReturn false, s,
               on_mh (set_status GST_CLIENT_STATUS_REMOVED) c1)
       else
         buf ← g_array_index (bufqueue s) (bufpos (mh c1));
         let c := on_mh (set_bufpos (to_gint (bufpos (mh c1) - 1))) c1 in
         let timestamp := buf_timestamp buf in
         let c :=
           if first_buffer_ts (mh c) =? GST_CLOCK_TIME_NONE
           then on_mh (set_first_buffer_ts timestamp) c else c in
         let c :=
           if negb (timestamp =? GST_CLOCK_TIME_NONE)
           then on_mh (set_last_buffer_ts timestamp) c else c in
         let c :=
           if negb (flushcount (mh c) =? -1)
           then on_mh (set_flushcount (to_gint (flushcount (mh c) - 1))) c
           else c in
         let c := gst_multi_fd_sink_client_queue_buffer s buf c in
         Some (PickGoOn, s, on_mh (set_bufoffset 0) c))
      = Some (picked, s', c') →
      match picked with
      | PickReturn false => status (mh c') = GST_CLIENT_STATUS_REMOVED
      | _ => status (mh c') = status (mh c)
      end
      ∧ bytes_sent (mh c') = bytes_sent (mh c)
      ∧ bytes_served s' = bytes_served s).
  { intros c1 Hst Hbs.
    destruct (flushcount (mh c1) =? 0); [by intros [= <- <- <-] |].
    destruct (g_array_index _ _) as [buf|]; [simpl | done].
    intros [= <- <- <-].
    match goal with
    | |- context [gst_multi_fd_sink_client_queue_buffer s buf ?x] =>
        pose proof (client_queue_buffer_status s buf x) as [Hy1 Hy2];
        assert (status (mh x) = status (mh c)
                ∧ bytes_sent (mh x) = bytes_sent (mh c)) as [Hx1 Hx2]
          by (repeat case_match; simpl; by split);
        set (y := gst_multi_fd_sink_client_queue_buffer s buf x) in *
    end.
    clearbody y. simpl. split; [congruence |]. split; [congruence | done]. }
  destruct (new_connection (mh c) && negb flushing); simpl; [| by apply Hgo].
  destruct (gst_multi_fd_sink_new_client (bufqueue s) c) as [[position c1]|]
    eqn:Hnew; [simpl | done].
  apply new_client_status in Hnew as [Hst Hbs].
  destruct (0 <=? position); simpl.
  - by apply (Hgo (on_mh (set_bufpos position)
                     (on_mh (set_new_connection false) c1))).
  - intros [= <- <- <-]. by destruct s.
Qed.

(** When the write handler returns TRUE the status of the client is what
    it was; when it returns FALSE the status is Removed (the flush is
    done), Closed (the peer reset the connection) or Error. *)
Theorem handle_client_write_outcome (now : Z) (writes : list WriteResult)
    (s s' : GstMultiFdSink) (c c' : GstTCPClient) (ok : bool) :
  gst_multi_fd_sink_handle_client_write now writes s c = Some (ok, s', c') →
  if ok then status (mh c') = status (mh c)
  else status (mh c') = GST_CLIENT_STATUS_REMOVED
       ∨ status (mh c') = GST_CLIENT_STATUS_CLOSED
       ∨ status (mh c') = GST_CLIENT_STATUS_ERROR.
Proof.
  unfold gst_multi_fd_sink_handle_client_write.
  generalize (bool_decide (status (mh c) = GST_CLIENT_STATUS_FLUSHING)).
  intros flushing. revert s c.
  induction writes as [|w writes IH]; intros s c; simpl;
    (destruct (pick_buffer flushing s c) as [[[picked s1] c1]|] eqn:Hpick;
       [simpl | done]);
    apply pick_buffer_status in Hpick as (Hst & _ & _);
    (destruct picked as [[|]|];
       [intros [= <- <- <-]; done | intros [= <- <- <-]; by left |]);
    simpl in Hst;
    (destruct (sending (mh c1)) as [|head tail]; [done |]); [done |].
  destruct (wrote w <? 0).
  { destruct (write_errno w); intros [= <- <- <-]; simpl; auto. }
  destruct (wrote w <? _).
  - by intros [= <- <- <-].
  - intros H. apply IH in H. simpl in H. by rewrite Hst in H.
Qed.

Lemma handle_client_write_outcome_witness :
  let s := Example.sink_with Example.default_props
             [Example.delta 3; Example.delta 2]
             [Example.served_client 7 0 1] in
  let c := Example.served_client 7 0 1 in
  let writes := [mkWrite 2 EAGAIN; mkWrite (-1) ECONNRESET] in
  ∃ (s' : GstMultiFdSink) (c' : GstTCPClient),
    gst_multi_fd_sink_handle_client_write 9 writes s c = Some (false, s', c')
    ∧ (status (mh c') = GST_CLIENT_STATUS_REMOVED
       ∨ status (mh c') = GST_CLIENT_STATUS_CLOSED
       ∨ status (mh c') = GST_CLIENT_STATUS_ERROR).
Proof.
  intros s c writes. eexists _, _. split; [vm_compute; reflexivity |].
  eapply (handle_client_write_outcome 9 writes s _ c _ false).
  reflexivity.
Defined.

(** The bytes the write handler counts for the sink are the bytes it
    counts for the client: [bytes_served] and [bytes_sent] grow by the
    same amount, as [guint64]. *)
Theorem handle_client_write_counts_bytes (now : Z)
    (writes : list WriteResult) (s s' : GstMultiFdSink)
    (c c' : GstTCPClient) (ok : bool) :
  gst_multi_fd_sink_handle_client_write now writes s c = Some (ok, s', c') →
  to_guint64 (bytes_served s' - bytes_served s)
  = to_guint64 (bytes_sent (mh c') - bytes_sent (mh c)).
Proof.
  unfold gst_multi_fd_sink_handle_client_write, to_guint64, wrap_unsigned.
  generalize (bool_decide (status (mh c) = GST_CLIENT_STATUS_FLUSHING)).
  intros flushing H. apply Z.cong_iff_ex. revert s c H.
  induction writes as [|w writes IH]; intros s c; simpl;
    (destruct (pick_buffer flushing s c) as [[[picked s1] c1]|] eqn:Hpick;
       [simpl | done]);
    apply pick_buffer_status in Hpick as (_ & Hsent & Hserved);
    (destruct picked;
       [intros [= <- <- <-]; exists 0; lia |]);
    (destruct (sending (mh c1)) as [|head tail]; [done |]); [done |].
  destruct (wrote w <? 0).
  { destruct (write_errno w); intros [= <- <- <-]; exists 0; simpl; lia. }
  assert (Hmod :
    ∃ n : Z,
      to_guint64 (bytes_served s1 + wrote w) - bytes_served s
      - (to_guint64 (bytes_sent (mh c1) + wrote w) - bytes_sent (mh c))
      = n * 2 ^ 64).
  { unfold to_guint64, wrap_unsigned. rewrite !Z.mod_eq by lia.
    exists ((bytes_sent (mh c1) + wrote w) / 2 ^ 64
            - (bytes_served s1 + wrote w) / 2 ^ 64). lia. }
  destruct Hmod as [n Hn].
  destruct (wrote w <? _).
  - intros [= <- <- <-]. exists n. destruct s1; simpl in *. lia.
  - intros H. apply IH in H as [n' Hn']. exists (n' + n).
    destruct s1; simpl in *. lia.
Qed.

Lemma handle_client_write_counts_bytes_witness :
  let s := Example.sink_with Example.default_props
             [Example.delta 3; Example.delta 2]
             [Example.served_client 7 0 1] in
  let c := Example.served_client 7 0 1 in
  let writes := [mkWrite 2 EAGAIN; mkWrite 1 EAGAIN] in
  ∃ (s' : GstMultiFdSink) (c' : GstTCPClient),
    gst_multi_fd_sink_handle_client_write 9 writes s c = Some (true, s', c')
    ∧ bytes_served s' = 3
    ∧ to_guint64 (bytes_served s' - bytes_served s)
      = to_guint64 (bytes_sent (mh c') - bytes_sent (mh c)).
Proof.
  intros s c writes. eexists _, _. split; [vm_compute; reflexivity |].
  split; [reflexivity |].
  apply (handle_client_write_counts_bytes 9 writes s _ c _ true).
  vm_compute. reflexivity.
Defined.

(** ** The scan for idle clients *)

Lemma g_list_remove_app_notin (kept next : list loc) (l : loc) :
  l ∉ kept → g_list_remove (kept ++ l :: next) l = kept ++ next.
Proof.
  induction kept as [|x kept IH]; intros Hl; simpl.
  - by rewrite decide_True.
  - apply not_elem_of_cons in Hl as [Hne Hl].
    rewrite decide_False by done. by rewrite IH.
Qed.

(** The loop, started on a suffix of the list: [done] are the links
    behind it, [kept] those of them that stayed. *)
Lemma handle_clients_timeout_loop_spec (now : Z) (s0 : GstMultiFdSink) :
  (∀ (l : loc) (c : GstTCPClient),
     store s0 !! l = Some c → currently_removing (mh c) = false) →
  ∀ (links done kept : list loc) (s : GstMultiFdSink),
    NoDup (done ++ links) →
    (∀ l : loc, l ∈ links → is_Some (store s0 !! l)) →
    sublist kept done →
    clients s = kept ++ links →
    props s = props s0 → bufqueue s = bufqueue s0 →
    table_consistent s →
    (∀ (l : loc) (c : GstTCPClient),
       store s !! l = Some c
       ↔ store s0 !! l = Some c
         ∧ (l ∈ done → timed_out (props s0) now c = false)) →
    ∃ (s' : GstMultiFdSink) (kept' : list loc),
      handle_clients_timeout_loop now links s = Some s'
      ∧ sublist kept' (done ++ links)
      ∧ clients s' = kept'
      ∧ props s' = props s0 ∧ bufqueue s' = bufqueue s0
      ∧ table_consistent s'
      ∧ ∀ (l : loc) (c : GstTCPClient),
          store s' !! l = Some c
          ↔ store s0 !! l = Some c
            ∧ (l ∈ done ++ links → timed_out (props s0) now c = false).
Proof.
  intros Hrem links.
  induction links as [|l next IH];
    intros done kept s Hnd Hin Hsub Hcl Hp Hq Hcons Hst; simpl.
  - exists s, kept. rewrite app_nil_r in *. done.
  - destruct (Hin l ltac:(by left)) as [c Hc0].
    assert (Hl : l ∉ done).
    { intros Hl. apply NoDup_app in Hnd as (_ & Hnd & _).
      apply (Hnd l Hl). by left. }
    assert (Hlk : l ∉ kept) by (intros Hlk; by apply Hl, (elem_of_sublist kept done l)).
    assert (Hc : store s !! l = Some c) by (by apply Hst).
    assert (Hnd' : NoDup ((done ++ [l]) ++ next))
      by (by rewrite <- app_assoc).
    assert (Hin' : ∀ l' : loc, l' ∈ next → is_Some (store s0 !! l'))
      by (intros l' Hl'; apply Hin; by right).
    unfold handle_clients_timeout_client. rewrite Hc, Hp. simpl.
    fold (timed_out (props s0) now c).
    destruct (timed_out (props s0) now c) eqn:Hidle.
    + unfold gst_multi_fd_sink_remove_client_link.
      assert (Hupd :
        store (update_client l (on_mh (set_status GST_CLIENT_STATUS_SLOW) c) s)
          !! l
        = Some (on_mh (set_status GST_CLIENT_STATUS_SLOW) c))
        by (destruct s; simpl; by rewrite lookup_insert_eq).
      rewrite Hupd. simpl. rewrite (Hrem l c Hc0).
      match goal with
      | |- context [handle_clients_timeout_loop now next ?x] =>
          set (s1 := x)
      end.
      assert (Hs1 :
        gst_multi_fd_sink_remove_client_link now l
          (update_client l (on_mh (set_status GST_CLIENT_STATUS_SLOW) c) s)
        = Some s1).
      { unfold gst_multi_fd_sink_remove_client_link. rewrite Hupd. simpl.
        by rewrite (Hrem l c Hc0). }
      assert (Hcl1 : clients s1 = kept ++ next).
      { subst s1. destruct s; simpl in *. rewrite Hcl.
        by apply g_list_remove_app_notin. }
      assert (Hp1 : props s1 = props s0)
        by (subst s1; destruct s; simpl in *; done).
      assert (Hq1 : bufqueue s1 = bufqueue s0)
        by (subst s1; destruct s; simpl in *; done).
      assert (Hcons1 : table_consistent s1).
      { eapply remove_client_link_consistent; [| exact Hs1].
        by apply (update_client_consistent l c). }
      assert (Hst1 :
        ∀ (l' : loc) (c' : GstTCPClient),
          store s1 !! l' = Some c'
          ↔ store s0 !! l' = Some c'
            ∧ (l' ∈ done ++ [l] → timed_out (props s0) now c' = false)).
      { intros l' c'. subst s1. destruct s; simpl in *.
        rewrite !delete_insert_eq.
        destruct (decide (l' = l)) as [-> | Hne].
        - rewrite lookup_delete_eq. split; [done |].
          intros [Hc' Hk]. rewrite Hc0 in Hc'. injection Hc' as <-.
          rewrite Hk in Hidle; [done |]. apply elem_of_app. right. by left.
        - rewrite lookup_delete_ne by done. rewrite Hst.
          rewrite elem_of_app, list_elem_of_singleton.
          split; intros [Hc' Hk]; (split; [done |]).
          + intros [Hd | ->]; [by apply Hk | done].
          + intros Hd. apply Hk. by left. }
      destruct (IH (done ++ [l]) kept s1 Hnd' Hin'
                  (sublist_inserts_r [l] kept done Hsub) Hcl1 Hp1 Hq1 Hcons1
                  Hst1) as (s' & kept' & Hloop & Hsub' & H').
      exists s', kept'. rewrite <- app_assoc in Hsub', H'. done.
    + assert (Hst1 :
        ∀ (l' : loc) (c' : GstTCPClient),
          store s !! l' = Some c'
          ↔ store s0 !! l' = Some c'
            ∧ (l' ∈ done ++ [l] → timed_out (props s0) now c' = false)).
      { intros l' c'. rewrite Hst, elem_of_app, list_elem_of_singleton.
        split; intros [Hc' Hk]; (split; [done |]).
        - intros [Hd | ->]; [by apply Hk |]. congruence.
        - intros Hd. apply Hk. by left. }
      assert (Hcl1 : clients s = (kept ++ [l]) ++ next)
        by (by rewrite <- app_assoc).
      destruct (IH (done ++ [l]) (kept ++ [l]) s Hnd' Hin'
                  (sublist_app kept done [l] [l] Hsub ltac:(done)) Hcl1 Hp Hq
                  Hcons Hst1) as (s' & kept' & Hloop & Hsub' & H').
      exists s', kept'. rewrite <- app_assoc in Hsub', H'. done.
Qed.

(** When the wait times out, the scan removes the clients that were idle
    for longer than the timeout and no other: the store keeps the
    clients that are not timed out, as they were; the list keeps its
    order; the table stays consistent and the queue is not touched. *)
Theorem handle_clients_timeout_removes_idle (now : Z) (s : GstMultiFdSink) :
  table_consistent s →
  (∀ (l : loc) (c : GstTCPClient),
     store s !! l = Some c → currently_removing (mh c) = false) →
  ∃ s' : GstMultiFdSink,
    handle_clients_timeout now s = Some s'
    ∧ (∀ (l : loc) (c : GstTCPClient),
         store s' !! l = Some c
         ↔ store s !! l = Some c ∧ timed_out (props s) now c = false)
    ∧ sublist (clients s') (clients s)
    ∧ table_consistent s'
    ∧ bufqueue s' = bufqueue s.
Proof.
  intros Hcons Hrem. unfold handle_clients_timeout.
  destruct (handle_clients_timeout_loop_spec now s Hrem (clients s) [] [] s)
    as (s' & kept' & Hloop & Hsub & Hcl & Hp & Hq & Hcons' & Hst);
    try done.
  - apply (tc_nodup s Hcons).
  - intros l Hl. by apply (tc_list s Hcons).
  - intros l c. split; [| by intros [? _]].
    intros Hc. split; [done |]. by intros ?%elem_of_nil.
  - exists s'. split; [done |]. split; [| by rewrite Hcl].
    intros l c. rewrite Hst. simpl.
    split; intros [Hc Hk]; (split; [done |]).
    + apply Hk. apply (tc_list s Hcons). by eexists.
    + by intros _.
Qed.

Lemma handle_clients_timeout_removes_idle_witness :
  let p := mkProps GST_TCP_UNIT_TYPE_BUFFERS (-1) (-1) GST_RECOVER_POLICY_NONE
             10 GST_SYNC_METHOD_LATEST GST_TCP_UNIT_TYPE_UNDEFINED 0 (-1) (-1)
             GST_CLOCK_TIME_NONE (-1) true true in
  let s := Example.sink_with p [Example.delta 3]
             [Example.served_client 7 0 0; Example.served_client 8 15 0;
              Example.served_client 9 2 0] in
  table_consistent s
  ∧ (∀ (l : loc) (c : GstTCPClient),
       store s !! l = Some c → currently_removing (mh c) = false)
  ∧ ∃ s' : GstMultiFdSink,
      handle_clients_timeout 20 s = Some s'
      ∧ (∀ (l : loc) (c : GstTCPClient),
           store s' !! l = Some c
           ↔ store s !! l = Some c ∧ timed_out (props s) 20 c = false)
      ∧ sublist (clients s') (clients s)
      ∧ table_consistent s'
      ∧ bufqueue s' = bufqueue s.
Proof.
  intros p s.
  assert (H1 : table_consistent s)
    by (apply table_consistent_check_sound; vm_compute; reflexivity).
  assert (H2 : ∀ (l : loc) (c : GstTCPClient),
            store s !! l = Some c → currently_removing (mh c) = false).
  { intros l c Hc.
    assert (Hl : l ∈ clients s) by (apply (tc_list s H1); by eexists).
    change (clients s) with [1%positive; 2%positive; 3%positive] in Hl.
    repeat (apply elem_of_cons in Hl as [-> | Hl];
            [by injection Hc as <- |]).
    by apply elem_of_nil in Hl. }
  split; [exact H1 |]. split; [exact H2 |].
  exact (handle_clients_timeout_removes_idle 20 s H1 H2).
Defined.

(** ** The TOS byte *)

(** The socket option that [setup_dscp_client] sets carries the six low
    bits of [qos-dscp] in the six high bits of the TOS byte and leaves
    the two low bits clear: the value is [4 * (qos_dscp mod 64)], at
    most 252, and [4 * qos_dscp] for a DSCP of at most 63; nothing is set
    for a negative [qos-dscp], and nothing else is changed. *)
Theorem setup_dscp_client_tos (p : SinkProps) (fdn : Z)
    (sa : option AddressFamily) (s : GstMultiFdSink) (e : Event) :
  e ∈ trace (setup_dscp_client p fdn sa s) →
  e ∈ trace s
  ∨ ∃ opt : SockOption,
      e = SetSockOpt fdn opt (4 * (qos_dscp p mod 64))
      ∧ 0 ≤ qos_dscp p
      ∧ 0 ≤ 4 * (qos_dscp p mod 64) ≤ 252
      ∧ (qos_dscp p ≤ 63 → 4 * (qos_dscp p mod 64) = 4 * qos_dscp p).
Proof.
  unfold setup_dscp_client.
  destruct (Z.ltb_spec (qos_dscp p) 0) as [| Hpos]; [by left |].
  destruct sa as [af|]; [| by left].
  assert (Htos : Z.shiftl (Z.land (qos_dscp p) 63) 2
                 = 4 * (qos_dscp p mod 64)).
  { change 63 with (Z.ones 6). rewrite Z.land_ones by lia.
    rewrite Z.shiftl_mul_pow2 by lia. change (2 ^ 6) with 64.
    change (2 ^ 2) with 4. lia. }
  rewrite Htos.
  pose proof (Z.mod_pos_bound (qos_dscp p) 64 ltac:(lia)) as Hmod.
  assert (Hsmall : qos_dscp p ≤ 63 → 4 * (qos_dscp p mod 64) = 4 * qos_dscp p)
    by (intros Hle; rewrite Z.mod_small; lia).
  assert (Hemit :
    ∀ opt : SockOption,
      e ∈ trace (emit (SetSockOpt fdn opt (4 * (qos_dscp p mod 64))) s) →
      e ∈ trace s
      ∨ ∃ opt : SockOption,
          e = SetSockOpt fdn opt (4 * (qos_dscp p mod 64))
          ∧ 0 ≤ qos_dscp p
          ∧ 0 ≤ 4 * (qos_dscp p mod 64) ≤ 252
          ∧ (qos_dscp p ≤ 63 → 4 * (qos_dscp p mod 64) = 4 * qos_dscp p)).
  { intros opt. destruct s; simpl.
    intros [He | ->%list_elem_of_singleton]%elem_of_app; [by left |].
    right. exists opt. repeat split; try done; lia. }
  destruct af as [|[|]|]; try apply Hemit. by left.
Qed.

Lemma setup_dscp_client_tos_witness :
  let p := mkProps GST_TCP_UNIT_TYPE_BUFFERS (-1) (-1) GST_RECOVER_POLICY_NONE
             0 GST_SYNC_METHOD_LATEST GST_TCP_UNIT_TYPE_UNDEFINED 0 (-1) (-1)
             GST_CLOCK_TIME_NONE 46 true true in
  let s := Example.sink_with p [] [] in
  let e := SetSockOpt 7 IP_TOS 184 in
  e ∈ trace (setup_dscp_client p 7 (Some AF_INET) s)
  ∧ (e ∈ trace s
     ∨ ∃ opt : SockOption,
         e = SetSockOpt 7 opt (4 * (qos_dscp p mod 64))
         ∧ 0 ≤ qos_dscp p
         ∧ 0 ≤ 4 * (qos_dscp p mod 64) ≤ 252
         ∧ (qos_dscp p ≤ 63 → 4 * (qos_dscp p mod 64) = 4 * qos_dscp p)).
Proof.
  intros p s e.
  assert (H : e ∈ trace (setup_dscp_client p 7 (Some AF_INET) s))
    by (apply list_elem_of_singleton; reflexivity).
  split; [exact H |].
  exact (setup_dscp_client_tos p 7 (Some AF_INET) s e H).
Defined.

(** ** The scan for invalid descriptors *)

Section badfd_scan.

Variables (now : Z) (fcntl : Z → FcntlResult).

(** A walk along clients whose descriptors are valid changes nothing. *)
Lemma handle_clients_badfd_walk_valid (links : list loc) (s : GstMultiFdSink) :
  (∀ l : loc, l ∈ links →
     ∃ c : GstTCPClient, store s !! l = Some c ∧ fcntl (fd c) ≠ FcntlEBADF) →
  handle_clients_badfd_walk now fcntl (clients_cookie s) links s
  = Some (s, false).
Proof.
  induction links as [|l next IH]; intros Hvalid; simpl; [done |].
  rewrite Z.eqb_refl. simpl.
  destruct (Hvalid l ltac:(by left)) as (c & Hc & Hfd).
  unfold handle_clients_badfd_client. rewrite Hc. simpl.
  destruct (fcntl (fd c)); [| done |];
    apply IH; intros l' Hl'; apply Hvalid; by right.
Qed.

(** A walk that meets an invalid descriptor removes its client and stops
    at the next link, if there is one, to start again. *)
Lemma handle_clients_badfd_walk_invalid (valid next : list loc) (l : loc)
    (c : GstTCPClient) (s : GstMultiFdSink) :
  (∀ l' : loc, l' ∈ valid →
     ∃ c' : GstTCPClient,
       store s !! l' = Some c' ∧ fcntl (fd c') ≠ FcntlEBADF) →
  store s !! l = Some c → fcntl (fd c) = FcntlEBADF →
  currently_removing (mh c) = false →
  ∃ s1 : GstMultiFdSink,
    gst_multi_fd_sink_remove_client_link now l
      (update_client l (on_mh (set_status GST_CLIENT_STATUS_ERROR) c) s)
    = Some s1
    ∧ store s1 = delete l (store s)
    ∧ clients s1 = g_list_remove (clients s) l
    ∧ handle_clients_badfd_walk now fcntl (clients_cookie s)
        (valid ++ l :: next) s
      = Some (s1, match next with [] => false | _ :: _ => true end).
Proof.
  intros Hvalid Hc Hbad Hrem.
  assert (Hupd :
    store (update_client l (on_mh (set_status GST_CLIENT_STATUS_ERROR) c) s)
      !! l
    = Some (on_mh (set_status GST_CLIENT_STATUS_ERROR) c))
    by (destruct s; simpl; by rewrite lookup_insert_eq).
  unfold gst_multi_fd_sink_remove_client_link. rewrite Hupd. simpl.
  rewrite Hrem. eexists. split; [reflexivity |].
  split; [destruct s; simpl; by rewrite !delete_insert_eq |].
  split; [by destruct s |].
  induction valid as [|l' valid IH]; simpl.
  - rewrite Z.eqb_refl. simpl.
    unfold handle_clients_badfd_client. rewrite Hc. simpl. rewrite Hbad.
    unfold gst_multi_fd_sink_remove_client_link. rewrite Hupd. simpl.
    rewrite Hrem. destruct next as [|l' next']; simpl; [done |].
    destruct (Z.eqb_spec (clients_cookie s) (to_guint (clients_cookie s + 1)))
      as [Heq | Hne].
    + symmetry in Heq. by apply cookie_bump_differs in Heq.
    + destruct s; simpl in *.
      destruct (Z.eqb_spec clients_cookie0 (to_guint (clients_cookie0 + 1)));
        done.
  - rewrite Z.eqb_refl. simpl.
    destruct (Hvalid l' ltac:(by left)) as (c' & Hc' & Hfd').
    unfold handle_clients_badfd_client at 1. rewrite Hc'. simpl.
    destruct (fcntl (fd c')); [| done |];
      apply IH; intros l'' Hl''; apply Hvalid; by right.
Qed.

(** A list of clients has valid descriptors only, or a first client with
    an invalid one. *)
Lemma first_invalid (s : GstMultiFdSink) (links : list loc) :
  (∀ l : loc, l ∈ links → is_Some (store s !! l)) →
  (∀ l : loc, l ∈ links →
     ∃ c : GstTCPClient, store s !! l = Some c ∧ fcntl (fd c) ≠ FcntlEBADF)
  ∨ ∃ (valid next : list loc) (l : loc) (c : GstTCPClient),
      links = valid ++ l :: next
      ∧ (∀ l' : loc, l' ∈ valid →
           ∃ c' : GstTCPClient,
             store s !! l' = Some c' ∧ fcntl (fd c') ≠ FcntlEBADF)
      ∧ store s !! l = Some c ∧ fcntl (fd c) = FcntlEBADF.
Proof.
  induction links as [|l links IH]; intros Hin.
  - left. by intros l ?%elem_of_nil.
  - destruct (Hin l ltac:(by left)) as [c Hc].
    destruct (decide (fcntl (fd c) = FcntlEBADF)) as [Hbad | Hok].
    + right. exists [], links, l, c. split; [done |].
      split; [by intros l' ?%elem_of_nil | done].
    + destruct IH as [Hall | (valid & next & l' & c' & -> & Hv & Hc' & Hbad)].
      * intros l' Hl'. apply Hin. by right.
      * left. intros l' [-> | Hl']%elem_of_cons; [by exists c | by apply Hall].
      * right. exists (l :: valid), next, l', c'. split; [done |].
        split; [| done].
        intros l'' [-> | Hl'']%elem_of_cons; [by exists c | by apply Hv].
Qed.

(** The scan, with restarts for as many clients as there are. *)
Lemma handle_clients_badfd_spec (n : nat) :
  ∀ s : GstMultiFdSink,
    (length (clients s) ≤ n)%nat →
    table_consistent s →
    (∀ (l : loc) (c : GstTCPClient),
       store s !! l = Some c → currently_removing (mh c) = false) →
    ∃ s' : GstMultiFdSink,
      handle_clients_badfd n now fcntl s = Some s'
      ∧ (∀ (l : loc) (c : GstTCPClient),
           store s' !! l = Some c
           ↔ store s !! l = Some c ∧ fcntl (fd c) ≠ FcntlEBADF)
      ∧ sublist (clients s') (clients s)
      ∧ table_consistent s'.
Proof.
  induction n as [|n IH]; intros s Hlen Hcons Hrem.
  - destruct (clients s) as [|l ls] eqn:Hcl; [| simpl in Hlen; lia].
    exists s. simpl. rewrite Hcl. simpl. split; [done |].
    split; [| done].
    intros l c. split; [| by intros [? _]].
    intros Hc. exfalso.
    assert (Hl : l ∈ clients s) by (apply (tc_list s Hcons); by eexists).
    rewrite Hcl in Hl. by apply elem_of_nil in Hl.
  - destruct (first_invalid s (clients s))
      as [Hall | (valid & next & l & c & Hcl & Hv & Hc & Hbad)].
    { intros l Hl. by apply (tc_list s Hcons). }
    + exists s. simpl.
      rewrite (handle_clients_badfd_walk_valid (clients s) s Hall).
      split; [done |]. split; [| done].
      intros l c. split; [| by intros [? _]].
      intros Hc. split; [done |].
      assert (Hl : l ∈ clients s) by (apply (tc_list s Hcons); by eexists).
      destruct (Hall l Hl) as (c' & Hc' & Hok). congruence.
    + destruct (handle_clients_badfd_walk_invalid valid next l c s Hv Hc Hbad
                  (Hrem l c Hc)) as (s1 & Hs1 & Hst1 & Hcl1 & Hwalk).
      rewrite <- Hcl in Hwalk.
      assert (Hcons1 : table_consistent s1).
      { eapply remove_client_link_consistent; [| exact Hs1].
        by apply (update_client_consistent l c). }
      assert (Hlv : l ∉ valid).
      { pose proof (tc_nodup s Hcons) as Hnd. rewrite Hcl in Hnd.
        apply NoDup_app in Hnd as (_ & Hnd & _).
        intros Hl. apply (Hnd l Hl). by left. }
      assert (Hcl1' : clients s1 = valid ++ next)
        by (rewrite Hcl1, Hcl; by apply g_list_remove_app_notin).
      assert (Hsub1 : sublist (clients s1) (clients s)).
      { rewrite Hcl1', Hcl. apply sublist_app; [done |]. by apply sublist_cons. }
      assert (Hst : ∀ (l' : loc) (c' : GstTCPClient),
                store s1 !! l' = Some c' ∧ fcntl (fd c') ≠ FcntlEBADF
                ↔ store s !! l' = Some c' ∧ fcntl (fd c') ≠ FcntlEBADF).
      { intros l' c'. rewrite Hst1.
        destruct (decide (l' = l)) as [-> | Hne].
        - rewrite lookup_delete_eq. split; [by intros [? _] |].
          intros [Hc' Hok]. congruence.
        - by rewrite lookup_delete_ne. }
      simpl. rewrite Hwalk. destruct next as [|l2 next].
      * exists s1. split; [done |]. split; [| done].
        intros l' c'. rewrite <- Hst. split; [| by intros [? _]].
        intros Hc'. split; [done |].
        assert (Hl' : l' ∈ clients s1)
          by (apply (tc_list s1 Hcons1); by eexists).
        rewrite Hcl1', app_nil_r in Hl'.
        destruct (Hv l' Hl') as (c2 & Hc2 & Hok).
        rewrite Hst1 in Hc'.
        apply lookup_delete_Some in Hc' as [_ Hc']. congruence.
      * destruct (IH s1) as (s' & Hrun & Hst' & Hsub' & Hcons'); [| done | |].
        -- rewrite Hcl1'. rewrite Hcl, !length_app in Hlen. simpl in *.
           rewrite length_app. simpl. lia.
        -- intros l' c'. rewrite Hst1. intros Hc'.
           apply lookup_delete_Some in Hc' as [_ Hc']. by apply (Hrem l').
        -- exists s'. split; [done |].
           split; [| split; [by etrans | done]].
           intros l' c'. by rewrite Hst', Hst.
Qed.

End badfd_scan.

(** When the wait fails with [EBADF], the scan removes the clients whose
    descriptor [fcntl] reports as invalid and no other, in as many
    restarts as there are clients at most: the store keeps the other
    clients as they were, the list keeps its order and the table stays
    consistent. *)
Theorem handle_clients_badfd_removes_invalid (now : Z)
    (fcntl : Z → FcntlResult) (s : GstMultiFdSink) :
  table_consistent s →
  (∀ (l : loc) (c : GstTCPClient),
     store s !! l = Some c → currently_removing (mh c) = false) →
  ∃ s' : GstMultiFdSink,
    handle_clients_badfd (length (clients s)) now fcntl s = Some s'
    ∧ (∀ (l : loc) (c : GstTCPClient),
         store s' !! l = Some c
         ↔ store s !! l = Some c ∧ fcntl (fd c) ≠ FcntlEBADF)
    ∧ sublist (clients s') (clients s)
    ∧ table_consistent s'.
Proof.
  intros Hcons Hrem.
  by apply (handle_clients_badfd_spec now fcntl (length (clients s)) s).
Qed.

Lemma handle_clients_badfd_removes_invalid_witness :
  let s := Example.sink_with Example.default_props [Example.delta 3]
             [Example.served_client 7 0 0; Example.served_client 8 0 0;
              Example.served_client 9 0 0] in
  let fcntl := λ fdn : Z, if fdn =? 8 then FcntlOk else FcntlEBADF in
  table_consistent s
  ∧ (∀ (l : loc) (c : GstTCPClient),
       store s !! l = Some c → currently_removing (mh c) = false)
  ∧ ∃ s' : GstMultiFdSink,
      handle_clients_badfd (length (clients s)) 5 fcntl s = Some s'
      ∧ (∀ (l : loc) (c : GstTCPClient),
           store s' !! l = Some c
           ↔ store s !! l = Some c ∧ fcntl (fd c) ≠ FcntlEBADF)
      ∧ sublist (clients s') (clients s)
      ∧ table_consistent s'.
Proof.
  intros s fcntl.
  assert (H1 : table_consistent s)
    by (apply table_consistent_check_sound; vm_compute; reflexivity).
  assert (H2 : ∀ (l : loc) (c : GstTCPClient),
            store s !! l = Some c → currently_removing (mh c) = false).
  { intros l c Hc.
    assert (Hl : l ∈ clients s) by (apply (tc_list s H1); by eexists).
    change (clients s) with [1%positive; 2%positive; 3%positive] in Hl.
    repeat (apply elem_of_cons in Hl as [-> | Hl];
            [by injection Hc as <- |]).
    by apply elem_of_nil in Hl. }
  split; [exact H1 |]. split; [exact H2 |].
  exact (handle_clients_badfd_removes_invalid 5 fcntl s H1 H2).
Defined.

(** ** Waiting clients are woken up *)

Section render_wakes.

Variables (now max_buffers soft_max_buffers : Z) (p : SinkProps).

(** Neither the hard maximum nor the timeout is set. *)
Hypothesis Hhard : max_buffers ≤ 0.
Hypothesis Htimeout : timeout p ≤ 0.

(** The body of the client loop writes the client back, drops no
    interest in writing, and turns it on for a client that was
    waiting, which it moves to the new buffer. *)
Lemma queue_buffer_client_wakes (l : loc) (w w' : walk) (c : GstTCPClient) :
  props (w_sink w) = p →
  store (w_sink w) !! l = Some c →
  queue_buffer_client now max_buffers soft_max_buffers l w = Some w' →
  ∃ c' : GstTCPClient,
    store (w_sink w') = <[l := c']> (store (w_sink w))
    ∧ props (w_sink w') = p
    ∧ clients_cookie (w_sink w') = clients_cookie (w_sink w)
    ∧ (w_need_signal w = true → w_need_signal w' = true)
    ∧ (∀ f : Z, (want_write <$> fdset (w_sink w) !! f = Some true) → (want_write <$> fdset (w_sink w') !! f = Some true))
    ∧ (∀ f : Z, is_Some (fdset (w_sink w) !! f) →
         is_Some (fdset (w_sink w') !! f))
    ∧ (bufpos (mh c) = -1 →
       bufpos (mh c') = 0 ∧ w_need_signal w' = true
       ∧ (is_Some (fdset (w_sink w) !! fd c) → (want_write <$> fdset (w_sink w') !! (fd c) = Some true))).
Proof.
  intros Hp Hc. unfold queue_buffer_client. rewrite Hc, Hp. simpl.
  set (c1 := on_mh (set_bufpos (to_gint (bufpos (mh c) + 1))) c).
  destruct (if (0 <? soft_max_buffers) && _ then _ else _) as [c2|] eqn:Hc2;
    [simpl | done].
  assert (Hfd2 : fd c2 = fd c).
  { revert Hc2. destruct (_ && _); [| by intros [= <-]].
    destruct (gst_multi_fd_sink_recover_client _ _ _) as [newpos|];
      [simpl | done].
    destruct (negb _); by intros [= <-]. }
  assert (Hwait : bufpos (mh c) = -1 → bufpos (mh c2) = 0).
  { intros Hpos. revert Hc2. subst c1. rewrite Hpos. simpl.
    change (to_gint (-1 + 1)) with 0.
    destruct (Z.ltb_spec 0 soft_max_buffers); simpl; [| by intros [= <-]].
    destruct (Z.leb_spec soft_max_buffers 0); [lia | by intros [= <-]]. }
  assert (Hno : (0 <? max_buffers) && (max_buffers <=? bufpos (mh c2))
                || (0 <? timeout p)
                   && (timeout p <? to_guint64 (now - last_activity_time (mh c2)))
                = false).
  { destruct (Z.ltb_spec 0 max_buffers); [lia |].
    destruct (Z.ltb_spec 0 (timeout p)); [lia | done]. }
  rewrite Hno.
  assert (Halter :
    ∀ f : Z,
      ((want_write <$> fdset (w_sink w) !! f = Some true) →
       (want_write <$> fdset (gst_poll_fd_ctl_write (fd c2) true (update_client l c2 (w_sink w))) !! f = Some true))
      ∧ (is_Some (fdset (w_sink w) !! f) →
         is_Some (fdset (gst_poll_fd_ctl_write (fd c2) true
                           (update_client l c2 (w_sink w))) !! f))
      ∧ (is_Some (fdset (w_sink w) !! fd c2) →
         (want_write <$> fdset (gst_poll_fd_ctl_write (fd c2) true (update_client l c2 (w_sink w))) !! (fd c2) = Some true))).
  { intros f. destruct (w_sink w); simpl.
    rewrite lookup_alter_eq.
    destruct (decide (fd c2 = f)) as [<- | Hne].
    - rewrite lookup_alter_eq.
      destruct (fdset0 !! fd c2); simpl; [| by split; [| split; intros [? ?]]].
      split; [done |]. split; [by eexists | done].
    - rewrite lookup_alter_ne by done. split; [done |]. split; [done |].
      by intros [pf ->]. }
  destruct (Z.eqb_spec (bufpos (mh c2)) 0) as [Hzero | Hnz]; simpl;
    [| destruct (new_connection (mh c2)) eqn:Hnew];
    intros [= <-]; exists c2; simpl.
  - split; [by destruct (w_sink w) |]. split; [by destruct (w_sink w) |].
    split; [by destruct (w_sink w) |]. split; [done |].
    split; [apply Halter |]. split; [apply Halter |].
    intros _. split; [done |]. split; [done |]. rewrite <- Hfd2.
    apply (Halter 0).
  - split; [by destruct (w_sink w) |]. split; [by destruct (w_sink w) |].
    split; [by destruct (w_sink w) |]. split; [done |].
    split; [apply Halter |]. split; [apply Halter |].
    intros Hpos. by specialize (Hwait Hpos).
  - split; [by destruct (w_sink w) |]. split; [by destruct (w_sink w) |].
    split; [by destruct (w_sink w) |]. split; [done |].
    split; [by destruct (w_sink w) |]. split; [by destruct (w_sink w) |].
    intros Hpos. by specialize (Hwait Hpos).
Qed.

(** A walk along clients that are each once on the list does not
    restart and wakes up those that were waiting. *)
Lemma queue_buffer_walk_wakes (links : list loc) :
  ∀ (w w' : walk) (restart : bool),
    NoDup links →
    props (w_sink w) = p →
    queue_buffer_walk now max_buffers soft_max_buffers
      (clients_cookie (w_sink w)) links w = Some (w', restart) →
    restart = false
    ∧ (w_need_signal w = true → w_need_signal w' = true)
    ∧ (∀ f : Z, (want_write <$> fdset (w_sink w) !! f = Some true) → (want_write <$> fdset (w_sink w') !! f = Some true))
    ∧ (∀ l : loc, l ∉ links → store (w_sink w') !! l = store (w_sink w) !! l)
    ∧ (∀ (l : loc) (c : GstTCPClient),
         l ∈ links → store (w_sink w) !! l = Some c → bufpos (mh c) = -1 →
         is_Some (fdset (w_sink w) !! fd c) →
         w_need_signal w' = true
         ∧ (want_write <$> fdset (w_sink w') !! (fd c) = Some true)
         ∧ ∃ c' : GstTCPClient,
             store (w_sink w') !! l = Some c' ∧ bufpos (mh c') = 0).
Proof.
  induction links as [|l0 next IH]; intros w w' restart Hnd Hp; simpl.
  - intros [= <- <-]. do 4 (split; [done |]).
    intros l c Hl. by apply elem_of_nil in Hl.
  - rewrite Z.eqb_refl. simpl.
    apply NoDup_cons in Hnd as [Hl0 Hnd].
    destruct (queue_buffer_client _ _ _ l0 w) as [w1|] eqn:Hbody;
      [simpl | done].
    assert (Hc0 : is_Some (store (w_sink w) !! l0)).
    { revert Hbody. unfold queue_buffer_client.
      destruct (store (w_sink w) !! l0); [by eexists | done]. }
    destruct Hc0 as [c0 Hc0].
    destruct (queue_buffer_client_wakes l0 w w1 c0 Hp Hc0 Hbody)
      as (c0' & Hst & Hp1 & Hck & Hsig & Hwr & Hfds & Hwake).
    rewrite <- Hck. intros Hwalk.
    apply IH in Hwalk as (-> & Hsig' & Hwr' & Hout & Hin); [| done | done].
    split; [done |]. split; [auto |]. split; [auto |]. split.
    + intros l Hl. apply not_elem_of_cons in Hl as [Hne Hl].
      by rewrite (Hout l Hl), Hst, lookup_insert_ne.
    + intros l c [-> | Hl]%elem_of_cons Hc Hpos Hfd.
      * rewrite Hc0 in Hc. injection Hc as <-.
        destruct (Hwake Hpos) as (Hpos' & Hsig1 & Hwr1).
        split; [auto |]. split; [auto |].
        exists c0'. by rewrite (Hout l0 Hl0), Hst, lookup_insert_eq.
      * apply (Hin l c Hl); [| done | auto].
        rewrite Hst, lookup_insert_ne; [done |]. by intros ->.
Qed.

End render_wakes.

(** With neither hard maximum nor timeout set, [render] of a data buffer
    wakes up every client that was waiting for one: the client is moved
    to position 0, the new buffer, the interest in writing is turned on
    for its descriptor, and the poll loop is restarted last. *)
Theorem render_wakes_waiting_client (now : Z) (buf : GstBuffer)
    (s s' : GstMultiFdSink) (ret : GstFlowReturn) (l : loc)
    (c : GstTCPClient) :
  units_max (props s) ≤ 0 → timeout (props s) ≤ 0 →
  table_consistent s →
  sink_open s = true → buf_header buf = false →
  store s !! l = Some c → bufpos (mh c) = -1 →
  gst_multi_fd_sink_render now buf s = Some (ret, s') →
  (∃ c' : GstTCPClient, store s' !! l = Some c' ∧ bufpos (mh c') = 0)
  ∧ want_write <$> fdset s' !! fd c = Some true
  ∧ last (trace s') = Some PollRestart.
Proof.
  intros Hhard Htimeout Hcons Hopen Hdata Hc Hpos.
  unfold gst_multi_fd_sink_render. rewrite Hopen, Hdata. simpl.
  set (s0 := set_previous_buffer_in_caps false s).
  unfold gst_multi_fd_sink_queue_buffer. cbv zeta.
  set (s1 := set_bufqueue (buf :: bufqueue s0) s0).
  assert (Hp1 : props s1 = props s) by (by destruct s).
  assert (Hcl1 : clients s1 = clients s) by (by destruct s).
  assert (Hst1 : store s1 = store s) by (by destruct s).
  assert (Hfs1 : fdset s1 = fdset s) by (by destruct s).
  rewrite Hp1.
  destruct (Z.ltb_spec 0 (units_max (props s))); [lia |].
  set (soft := if 0 <? units_soft_max (props s) then _ else _).
  assert (Hwalk :
    ∀ n : nat,
      queue_buffer_clients n now (-1) soft (mkWalk s1 false 0)
      = match queue_buffer_walk now (-1) soft (clients_cookie s1) (clients s1)
                (mkWalk s1 false 0) with
        | Some (w, false) => Some w
        | Some (w, true) =>
            match n with
            | O => None
            | S n => queue_buffer_clients n now (-1) soft w
            end
        | None => None
        end) by (by intros []).
  rewrite Hwalk. clear Hwalk.
  destruct (queue_buffer_walk _ _ _ _ _ _) as [[w restart]|] eqn:Hw; [| done].
  assert (Hl : l ∈ clients s1).
  { rewrite Hcl1. apply (tc_list s Hcons). by eexists. }
  assert (Hfd : is_Some (fdset s1 !! fd c)).
  { rewrite Hfs1. apply (tc_poll s Hcons). exists l.
    apply (tc_hash s Hcons). by exists c. }
  destruct (queue_buffer_walk_wakes now (-1) soft (props s) ltac:(lia)
              Htimeout (clients s1) (mkWalk s1 false 0) w restart)
    as (-> & _ & _ & _ & Hin); [| done | done |].
  { rewrite Hcl1. apply (tc_nodup s Hcons). }
  destruct (Hin l c Hl) as (Hsig & Hwr & c' & Hc' & Hpos');
    [change (store s1 !! l = Some c); by rewrite Hst1 | done | exact Hfd |].
  simpl.
  destruct (find_limits _ _ _ _ _ _ _) as [lim|]; [simpl | done].
  rewrite Hsig. intros [= _ <-]. simpl.
  split; [by exists c' |]. split; [by destruct (w_sink w) |].
  destruct (w_sink w); simpl. by rewrite last_snoc.
Qed.

Lemma render_wakes_waiting_client_witness :
  let s := Example.sink_with Example.default_props
             [Example.delta 3; Example.delta 2]
             [Example.served_client 7 0 1; Example.served_client 8 0 (-1)] in
  let c := Example.served_client 8 0 (-1) in
  ∃ s' : GstMultiFdSink,
    gst_multi_fd_sink_render 9 (Example.delta 1) s = Some (GST_FLOW_OK, s')
    ∧ (∃ c' : GstTCPClient,
         store s' !! 2%positive = Some c' ∧ bufpos (mh c') = 0)
    ∧ want_write <$> fdset s' !! fd c = Some true
    ∧ last (trace s') = Some PollRestart.
Proof.
  intros s c. eexists. split; [vm_compute; reflexivity |].
  apply (render_wakes_waiting_client 9 (Example.delta 1) s _ GST_FLOW_OK
           2%positive c).
  - vm_compute. discriminate.
  - vm_compute. discriminate.
  - apply table_consistent_check_sound. vm_compute. reflexivity.
  - reflexivity.
  - reflexivity.
  - reflexivity.
  - reflexivity.
  - vm_compute. reflexivity.
Defined.
